(** * CogSocket: a shallow embedding of [cogsocket.js]

    The protocol engine of [cogsocket.js] is embedded function by function,
    under the names it has in the source.

    - JavaScript values are the inductive type [value].  Objects are trees of
      own data properties in insertion order; a reference into the object
      graph is the chain of member names that leads to it from its root, so
      an assignment through a resolved path rebuilds the root along that
      chain, and no object is reached from itself.  Objects and arrays are
      frozen or not; a function can be given members.  What an object of
      the graph inherits from a built-in prototype is not represented, and
      numbers are integers.
    - The tables the engine keeps in plain objects ([pendingRequests],
      [listeners], [eventSenders]) are finite maps keyed by the property key,
      i.e. the string the key expression converts to.  A read [table[key]] of
      [listeners] or [eventSenders] also finds what a plain object inherits
      from [Object.prototype], as it does in the source.
    - Every function of the engine is a computation in the monad [M]: it
      threads the engine object, collects what the engine does to the outside
      world (frames handed to the transport, log lines, calls of host
      functions) and either returns or throws a JavaScript value.
    - An inbound text frame is given by what [JSON.parse] makes of it, an
      outbound one by the value handed to [JSON.stringify].
    - Host code (members of the application's object graph, completion
      continuations, event listeners) is a parameter of the development: a
      call is recorded and its outcome, a value returned or thrown, is taken
      from the [host] record.  Host code is taken not to call back into the
      engine before it returns and not to change the object graph; the
      transport ([send], [close]) and the log function are taken not to
      throw. *)

From stdpp Require Import gmap strings list pretty.
From Stdlib Require Import ZArith Lia Ascii.

Set Warnings "-register-all".
Local Open Scope Z_scope.

(* ===================================================================== *)
(** ** JavaScript values                                                   *)
(* ===================================================================== *)

(** The functions a value can be: the host's, named by a number, and the two
    closures the engine makes. *)
Inductive closure : Type :=
| CFun (f : nat)
| CHello
| CSender (path : string).

Inductive value : Type :=
| VUndefined
| VNull
| VBool (b : bool)
| VNum (n : Z)
| VStr (s : string)
| VArr (elems : list value)
| VObj (frozen : bool) (props : list (string * value))
| VError (number : value) (message : value)   (* [new Error(message)], with its [number] member *)
| VFun (f : nat)                              (* a function supplied by the host *)
| VHello                                      (* the closure [hello] of ConnectionObject *)
| VSender (path : string)                     (* the closure [sender] built by a listen request *)
| VFrozenArr (elems : list value)             (* an array after [Object.freeze] *)
| VWith (fn : closure) (members : list (string * value)).
                                              (* a function that has been given members *)

(** Completion of a JavaScript evaluation: a value, or a thrown value. *)
Inductive outcome (A : Type) : Type :=
| Ret (a : A)
| Throw (ex : value).
Arguments Ret {A} a.
Arguments Throw {A} ex.

Definition outcome_bind {A B} (o : outcome A) (k : A -> outcome B) : outcome B :=
  match o with
  | Ret a => k a
  | Throw ex => Throw ex
  end.

(** The exceptions the runtime itself raises are Error objects without a
    [number]; only their being Error objects matters to the engine. *)
Definition TypeError (msg : string) : value := VError VUndefined (VStr msg).
Definition RangeError (msg : string) : value := VError VUndefined (VStr msg).
Definition ReferenceError (msg : string) : value := VError VUndefined (VStr msg).
Definition new_Error (msg : string) : value := VError VUndefined (VStr msg).

(** [if (v)] *)
Definition truthy (v : value) : bool :=
  match v with
  | VUndefined | VNull => false
  | VBool b => b
  | VNum n => negb (n =? 0)
  | VStr s => negb (String.eqb s EmptyString)
  | _ => true
  end.

(** [v instanceof Error] *)
Definition instanceof_Error (v : value) : bool :=
  match v with
  | VError _ _ => true
  | _ => false
  end.

(** [Array.isArray(v)] *)
Definition isArray (v : value) : bool :=
  match v with
  | VArr _ | VFrozenArr _ => true
  | _ => false
  end.

Definition is_function (v : value) : bool :=
  match v with
  | VFun _ | VHello | VSender _ | VWith _ _ => true
  | _ => false
  end.

(** The function a value is, if it is one. *)
Definition callee (v : value) : option closure :=
  match v with
  | VFun f | VWith (CFun f) _ => Some (CFun f)
  | VHello | VWith CHello _ => Some CHello
  | VSender path | VWith (CSender path) _ => Some (CSender path)
  | _ => None
  end.

(** [typeof v === "object"] or a function: the values the setter of
    [__proto__] takes for a prototype. *)
Definition is_object (v : value) : bool :=
  match v with
  | VArr _ | VFrozenArr _ | VObj _ _ | VError _ _
  | VFun _ | VHello | VSender _ | VWith _ _ => true
  | _ => false
  end.

(* ===================================================================== *)
(** ** Strings: the operations [parsePath] uses                            *)
(* ===================================================================== *)

(** [s.substr(0, 2)] *)
Definition substr_0_2 (s : string) : string := String.substring 0 2 s.

(** [s.substr(2)] *)
Definition substr_2 (s : string) : string :=
  match s with
  | String _ (String _ rest) => rest
  | _ => EmptyString
  end.

(** [s.replace(/\/$/, empty)]: one slash at the very end is removed. *)
Fixpoint strip_trailing_slash (s : string) : string :=
  match s with
  | EmptyString => EmptyString
  | String c EmptyString => if Ascii.eqb c "/"%char then EmptyString else s
  | String c rest => String c (strip_trailing_slash rest)
  end.

(** [s.split(sep)] for a one-character separator; never empty. *)
Fixpoint split (sep : ascii) (s : string) : list string :=
  match s with
  | EmptyString => [EmptyString]
  | String c rest =>
      if Ascii.eqb c sep then EmptyString :: split sep rest
      else match split sep rest with
           | hd :: tl => String c hd :: tl
           | [] => [String c EmptyString]
           end
  end.

(** A property name that is a canonical array index: ["0"], or decimal digits
    that do not start with ["0"]. *)
Definition digit_of (c : ascii) : option nat :=
  let n := nat_of_ascii c in
  if (Nat.leb 48 n && Nat.leb n 57)%bool then Some (n - 48)%nat else None.

Fixpoint parse_digits (acc : nat) (s : string) : option nat :=
  match s with
  | EmptyString => Some acc
  | String c rest =>
      match digit_of c with
      | Some d => parse_digits (10 * acc + d)%nat rest
      | None => None
      end
  end.

Definition array_index (k : string) : option nat :=
  match k with
  | EmptyString => None
  | String c rest =>
      if (Ascii.eqb c "0"%char && negb (String.eqb rest EmptyString))%bool then None
      else parse_digits 0 k
  end.

(* ===================================================================== *)
(** ** Member access: [o[k]] and [o[k] = v]                                *)
(* ===================================================================== *)

Fixpoint lookup_prop (k : string) (props : list (string * value)) : value :=
  match props with
  | [] => VUndefined
  | (k', v) :: rest => if String.eqb k' k then v else lookup_prop k rest
  end.

Fixpoint has_prop (k : string) (props : list (string * value)) : bool :=
  match props with
  | [] => false
  | (k', _) :: rest => if String.eqb k' k then true else has_prop k rest
  end.

(** Assignment to a property of an extensible object: an existing property
    keeps its place, a new one is added last. *)
Fixpoint store_prop (k : string) (v : value) (props : list (string * value))
  : list (string * value) :=
  match props with
  | [] => [(k, v)]
  | (k', v') :: rest =>
      if String.eqb k' k then (k', v) :: rest else (k', v') :: store_prop k v rest
  end.

(** Assignment to an array element; past the end the array is extended, the
    elements in between being holes, which read as [undefined]. *)
Definition store_index (i : nat) (v : value) (l : list value) : list value :=
  if Nat.ltb i (length l) then <[i := v]> l
  else l ++ replicate (i - length l) VUndefined ++ [v].

Definition char_at (i : nat) (s : string) : value :=
  match String.get i s with
  | Some c => VStr (String c EmptyString)
  | None => VUndefined
  end.

(** *** Conversions to string *)

(** [Array.prototype.join] on the conversions of the elements, which are
    made from left to right. *)
Fixpoint join_outcomes (l : list (outcome string)) : outcome string :=
  match l with
  | [] => Ret EmptyString
  | x :: rest =>
      outcome_bind x (fun s =>
        match rest with
        | [] => Ret s
        | _ => outcome_bind (join_outcomes rest) (fun r => Ret (s +:+ "," +:+ r))
        end)
  end.

(** [String(v)], the conversion behind property keys ([table[v]]),
    [v.toString()] and the comparison of a value with a string.  It is exact
    on the values [JSON.parse] produces: an object with a [toString] member of
    its own (which can only be data there) cannot be converted. *)
Fixpoint to_str (v : value) : outcome string :=
  match v with
  | VUndefined => Ret "undefined"
  | VNull => Ret "null"
  | VBool true => Ret "true"
  | VBool false => Ret "false"
  | VNum n => Ret (pretty n)
  | VStr s => Ret s
  | VArr l | VFrozenArr l =>
      join_outcomes
        (map (fun x => match x with
                       | VUndefined | VNull => Ret EmptyString
                       | _ => to_str x
                       end) l)
  | VObj _ props =>
      if has_prop "toString" props
      then Throw (TypeError "Cannot convert object to primitive value")
      else Ret "[object Object]"
  | VError _ m =>
      outcome_bind
        (match m with
         | VUndefined => Ret EmptyString
         | _ => to_str m
         end)
        (fun msg => Ret (if String.eqb msg EmptyString then "Error"
                         else "Error: " +:+ msg))
  | VFun _ | VHello | VSender _ | VWith _ _ => Ret "function () { [code] }"
  end.

(** [v == s] for a string [s]. *)
Definition loose_eq_string (v : value) (s : string) : outcome bool :=
  match v with
  | VStr x => Ret (String.eqb x s)
  | VArr _ | VFrozenArr _ | VObj _ _ | VError _ _
  | VFun _ | VHello | VSender _ | VWith _ _ =>
      outcome_bind (to_str v) (fun x => Ret (String.eqb x s))
  | _ => Ret false
  end.

(** [o[k]]: reading a member.  Only [undefined] and [null] throw.  The
    members are the own ones of the tree: what an object inherits from its
    prototype, and the members a function is born with ([length], [name],
    [prototype]), read as [undefined]. *)
Definition get_member (o : value) (k : string) : outcome value :=
  match o with
  | VUndefined | VNull =>
      Throw (TypeError ("Cannot read property '" +:+ k +:+ "' of undefined or null"))
  | VObj _ props => Ret (lookup_prop k props)
  | VArr l =>
      if String.eqb k "length" then Ret (VNum (Z.of_nat (length l)))
      else match array_index k with
           | Some i => Ret (nth i l VUndefined)
           | None => Ret VUndefined
           end
  | VStr s =>
      if String.eqb k "length" then Ret (VNum (Z.of_nat (String.length s)))
      else match array_index k with
           | Some i => Ret (char_at i s)
           | None => Ret VUndefined
           end
  | VFrozenArr l =>
      if String.eqb k "length" then Ret (VNum (Z.of_nat (length l)))
      else match array_index k with
           | Some i => Ret (nth i l VUndefined)
           | None => Ret VUndefined
           end
  | VError n m =>
      if String.eqb k "number" then Ret n
      else if String.eqb k "message" then Ret m
      else Ret VUndefined
  | VWith _ members => Ret (lookup_prop k members)
  | _ => Ret VUndefined
  end.

(** [ToNumber(v)], as far as the integers of the model go; [None] stands for
    a number that is no integer ([NaN]).  A string is converted when it is
    empty or a run of decimal digits; the other spellings of a number (a
    sign, a fraction, an exponent, blanks around it, a radix prefix) are not
    recognised. *)
Definition string_to_number (s : string) : option Z :=
  option_map Z.of_nat (parse_digits 0 s).

(** [arr.length = v]: the array is cut or padded with holes; a value that is
    no integer between 0 and 2^32 - 1 is a RangeError. *)
Definition resize (n : nat) (l : list value) : list value :=
  take n l ++ replicate (n - length l) VUndefined.

Definition set_length (l : list value) (n : option Z) : outcome value :=
  match n with
  | Some n =>
      if ((0 <=? n) && (n <=? 4294967295))%bool then Ret (VArr (resize (Z.to_nat n) l))
      else Throw (RangeError "Invalid array length")
  | None => Throw (RangeError "Invalid array length")
  end.

(** The members of a function that an assignment leaves as they are: the
    ones it is born with and that cannot be written, and the accessor
    [__proto__]. *)
Definition function_keeps (k : string) : bool :=
  existsb (String.eqb k) ["name"; "length"; "arguments"; "caller"; "__proto__"].

(** [o.__proto__ = v] on an object that is not extensible: the setter throws
    when it is given an object or [null], and ignores anything else. *)
Definition set_proto_frozen (o v : value) : outcome value :=
  if (is_object v || match v with VNull => true | _ => false end)%bool
  then Throw (TypeError "Object is not extensible")
  else Ret o.

(** [o[k] = v] outside strict mode (the module does not opt into strict
    mode): the result is the object after the assignment.  Assigning to a
    member of a frozen object or array or of a primitive is silently
    ignored; [undefined] and [null] throw.  [__proto__], unless the object
    has a property of that name of its own, is the accessor every object
    inherits: it stores no data, and the change of prototype it makes is
    not represented.  Named members added to arrays and Error objects are
    left out. *)
Definition set_member (o : value) (k : string) (v : value) : outcome value :=
  match o with
  | VUndefined | VNull =>
      Throw (TypeError ("Cannot set property '" +:+ k +:+ "' of undefined or null"))
  | VObj true props =>
      if (String.eqb k "__proto__" && negb (has_prop k props))%bool
      then set_proto_frozen o v
      else Ret o
  | VObj false props =>
      if (String.eqb k "__proto__" && negb (has_prop k props))%bool then Ret o
      else Ret (VObj false (store_prop k v props))
  | VArr l =>
      if String.eqb k "length" then
        match v with
        | VUndefined => set_length l None
        | VNull => set_length l (Some 0)
        | VBool b => set_length l (Some (if b then 1 else 0))
        | VNum n => set_length l (Some n)
        | VStr s => set_length l (string_to_number s)
        | _ => outcome_bind (to_str v) (fun s => set_length l (string_to_number s))
        end
      else
        match array_index k with
        | Some i => Ret (VArr (store_index i v l))
        | None => Ret o
        end
  | VFrozenArr _ =>
      if String.eqb k "__proto__" then set_proto_frozen o v else Ret o
  | VError n m =>
      if String.eqb k "number" then Ret (VError v m)
      else if String.eqb k "message" then Ret (VError n v)
      else Ret o
  | VFun f => if function_keeps k then Ret o else Ret (VWith (CFun f) [(k, v)])
  | VHello => if function_keeps k then Ret o else Ret (VWith CHello [(k, v)])
  | VSender path =>
      if function_keeps k then Ret o else Ret (VWith (CSender path) [(k, v)])
  | VWith fn members =>
      if function_keeps k then Ret o else Ret (VWith fn (store_prop k v members))
  | _ => Ret o
  end.

(** The object [o] after the object held in its member [k] has been mutated
    into [child].  This is not an assignment: it makes a mutation of a nested
    object visible from its container, frozen or not. *)
Definition replace_member (o : value) (k : string) (child : value) : value :=
  match o with
  | VObj fr props => if has_prop k props then VObj fr (store_prop k child props) else o
  | VArr l =>
      match array_index k with
      | Some i => if Nat.ltb i (length l) then VArr (<[i := child]> l) else o
      | None => o
      end
  | VFrozenArr l =>
      match array_index k with
      | Some i => if Nat.ltb i (length l) then VFrozenArr (<[i := child]> l) else o
      | None => o
      end
  | VError n m =>
      if String.eqb k "number" then VError child m
      else if String.eqb k "message" then VError n child
      else o
  | VWith fn members =>
      if has_prop k members then VWith fn (store_prop k child members) else o
  | _ => o
  end.

(** The graph rooted at [root] after the object reached through the members
    [trail] has become [newobj]. *)
Fixpoint update_at (root : value) (trail : list string) (newobj : value) : value :=
  match trail with
  | [] => newobj
  | k :: rest =>
      match get_member root k with
      | Ret child => replace_member root k (update_at child rest newobj)
      | Throw _ => root
      end
  end.

(** The loop of [parsePath]: [obj = obj[parts[i]]] for all but the last part.
    The result is the object reached and the last part. *)
Fixpoint walk (obj : value) (parts : list string) : outcome (value * string) :=
  match parts with
  | [] => Ret (obj, EmptyString)
  | [p] => Ret (obj, p)
  | p :: rest => outcome_bind (get_member obj p) (fun o => walk o rest)
  end.

(* ===================================================================== *)
(** ** The engine object                                                   *)
(* ===================================================================== *)

(** An entry of [pendingRequests]: [{ requestId, oncomplete }]. *)
Record PendingRequest : Type := MkPendingRequest {
  pr_requestId : Z;
  pr_oncomplete : nat
}.

(** [this._priv].  Completion continuations and listeners are host functions,
    named by a number and compared by identity.  The [websocket] member is
    the transport; what is done to it is recorded as [event]s. *)
Record priv : Type := MkPriv {
  root : value;
  space : value;
  requestId : Z;
  pendingRequests : gmap string PendingRequest;
  listeners : gmap string (list nat);
  eventSenders : gmap string value;
  connection : value;
  remoteInfo : value;
  localInfo : value
}.

(** The CogSocket object: [_priv] is [None] once [close] has deleted it, and
    [log] tells whether a log function is installed. *)
Record CogSocket : Type := MkCogSocket {
  _priv : option priv;
  log : bool
}.

Definition set_root (v : value) (p : priv) : priv :=
  MkPriv v (space p) (requestId p) (pendingRequests p) (listeners p)
         (eventSenders p) (connection p) (remoteInfo p) (localInfo p).
Definition set_requestId (n : Z) (p : priv) : priv :=
  MkPriv (root p) (space p) n (pendingRequests p) (listeners p)
         (eventSenders p) (connection p) (remoteInfo p) (localInfo p).
Definition set_pendingRequests (m : gmap string PendingRequest) (p : priv) : priv :=
  MkPriv (root p) (space p) (requestId p) m (listeners p)
         (eventSenders p) (connection p) (remoteInfo p) (localInfo p).
Definition set_listeners (m : gmap string (list nat)) (p : priv) : priv :=
  MkPriv (root p) (space p) (requestId p) (pendingRequests p) m
         (eventSenders p) (connection p) (remoteInfo p) (localInfo p).
Definition set_eventSenders (m : gmap string value) (p : priv) : priv :=
  MkPriv (root p) (space p) (requestId p) (pendingRequests p) (listeners p)
         m (connection p) (remoteInfo p) (localInfo p).
Definition set_connection (v : value) (p : priv) : priv :=
  MkPriv (root p) (space p) (requestId p) (pendingRequests p) (listeners p)
         (eventSenders p) v (remoteInfo p) (localInfo p).
Definition set_remoteInfo (v : value) (p : priv) : priv :=
  MkPriv (root p) (space p) (requestId p) (pendingRequests p) (listeners p)
         (eventSenders p) (connection p) v (localInfo p).
Definition set_localInfo (v : value) (p : priv) : priv :=
  MkPriv (root p) (space p) (requestId p) (pendingRequests p) (listeners p)
         (eventSenders p) (connection p) (remoteInfo p) v.

(** A frame on the transport.  A text frame is given by the value whose
    [JSON.stringify] is its text. *)
Inductive frame : Type :=
| TextFrame (json : value)
| BinaryFrame (bytes : list Z).

(** The lines handed to the log function. *)
Inductive log_entry : Type :=
| LogOnMessage                      (* "WebSocket.onmessage" *)
| LogGot (json : outcome value)     (* "Got " + event.data *)
| LogSend (json : value)            (* "Send " + json *)
| LogNoPending (id : value)         (* "ERROR: Received response ... with no pending request" *)
| LogException (ex : value).        (* "Exception while handling CogSocket message: " + ex *)

(** What the engine does to the world outside it. *)
Inductive event : Type :=
| Sent (f : frame)                                      (* websocket.send(...) *)
| Logged (l : log_entry)                                (* this.log(...) *)
| ConsoleLogStack (ex : value)                          (* console.log(ex.stack) *)
| Invoked (f : nat) (this : value) (args : list value)  (* a function member is called *)
| Notified (f : nat) (args : list value)                (* a continuation or listener is called *)
| TransportClosed.                                      (* websocket.close() *)

(** [event.data] of an inbound frame: an ArrayBuffer, or text, given by what
    [JSON.parse] makes of it (a value, or a thrown SyntaxError). *)
Inductive data : Type :=
| ArrayBuffer (bytes : list Z)
| Text (parsed : outcome value).

(** The host: the functions of the application, and the globals [hello]
    looks at.  [env_process] and [env_window] are [None] where the identifier
    is not defined; [env_os_hostname] is the completion of [os.hostname()];
    [env_builtin] is the number under which the host knows the function that
    [Object.prototype] holds under a name. *)
Record host : Type := MkHost {
  host_method : nat -> value -> list value -> outcome value;
  host_callback : nat -> list value -> outcome value;
  env_process : option value;
  env_os_hostname : outcome value;
  env_window : option value;
  env_builtin : string -> nat
}.

(* ===================================================================== *)
(** ** Tables kept in plain objects                                        *)
(* ===================================================================== *)

(** The engine keeps its tables in plain objects and reads them with
    [table[key]], which also finds what a plain object inherits from
    [Object.prototype].  These are the members of [Object.prototype], each
    with what [.length] reads on it: the number of parameters of a function,
    and nothing for [__proto__], an accessor that reads as the prototype
    object itself.  [Object.prototype] is taken to be as the language defines
    it. *)
Definition Object_prototype : list (string * option nat) :=
  [("constructor", Some 1%nat);
   ("__defineGetter__", Some 2%nat);
   ("__defineSetter__", Some 2%nat);
   ("hasOwnProperty", Some 1%nat);
   ("__lookupGetter__", Some 1%nat);
   ("__lookupSetter__", Some 1%nat);
   ("isPrototypeOf", Some 1%nat);
   ("propertyIsEnumerable", Some 1%nat);
   ("toString", Some 0%nat);
   ("valueOf", Some 0%nat);
   ("__proto__", None);
   ("toLocaleString", Some 0%nat)].

Fixpoint assoc {A} (k : string) (l : list (string * A)) : option A :=
  match l with
  | [] => None
  | (k', a) :: rest => if String.eqb k' k then Some a else assoc k rest
  end.

(** What a plain object inherits under [key]: [Some length], or [None]. *)
Definition inherited (key : string) : option (option nat) :=
  assoc key Object_prototype.

(** What [table[key]] finds in a table of arrays: an entry of the table, a
    member of [Object.prototype] (with its [length]), or nothing. *)
Inductive found (A : Type) : Type :=
| Own (a : A)
| Inherited (length : option nat)
| Nothing.
Arguments Own {A} a.
Arguments Inherited {A} length.
Arguments Nothing {A}.

Definition table_get {A} (table : gmap string A) (key : string) : found A :=
  match table !! key with
  | Some a => Own a
  | None =>
      match inherited key with
      | Some length => Inherited length
      | None => Nothing
      end
  end.

(** The value of the member [name] of [Object.prototype]: a function of the
    host's runtime, or, under [__proto__], the prototype object itself, given
    by the functions it holds. *)
Definition inherited_value (H : host) (name : string) : value :=
  if String.eqb name "__proto__" then
    VObj false
      (omap (fun e => match snd e with
                      | Some _ => Some (fst e, VFun (env_builtin H (fst e)))
                      | None => None
                      end) Object_prototype)
  else VFun (env_builtin H name).

(** What [table[key]] reads in a table of values. *)
Definition read_table (H : host) (table : gmap string value) (key : string) : value :=
  match table !! key with
  | Some v => v
  | None =>
      match inherited key with
      | Some _ => inherited_value H key
      | None => VUndefined
      end
  end.

(* ===================================================================== *)
(** ** The monad of engine computations                                    *)
(* ===================================================================== *)

Definition M (A : Type) : Type := CogSocket -> CogSocket * list event * outcome A.

#[global] Instance M_ret : MRet M := fun A a s => (s, [], Ret a).

#[global] Instance M_bind : MBind M := fun A B k m s =>
  match m s with
  | (s1, e1, Ret a) => let '(s2, e2, r) := k a s1 in (s2, e1 ++ e2, r)
  | (s1, e1, Throw ex) => (s1, e1, Throw ex)
  end.

Definition throw {A} (ex : value) : M A := fun s => (s, [], Throw ex).

Definition lift {A} (o : outcome A) : M A := fun s => (s, [], o).

Definition emit (e : event) : M unit := fun s => (s, [e], Ret tt).

(** Runs [m] and hands back its completion instead of throwing: the body of
    a [try]. *)
Definition attempt {A} (m : M A) : M (outcome A) := fun s =>
  let '(s1, e1, r) := m s in (s1, e1, Ret r).

(** A member of [this._priv] is read: a TypeError once [_priv] is deleted. *)
Definition read_priv : M priv := fun s =>
  match _priv s with
  | Some p => (s, [], Ret p)
  | None => (s, [], Throw (TypeError "Cannot read properties of undefined"))
  end.

(** A member of [this._priv] is assigned. *)
Definition modify_priv (f : priv -> priv) : M unit := fun s =>
  match _priv s with
  | Some p => (MkCogSocket (Some (f p)) (log s), [], Ret tt)
  | None => (s, [], Throw (TypeError "Cannot set properties of undefined"))
  end.

(** [this.log], as a condition *)
Definition is_logging : M bool := fun s => (s, [], Ret (log s)).

(** [if (this.log) this.log(...)] *)
Definition log_if (l : log_entry) : M unit := fun s =>
  (s, if log s then [Logged l] else [], Ret tt).

Fixpoint for_each {A} (f : A -> M unit) (l : list A) : M unit :=
  match l with
  | [] => mret tt
  | x :: rest => f x;; for_each f rest
  end.

(* ===================================================================== *)
(** ** The engine                                                          *)
(* ===================================================================== *)

(** [new ConnectionObject(cogsock)]: one member, [hello], and frozen.  The
    freeze is shallow: the function the member holds is not frozen. *)
Definition ConnectionObject : value := VObj true [("hello", VHello)].

(** [new CogSocket(websocket, root, space)] *)
Definition new_CogSocket (root space : value) : CogSocket :=
  MkCogSocket
    (Some (MkPriv root space 0 ∅ ∅ ∅ ConnectionObject VUndefined VUndefined))
    false.

(** [CogSocket.prototype.close] *)
Definition close : M unit := fun s =>
  match _priv s with
  | Some _ => (MkCogSocket None (log s), [TransportClosed], Ret tt)
  | None => (s, [], Ret tt)
  end.

(** [listeners.splice(i, 1)] at the first [i] with [listeners[i] === listener] *)
Fixpoint remove_first (x : nat) (l : list nat) : list nat :=
  match l with
  | [] => []
  | y :: rest => if Nat.eqb y x then rest else y :: remove_first x rest
  end.

(** The result of [parsePath]: [{ obj, prop }], and where [obj] lies: in the
    connection object or under the application root, past the members
    [trail]. *)
Record parsed : Type := MkParsed {
  obj : value;
  prop : string;
  in_connection : bool;
  trail : list string
}.

Section Engine.

Context (H : host).

(** [function sendRequest(type, path, oncomplete, body)] *)
Definition sendRequest (type path : string) (oncomplete : option nat) (body : value)
  : M value :=
  rid ← match oncomplete with
        | Some cb =>
            p ← read_priv;
            let incremented := requestId p + 1 in
            let id := if incremented >? 0x7FFFFFFF then 1 else incremented in
            modify_priv (fun p =>
              set_pendingRequests
                (<[pretty id := MkPendingRequest id cb]> (pendingRequests p))
                (set_requestId id p));;
            mret (VNum id)
        | None => mret VUndefined
        end;
  _ ← read_priv;
  let message :=
    VObj false [("$type", VStr type); ("id", rid); ("path", VStr path); ("body", body)] in
  log_if (LogSend message);;
  emit (Sent (TextFrame message));;
  mret rid.

(** [CogSocket.prototype.get], [put] and [post].  ([get] also accepts its
    continuation in third place, which is the same call.) *)
Definition get (path : string) (oncomplete : option nat) : M unit :=
  sendRequest "get" path oncomplete VUndefined;; mret tt.
Definition put (path : string) (body : value) (oncomplete : option nat) : M unit :=
  sendRequest "put" path oncomplete body;; mret tt.
Definition post (path : string) (body : value) (oncomplete : option nat) : M unit :=
  sendRequest "post" path oncomplete body;; mret tt.

(** [if (oncomplete) oncomplete();] *)
Definition notify (oncomplete : option nat) : M unit :=
  match oncomplete with
  | Some cb => emit (Notified cb []);; lift (host_callback H cb []);; mret tt
  | None => mret tt
  end.

(** [CogSocket.prototype.addListener] *)
Definition addListener (path : string) (listener : nat) (oncomplete : option nat)
  : M unit :=
  p ← read_priv;
  match table_get (listeners p) path with
  | Own ls =>
      modify_priv (fun p => set_listeners (<[path := ls ++ [listener]]> (listeners p)) p);;
      notify oncomplete
  | Inherited _ =>
      (* [listeners] is a member of Object.prototype, which has no [push] *)
      throw (TypeError "listeners.push is not a function")
  | Nothing =>
      modify_priv (fun p => set_listeners (<[path := [listener]]> (listeners p)) p);;
      sendRequest "listen" path oncomplete VUndefined;;
      mret tt
  end.

(** [CogSocket.prototype.removeListener]; [listener] is [None] for
    [null]/[undefined], which removes all listeners of the path. *)
Definition removeListener (path : string) (listener : option nat)
    (oncomplete : option nat) : M unit :=
  p ← read_priv;
  match table_get (listeners p) path with
  | Own ls =>
      let ls' := match listener with
                 | Some f => remove_first f ls
                 | None => ls
                 end in
      modify_priv (fun p => set_listeners (<[path := ls']> (listeners p)) p);;
      if (negb (bool_decide (is_Some listener)) || Nat.eqb (length ls') 0)%bool then
        modify_priv (fun p => set_listeners (delete path (listeners p)) p);;
        sendRequest "unlisten" path oncomplete VUndefined;;
        mret tt
      else notify oncomplete
  | Inherited len =>
      (* [listeners] is a member of Object.prototype: none of its elements is
         the listener, and the [delete] finds no entry to remove *)
      if (negb (bool_decide (is_Some listener)) || bool_decide (len = Some 0%nat))%bool then
        sendRequest "unlisten" path oncomplete VUndefined;;
        mret tt
      else notify oncomplete
  | Nothing => notify oncomplete
  end.

(** [function sendResponse(requestId, body)] *)
Definition sendResponse (requestId body : value) : M unit :=
  if truthy requestId then
    let resp :=
      match body with
      | VError number message =>
          VObj false [("$type", VStr "resp"); ("id", requestId);
                      ("error", if truthy number then number else VNum (-1));
                      ("body", message)]
      | _ => VObj false [("$type", VStr "resp"); ("id", requestId); ("body", body)]
      end in
    _ ← read_priv;
    log_if (LogSend resp);;
    emit (Sent (TextFrame resp))
  else mret tt.

(** The head of [parsePath]: whether the path addresses the connection
    object, and the path that is left. *)
Definition path_prefix (path : value) : M (bool * value) :=
  if truthy path then
    match path with
    | VStr s =>
        if String.eqb (substr_0_2 s) "@/"
        then mret (true, VStr (substr_2 s))
        else mret (false, path)
    | _ => throw (TypeError "path.substr is not a function")
    end
  else mret (false, path).

(** [function parsePath(path)] *)
Definition parsePath (path : value) : M parsed :=
  '(conn, path) ← path_prefix path;
  p ← read_priv;
  let root := if conn : bool then connection p else root p in
  if negb (truthy root) then throw (new_Error "No root object is provided")
  else
    match path : value with
    | VStr s =>
        let parts := split "/" (strip_trailing_slash s) in
        '(o, k) ← lift (walk root parts);
        mret (MkParsed o k conn (removelast parts))
    | _ => throw (TypeError "path.replace is not a function")
    end.

(** The graph after the object [parsePath] returned has been mutated. *)
Definition store_back (pd : parsed) (newobj : value) : M unit :=
  modify_priv (fun p =>
    if in_connection pd
    then set_connection (update_at (connection p) (trail pd) newobj) p
    else set_root (update_at (root p) (trail pd) newobj) p).

(** [this.hello = function (info) { ... }] *)
Definition hello (info : value) : M value :=
  modify_priv (set_remoteInfo info);;
  p ← read_priv;
  (if truthy (localInfo p) then mret tt
   else
     modify_priv (set_localInfo (VObj false []));;
     let assign (k : string) (v : value) : M unit :=
       p ← read_priv;
       li ← lift (set_member (localInfo p) k v);
       modify_priv (set_localInfo li) in
     match env_process H with
     | None => throw (ReferenceError "process is not defined")
     | Some process =>
         if truthy process then
           platform ← lift (get_member process "platform");
           assign "model" platform;;
           match env_os_hostname H with
           | Ret name => assign "name" name
           | Throw _ => assign "name" (VStr "In-Sight?")
           end
         else
           match env_window H with
           | None => throw (ReferenceError "window is not defined")
           | Some window =>
               if truthy window then
                 assign "name" (VStr "Browser");;
                 assign "model" (VStr "Browser")
               else mret tt
           end
     end);;
  p ← read_priv;
  mret (localInfo p).

(** The closure [sender] of a listen request for [path], called with [args]. *)
Definition sender (path : string) (args : list value) : M value :=
  let newEvent :=
    match args with
    | [] => VObj false [("$type", VStr "event"); ("path", VStr path)]
    | [a] => VObj false [("$type", VStr "event"); ("path", VStr path); ("body", a)]
    | _ => VObj false [("$type", VStr "event"); ("path", VStr path); ("body", VArr args)]
    end in
  log_if (LogSend newEvent);;
  emit (Sent (TextFrame newEvent));;
  mret VUndefined.

(** A call [f.call(this, ...args)] of a value. *)
Definition call_function (f this : value) (args : list value) : M value :=
  match callee f with
  | Some (CFun id) => emit (Invoked id this args);; lift (host_method H id this args)
  | Some CHello => hello (nth 0 args VUndefined)
  | Some (CSender path) => sender path args
  | None => throw (TypeError "not a function")
  end.

(** [o.name(...args)] *)
Definition call_member (o : value) (name : string) (args : list value) : M value :=
  m ← lift (get_member o name);
  call_function m o args.

(** [method.apply(thisArg, argArray)] and [method.call(thisArg, arg)]: on a
    function, the call of it; on anything else, its own member of that
    name. *)
Definition method_apply (method thisArg : value) (argArray : list value) : M value :=
  if is_function method then call_function method thisArg argArray
  else call_member method "apply" [thisArg; VArr argArray].

Definition method_call (method thisArg arg : value) : M value :=
  if is_function method then call_function method thisArg [arg]
  else call_member method "call" [thisArg; arg].

(** What the [try] block of [socketMessage] has in hand once [requestId] is
    assigned: the message, [message.path], [message.$type] and [requestId]. *)
Record inbound : Type := MkInbound {
  in_message : value;
  in_path : value;
  in_type : value;
  in_requestId : value
}.

(** [var sorry = new Uint8Array(4); sorry[0] = 0; ... sorry[3] = 0x80;] *)
Definition sorry : list Z :=
  <[3%nat := 0x80]> (<[2%nat := 0xE0]> (<[1%nat := 0]> (<[0%nat := 0]> (replicate 4 0)))).

(** The [try] block up to the [switch].  A binary frame is answered and the
    handler returns ([None]); otherwise the message is parsed and [requestId]
    is taken from it unless it is a response. *)
Definition prelude (d : data) : M (option inbound) :=
  match d with
  | ArrayBuffer _ =>
      _ ← read_priv;
      emit (Sent (BinaryFrame sorry));;
      mret None
  | Text parsed =>
      log_if (LogGot parsed);;
      message ← lift parsed;
      path ← lift (get_member message "path");
      type ← lift (get_member message "$type");
      is_resp ← lift (loose_eq_string type "resp");
      id ← lift (get_member message "id");
      mret (Some (MkInbound message path type (if is_resp : bool then VNum 0 else id)))
  end.

(** [case "get"] *)
Definition handle_get (path requestId : value) : M unit :=
  pd ← parsePath path;
  propVal ← lift (get_member (obj pd) (prop pd));
  sendResponse requestId propVal.

(** [case "put"] *)
Definition handle_put (message path requestId : value) : M unit :=
  pd ← parsePath path;
  body ← lift (get_member message "body");
  o ← lift (set_member (obj pd) (prop pd) body);
  store_back pd o;;
  sendResponse requestId VUndefined.

(** [case "post"] *)
Definition handle_post (message path requestId : value) : M unit :=
  pd ← parsePath path;
  method ← lift (get_member (obj pd) (prop pd));
  body ← lift (get_member message "body");
  returnVal ← match body with
              | VArr elems | VFrozenArr elems => method_apply method (obj pd) elems
              | _ => method_call method (obj pd) body
              end;
  sendResponse requestId returnVal.

(** [pending.oncomplete(arg)] *)
Definition complete (pending : PendingRequest) (arg : value) : M unit :=
  emit (Notified (pr_oncomplete pending) [arg]);;
  lift (host_callback H (pr_oncomplete pending) [arg]);;
  mret tt.

(** [case "resp"].  The id is compared with the entries of the table: the
    ids [sendRequest] files are numbers, and an id that names a member of
    [Object.prototype] is outside the model. *)
Definition handle_resp (message : value) : M unit :=
  p ← read_priv;
  id ← lift (get_member message "id");
  key ← lift (to_str id);
  match pendingRequests p !! key with
  | Some pending =>
      error ← lift (get_member message "error");
      body ← lift (get_member message "body");
      (if negb (truthy error) then complete pending body
       else
         errorMessage ← lift (to_str (if truthy body then body else error));
         complete pending (VError error (VStr errorMessage)));;
      modify_priv (fun p => set_pendingRequests (delete key (pendingRequests p)) p)
  | None => log_if (LogNoPending id)
  end.

(** [case "event"] *)
Definition handle_event (message path requestId : value) : M unit :=
  body ← lift (get_member message "body");
  let eventArgs :=
    match body with
    | VUndefined => []
    | VArr elems | VFrozenArr elems => elems
    | _ => [body]
    end in
  p ← read_priv;
  key ← lift (to_str path);
  match table_get (listeners p) key with
  | Own ls =>
      for_each (fun f =>
        emit (Notified f eventArgs);; lift (host_callback H f eventArgs);; mret tt) ls
  | Inherited (Some (S _)) =>
      (* a function of Object.prototype with parameters: [listeners[0]] is
         [undefined] *)
      throw (TypeError "Cannot read properties of undefined (reading 'apply')")
  | Inherited _ => mret tt
  | Nothing => mret tt
  end;;
  if truthy requestId then sendResponse requestId VUndefined else mret tt.

(** [case "listen"] *)
Definition handle_listen (path requestId : value) : M unit :=
  p ← read_priv;
  key ← lift (to_str path);
  (if truthy (read_table H (eventSenders p) key) then mret tt
   else
     pd ← parsePath path;
     modify_priv (fun p => set_eventSenders (<[key := VSender key]> (eventSenders p)) p);;
     call_member (obj pd) "addListener" [VStr (prop pd); VSender key];;
     mret tt);;
  if truthy requestId then sendResponse requestId VUndefined else mret tt.

(** [case "unlisten"] *)
Definition handle_unlisten (path requestId : value) : M unit :=
  p ← read_priv;
  key ← lift (to_str path);
  let sender := read_table H (eventSenders p) key in
  (if truthy sender then
     pd ← parsePath path;
     call_member (obj pd) "removeListener" [VStr (prop pd); sender];;
     modify_priv (fun p => set_eventSenders (delete key (eventSenders p)) p)
   else mret tt);;
  if truthy requestId then sendResponse requestId VUndefined else mret tt.

(** [default:] *)
Definition handle_unknown (type : value) : M unit :=
  name ← lift (to_str type);
  throw (new_Error ("Request type '" +:+ name +:+ "' is not supported.")).

(** The [switch (message.$type)] *)
Definition dispatch (rq : inbound) : M unit :=
  match in_type rq with
  | VStr t =>
      if String.eqb t "get" then handle_get (in_path rq) (in_requestId rq)
      else if String.eqb t "put" then handle_put (in_message rq) (in_path rq) (in_requestId rq)
      else if String.eqb t "post" then handle_post (in_message rq) (in_path rq) (in_requestId rq)
      else if String.eqb t "resp" then handle_resp (in_message rq)
      else if String.eqb t "event" then handle_event (in_message rq) (in_path rq) (in_requestId rq)
      else if String.eqb t "listen" then handle_listen (in_path rq) (in_requestId rq)
      else if String.eqb t "unlisten" then handle_unlisten (in_path rq) (in_requestId rq)
      else handle_unknown (in_type rq)
  | _ => handle_unknown (in_type rq)
  end.

(** The [catch (ex)] block, entered with the value [requestId] has then.
    The log line is made by appending [ex] to a string, which converts it. *)
Definition on_exception (requestId ex : value) : M unit :=
  logging ← is_logging;
  (if logging : bool
   then lift (to_str ex);; emit (Logged (LogException ex))
   else mret tt);;
  lift (get_member ex "stack");;
  emit (ConsoleLogStack ex);;
  if truthy requestId then sendResponse requestId ex else mret tt.

(** [function socketMessage(event)], on [event.data] *)
Definition socketMessage (d : data) : M unit :=
  log_if LogOnMessage;;
  r ← attempt (prelude d);
  match r with
  | Throw ex => on_exception (VNum 0) ex
  | Ret None => mret tt
  | Ret (Some rq) =>
      r ← attempt (dispatch rq);
      match r with
      | Throw ex => on_exception (in_requestId rq) ex
      | Ret _ => mret tt
      end
  end.

End Engine.

(* ===================================================================== *)
(** ** Vocabulary of the properties                                        *)
(* ===================================================================== *)

(** The value [message] has the members of a protocol message. *)
Definition is_message (message type id path body : value) : Prop :=
  get_member message "$type" = Ret type /\
  get_member message "id" = Ret id /\
  get_member message "path" = Ret path /\
  get_member message "body" = Ret body.

(** What [parsePath] makes of a path on the engine [s]. *)
Definition resolve (s : CogSocket) (path : value) : outcome parsed :=
  snd (parsePath path s).

(** The path does not lead to an object that could hold the leaf member:
    [parsePath] throws (no root, a member on the way is missing, the path is
    no string), or the object it reaches is [undefined] or [null]. *)
Definition unresolved (s : CogSocket) (path : value) : Prop :=
  match resolve s path with
  | Throw _ => True
  | Ret pd => obj pd = VUndefined \/ obj pd = VNull
  end.



(** The request [sendRequest] writes, and the two responses [sendResponse]
    writes. *)
Definition request (type : string) (id : value) (path : string) (body : value) : value :=
  VObj false [("$type", VStr type); ("id", id); ("path", VStr path); ("body", body)].

Definition response (id body : value) : value :=
  VObj false [("$type", VStr "resp"); ("id", id); ("body", body)].

Definition error_response (id code message : value) : value :=
  VObj false [("$type", VStr "resp"); ("id", id); ("error", code); ("body", message)].

(** The log lines of a trace exist only where a log function is installed. *)
Definition log_events (s : CogSocket) (ls : list log_entry) : list event :=
  if log s then map Logged ls else [].

(** The events of one request going out. *)
Definition request_events (s : CogSocket) (message : value) : list event :=
  log_events s [LogSend message] ++ [Sent (TextFrame message)].

(** The frames a trace hands to the transport, in order. *)
Definition sent_frames (tr : list event) : list frame :=
  omap (fun e => match e with Sent f => Some f | _ => None end) tr.

(** The function members a trace calls, in order. *)
Definition invocations (tr : list event) : list (nat * value * list value) :=
  omap (fun e => match e with Invoked f this args => Some (f, this, args) | _ => None end) tr.

Definition is_log_event (e : event) : bool :=
  match e with
  | Logged _ | ConsoleLogStack _ => true
  | _ => false
  end.

(** A frame is a response addressed to [id]; it carries an error code. *)
Definition addressed_to (id : value) (f : frame) : Prop :=
  match f with
  | TextFrame (VObj _ props) =>
      lookup_prop "$type" props = VStr "resp" /\ lookup_prop "id" props = id
  | _ => False
  end.

Definition carries_error (f : frame) : bool :=
  match f with
  | TextFrame (VObj _ props) => truthy (lookup_prop "error" props)
  | _ => false
  end.

(** Handling the frame [d] sends an error response addressed to [id]. *)
Definition answers_with_error (H : host) (s : CogSocket) (d : data) (id : value) : Prop :=
  exists f, In f (sent_frames (snd (fst (socketMessage H d s)))) /\
            addressed_to id f /\ carries_error f = true.

(** The requests of kind [type] for [path] among the frames of a trace. *)
Definition is_request_for (type path : string) (f : frame) : bool :=
  match f with
  | TextFrame (VObj _ props) =>
      match lookup_prop "$type" props, lookup_prop "path" props with
      | VStr t, VStr p => (String.eqb t type && String.eqb p path)%bool
      | _, _ => false
      end
  | _ => false
  end.

Definition count_requests (type path : string) (tr : list event) : nat :=
  length (filter (fun f => is_request_for type path f = true) (sent_frames tr)).

(** The correlation ids a trace allocates: the numeric [id] of every frame
    sent that is not a response. *)
Definition request_id (e : event) : option Z :=
  match e with
  | Sent (TextFrame (VObj _ props)) =>
      match lookup_prop "$type" props, lookup_prop "id" props with
      | VStr t, VNum n => if String.eqb t "resp" then None else Some n
      | _, _ => None
      end
  | _ => None
  end.

Definition request_ids (tr : list event) : list Z := omap request_id tr.

(** [id] is the correlation id allocated after [prev] (0 before the first). *)
Definition follows (prev id : Z) : Prop :=
  1 <= id <= 0x7FFFFFFF /\
  (prev < 0x7FFFFFFF -> id = prev + 1 /\ prev < id) /\
  (prev = 0x7FFFFFFF -> id = 1).

Fixpoint ids_chain (prev : Z) (ids : list Z) : Prop :=
  match ids with
  | [] => True
  | id :: rest => follows prev id /\ ids_chain id rest
  end.

(** The engine, while it is open, has the counter of correlation ids at
    [r]. *)
Definition Inv (r : Z) (s : CogSocket) : Prop :=
  match _priv s with
  | Some p => requestId p = r
  | None => True
  end.

(** A computation that neither touches the counter nor sends a request with
    an id. *)
Definition tame {A} (m : M A) : Prop :=
  forall r s, Inv r s ->
    Inv r (fst (fst (m s))) /\ request_ids (snd (fst (m s))) = [].

(** The result of a computation that allocates at most one correlation id. *)
Definition step_ok {A} (r : Z) (res : CogSocket * list event * outcome A) : Prop :=
  (request_ids (snd (fst res)) = [] /\ Inv r (fst (fst res))) \/
  (exists id, request_ids (snd (fst res)) = [id] /\ follows r id /\
              Inv id (fst (fst res))).

(** The argument list the specification gives a post: the elements of a
    sequence body, or the body as the one argument. *)
Definition positional_arguments (body : value) : list value :=
  match body with
  | VArr elems | VFrozenArr elems => elems
  | _ => [body]
  end.

(** [n] times the same call. *)
Fixpoint repeat_call (n : nat) (m : M unit) : M unit :=
  match n with
  | O => mret tt
  | S n' => m;; repeat_call n' m
  end.

(** What can happen to an engine: the calls of its public interface, the
    assignment of its [log] member, and the arrival of a frame. *)
Inductive op : Type :=
| OpGet (path : string) (oncomplete : option nat)
| OpPut (path : string) (body : value) (oncomplete : option nat)
| OpPost (path : string) (body : value) (oncomplete : option nat)
| OpAddListener (path : string) (listener : nat) (oncomplete : option nat)
| OpRemoveListener (path : string) (listener : option nat) (oncomplete : option nat)
| OpClose
| OpSetLog (installed : bool)
| OpMessage (d : data).

Definition run_op (H : host) (o : op) : M unit :=
  match o with
  | OpGet path oc => get path oc
  | OpPut path body oc => put path body oc
  | OpPost path body oc => post path body oc
  | OpAddListener path l oc => addListener H path l oc
  | OpRemoveListener path l oc => removeListener H path l oc
  | OpClose => close
  | OpSetLog b => fun s => (MkCogSocket (_priv s) b, [], Ret tt)
  | OpMessage d => socketMessage H d
  end.

(** A history of the engine; a call that throws leaves the engine to its
    caller, who may go on using it. *)
Fixpoint run_ops (H : host) (ops : list op) (s : CogSocket) : CogSocket * list event :=
  match ops with
  | [] => (s, [])
  | o :: rest =>
      let '(s1, tr1, _) := run_op H o s in
      let '(s2, tr2) := run_ops H rest s1 in
      (s2, tr1 ++ tr2)
  end.

(* ===================================================================== *)
(** ** Concrete hosts and object graphs for the examples                   *)
(* ===================================================================== *)

(** A host whose function 0 returns its argument list, whose function 1
    throws the string ["bad"] and whose function 2 throws [null]. *)
Definition example_host : host :=
  MkHost
    (fun f _ args =>
       match f with
       | O => Ret (VArr args)
       | S O => Throw (VStr "bad")
       | _ => Throw VNull
       end)
    (fun _ _ => Ret VUndefined)
    (Some (VObj false [("platform", VStr "linux")]))
    (Throw VUndefined)
    None
    (fun _ => 9%nat).

Definition example_root : value :=
  VObj false
    [("state", VStr "Idle");
     ("mode", VBool false);
     ("a", VObj false
             [("b", VObj false [("op", VFun 0); ("bad", VFun 1); ("worse", VFun 2)])])].

Definition example_engine : CogSocket := new_CogSocket example_root (VNum 2).

(** The engine of the example while its request 1 waits for a response. *)
Definition example_pending_engine : CogSocket :=
  MkCogSocket
    (Some (MkPriv example_root (VNum 2) 1 {["1" := MkPendingRequest 1 5]} ∅ ∅
             ConnectionObject VUndefined VUndefined))
    false.

Definition example_message (type : string) (id : value) (path : string) (body : value)
  : data :=
  Text (Ret (request type id path body)).

(* ===================================================================== *)
(** ** Vocabulary of the further properties                                *)
(* ===================================================================== *)

(** What the handling of an inbound frame keeps of the private state: the
    counter of correlation ids, the local listeners and the indentation; and
    it adds no pending request. *)
Definition frame_kept (p p' : priv) : Prop :=
  requestId p' = requestId p /\
  listeners p' = listeners p /\
  space p' = space p /\
  pendingRequests p' ⊆ pendingRequests p.

Definition engine_kept (s s' : CogSocket) : Prop :=
  log s' = log s /\
  match _priv s, _priv s' with
  | Some p, Some p' => frame_kept p p'
  | None, None => True
  | _, _ => False
  end.

(** What the handling of an inbound frame may do to the world: write log
    lines, call host functions, and send responses, events and the four
    bytes that answer a binary frame. *)
Definition reply_event (e : event) : Prop :=
  match e with
  | Sent (TextFrame (VObj _ props)) =>
      lookup_prop "$type" props = VStr "resp" \/
      lookup_prop "$type" props = VStr "event"
  | Sent (TextFrame _) => False
  | Sent (BinaryFrame bytes) => bytes = [0x00; 0x00; 0xE0; 0x80]
  | TransportClosed => False
  | _ => True
  end.

Definition replies_only {A} (m : M A) : Prop :=
  forall s, engine_kept s (fst (fst (m s))) /\ Forall reply_event (snd (fst (m s))).

(** The continuations and listeners a trace calls, in order. *)
Definition notifications (tr : list event) : list (nat * list value) :=
  omap (fun e => match e with Notified f args => Some (f, args) | _ => None end) tr.


(** The path has a registration of local listeners: 1 if so, else 0. *)
Definition registered (p : priv) (path : string) : nat :=
  if listeners p !! path is Some _ then 1%nat else 0%nat.


(** The shape of a step of a history, for the subscriptions of a path [q]:
    a closed engine stays closed and sends nothing; on an open one the listen
    and unlisten requests sent account for the change of the registration. *)
Definition subscription_step (q : string) (s s' : CogSocket) (tr : list event) : Prop :=
  let cl := count_requests "listen" q tr in
  let cu := count_requests "unlisten" q tr in
  match _priv s with
  | None => _priv s' = None /\ cl = 0%nat /\ cu = 0%nat
  | Some p =>
      match _priv s' with
      | Some p' => (registered p q + cl = cu + registered p' q)%nat
      | None => cl = 0%nat /\ cu = 0%nat
      end
  end.


(** The pending requests are in order: the counter is in range and every
    entry is filed under the decimal form of its own id, which is between 1
    and 0x7FFFFFFF. *)
Definition pending_ok (p : priv) : Prop :=
  0 <= requestId p <= 0x7FFFFFFF /\
  forall key pr, pendingRequests p !! key = Some pr ->
    key = pretty (pr_requestId pr) /\ 1 <= pr_requestId pr <= 0x7FFFFFFF.

(** What the continuation of a request is called with when its response
    arrives with the members [error] and [body]: the body, or, when [error]
    is set, an Error object with that number whose message is the text of
    the body if there is one and the text of the error code otherwise. *)
Definition completion_argument (error body : value) : outcome value :=
  if truthy error then
    outcome_bind (to_str (if truthy body then body else error))
      (fun text => Ret (VError error (VStr text)))
  else Ret body.


(** The arguments the listeners of an event are called with: none when the
    event has no body, the elements of a sequence body, else the body. *)
Definition event_arguments (body : value) : list value :=
  match body with
  | VUndefined => []
  | VArr elems | VFrozenArr elems => elems
  | _ => [body]
  end.

(** The event a sender writes for [path] when it is called with [args]. *)
Definition event_message (path : string) (args : list value) : value :=
  match args with
  | [] => VObj false [("$type", VStr "event"); ("path", VStr path)]
  | [a] => VObj false [("$type", VStr "event"); ("path", VStr path); ("body", a)]
  | _ => VObj false [("$type", VStr "event"); ("path", VStr path); ("body", VArr args)]
  end.

(** The message kinds the [switch] of [socketMessage] has a case for. *)
Definition known_kinds : list string :=
  ["get"; "put"; "post"; "resp"; "event"; "listen"; "unlisten"].

(** A second host for the examples: every function member returns
    [undefined], the continuation 5 throws an Error object, and neither
    [process] nor [window] is defined. *)
Definition example_host2 : host :=
  MkHost
    (fun _ _ _ => Ret VUndefined)
    (fun f _ =>
       match f with
       | 5%nat => Throw (VError VUndefined (VStr "oops"))
       | _ => Ret VUndefined
       end)
    None
    (Throw VUndefined)
    None
    (fun _ => 9%nat).

(** An object graph with an event source. *)
Definition example_root2 : value :=
  VObj false
    [("sensor", VObj false [("addListener", VFun 3); ("removeListener", VFun 4)]);
     ("plain", VObj false [("x", VNum 1)])].

Definition example_engine2 : CogSocket := new_CogSocket example_root2 VUndefined.

(** The engine has been closed: [close] has deleted [_priv]. *)
Definition closed (s : CogSocket) : Prop := _priv s = None.

(** A trace of log lines only: nothing is sent, no function member,
    continuation or listener is called, and the transport is not closed. *)
Definition quiet (tr : list event) : Prop :=
  Forall (fun e => is_log_event e = true) tr.

(** On a closed engine the computation does nothing but log, and leaves the
    engine as it is; it does so and throws. *)
Definition closed_quiet {A} (m : M A) : Prop :=
  forall s, closed s -> fst (fst (m s)) = s /\ quiet (snd (fst (m s))).

Definition closed_fails {A} (m : M A) : Prop :=
  forall s, closed s ->
    fst (fst (m s)) = s /\ quiet (snd (fst (m s))) /\ exists ex, snd (m s) = Throw ex.

(** The calls of the public interface that send something. *)
Definition is_call (o : op) : bool :=
  match o with
  | OpClose | OpSetLog _ | OpMessage _ => false
  | _ => true
  end.

(** The string ends in a slash. *)
Fixpoint ends_in_slash (s : string) : bool :=
  match s with
  | EmptyString => false
  | String c EmptyString => Ascii.eqb c "/"%char
  | String _ rest => ends_in_slash rest
  end.

(** What becomes of the continuation [cb] of a call that may send a request
    of kind [type] for [path]: it is filed as a pending request under the id
    of the one request the call sends, and not called; or nothing is sent,
    nothing is filed and it is called once, at once, without arguments. *)
Definition filed (cb : nat) (type path : string) (s' : CogSocket) (tr : list event)
  : Prop :=
  exists id p',
    _priv s' = Some p' /\
    sent_frames tr = [TextFrame (request type (VNum id) path VUndefined)] /\
    pendingRequests p' !! pretty id = Some (MkPendingRequest id cb) /\
    notifications tr = [].

Definition called_at_once (cb : nat) (p : priv) (s' : CogSocket) (tr : list event)
  : Prop :=
  exists p',
    _priv s' = Some p' /\
    pendingRequests p' = pendingRequests p /\
    sent_frames tr = [] /\
    notifications tr = [(cb, [])].

(* ===================================================================== *)
(** ** The inspection script: [writeResults]                               *)
(* ===================================================================== *)

(** What [writeResults] does to the world: lines on the console and queries
    handed to the connection pool. *)
Inductive effect : Type :=
| ConsoleLog (args : list value)                  (* console.log(...) *)
| ConsoleError (args : list value)                (* console.error(...) *)
| PoolQuery (text : string) (values : list value). (* pool.query(text, values) *)

Definition newline : string := String "010"%char EmptyString.

(** The template literal [insertQuery] of src/avs_cognex.js, with its line
    breaks and indentation. *)
Definition insertQuery : string :=
  "INSERT INTO airfoil_pose " +:+ newline +:+
  "                        (part_id, camera_view, gripper_x, gripper_y, gripper_r, part_x, part_y, part_r) "
  +:+ newline +:+
  "                        VALUES ($1, $2, $3, $4, $5, $6, $7, $8)".

(** [v === ''] *)
Definition is_empty_string (v : value) : bool :=
  match v with
  | VStr s => String.eqb s EmptyString
  | _ => false
  end.

(** [cell => { indexedCells[cell.location] = cell.data; }], on the properties
    of the plain object [indexedCells].  The key [__proto__] would replace
    the prototype of [indexedCells]: the model stops there ([None]). *)
Definition index_cell (indexedCells : list (string * value)) (cell : value)
  : option (outcome (list (string * value))) :=
  match get_member cell "location" with
  | Throw ex => Some (Throw ex)
  | Ret location =>
      match to_str location with
      | Throw ex => Some (Throw ex)
      | Ret key =>
          match get_member cell "data" with
          | Throw ex => Some (Throw ex)
          | Ret d =>
              if String.eqb key "__proto__" then None
              else Some (Ret (store_prop key d indexedCells))
          end
      end
  end.

(** [cells.forEach(cell => ...)] on the elements of an array. *)
Fixpoint index_cells (indexedCells : list (string * value)) (cells : list value)
  : option (outcome (list (string * value))) :=
  match cells with
  | [] => Some (Ret indexedCells)
  | cell :: rest =>
      match index_cell indexedCells cell with
      | Some (Ret indexedCells') => index_cells indexedCells' rest
      | other => other
      end
  end.

(** [const indexedCells = {}; hmiResult.cells.forEach(...)].  A value that is
    no array has no [forEach] unless it holds one of its own, which the model
    cannot run ([None]); the result of an inspection is parsed from JSON and
    holds no function. *)
Definition cells_forEach (cells : value) : option (outcome (list (string * value))) :=
  match cells with
  | VArr elems | VFrozenArr elems => index_cells [] elems
  | _ =>
      match get_member cells "forEach" with
      | Throw ex => Some (Throw ex)
      | Ret member =>
          if is_function member then None
          else Some (Throw (TypeError "hmiResult.cells.forEach is not a function"))
      end
  end.

Section Script.

(** [pool.query(text, values)], awaited: the result, or the rejection. *)
Context (pool_query : string -> list value -> outcome value).

(** The [try] block of [writeResults]: what it does, and how it ends. *)
Definition writeResults_try (hmiResult : value) : option (list effect * outcome unit) :=
  match get_member hmiResult "cells" with
  | Throw ex => Some ([], Throw ex)
  | Ret cells =>
      match cells_forEach cells with
      | None => None
      | Some (Throw ex) => Some ([], Throw ex)
      | Some (Ret indexedCells) =>
          match outcome_bind (get_member hmiResult "acqImageView")
                  (fun view => get_member view "id") with
          | Throw ex => Some ([], Throw ex)
          | Ret part_id =>
              let camera_view := lookup_prop "C6" indexedCells in
              let gripper_x := lookup_prop "D6" indexedCells in
              let gripper_y := lookup_prop "E6" indexedCells in
              let gripper_r := lookup_prop "F6" indexedCells in
              let part_x := lookup_prop "G6" indexedCells in
              let part_y := lookup_prop "H6" indexedCells in
              let part_r := lookup_prop "I6" indexedCells in
              let dataToInsert :=
                VObj false
                  [("part_id", part_id); ("camera_view", camera_view);
                   ("gripper_x", gripper_x); ("gripper_y", gripper_y);
                   ("gripper_r", gripper_r); ("part_x", part_x);
                   ("part_y", part_y); ("part_r", part_r)] in
              if (is_empty_string gripper_x || is_empty_string part_x)%bool then
                Some ([ConsoleLog [VStr "Empty results. Not posting to database"]],
                      Ret tt)
              else
                let values := [part_id; camera_view; gripper_x; gripper_y; gripper_r;
                               part_x; part_y; part_r] in
                match pool_query insertQuery values with
                | Ret result =>
                    Some ([ConsoleLog [dataToInsert]; PoolQuery insertQuery values;
                           ConsoleLog [VStr "Data inserted successfully:"; result]],
                          Ret tt)
                | Throw error =>
                    Some ([ConsoleLog [dataToInsert]; PoolQuery insertQuery values],
                          Throw error)
                end
          end
      end
  end.

(** [async function writeResults(hmiResult)] of src/avs_cognex.js: the
    [try] block and its [catch]. *)
Definition writeResults (hmiResult : value) : option (list effect) :=
  match writeResults_try hmiResult with
  | None => None
  | Some (effs, Ret _) => Some effs
  | Some (effs, Throw error) =>
      Some (effs ++ [ConsoleError [VStr "Error inserting data:"; error]])
  end.

End Script.

(** The older copy of the script, src/unnamed/part_000. *)
Module part_000.

(** [cell => { indexedCells[cell.location] = cell; }] *)
Definition index_cell (indexedCells : list (string * value)) (cell : value)
  : option (outcome (list (string * value))) :=
  match get_member cell "location" with
  | Throw ex => Some (Throw ex)
  | Ret location =>
      match to_str location with
      | Throw ex => Some (Throw ex)
      | Ret key =>
          if String.eqb key "__proto__" then None
          else Some (Ret (store_prop key cell indexedCells))
      end
  end.

Fixpoint index_cells (indexedCells : list (string * value)) (cells : list value)
  : option (outcome (list (string * value))) :=
  match cells with
  | [] => Some (Ret indexedCells)
  | cell :: rest =>
      match index_cell indexedCells cell with
      | Some (Ret indexedCells') => index_cells indexedCells' rest
      | other => other
      end
  end.

Definition cells_forEach (cells : value) : option (outcome (list (string * value))) :=
  match cells with
  | VArr elems | VFrozenArr elems => index_cells [] elems
  | _ =>
      match get_member cells "forEach" with
      | Throw ex => Some (Throw ex)
      | Ret member =>
          if is_function member then None
          else Some (Throw (TypeError "result1.cells.forEach is not a function"))
      end
  end.

(** The identifier [result] where [part_id] is computed: it is the [const
    result] declared further down in the same block, which is not
    initialized yet. *)
Definition result_before_initialization : outcome value :=
  Throw (ReferenceError "Cannot access 'result' before initialization").

(** [indexedCells[k].data] *)
Definition cell_data_at (k : string) (indexedCells : list (string * value))
  : outcome value :=
  get_member (lookup_prop k indexedCells) "data".

Section Script.

Context (pool_query : string -> list value -> outcome value).

Definition writeResults_try (result1 : value) : option (list effect * outcome unit) :=
  match get_member result1 "cells" with
  | Throw ex => Some ([], Throw ex)
  | Ret cells =>
      match cells_forEach cells with
      | None => None
      | Some (Throw ex) => Some ([], Throw ex)
      | Some (Ret indexedCells) =>
          Some
            match
              outcome_bind result_before_initialization (fun result =>
              outcome_bind (get_member result "acqImageView") (fun view =>
              outcome_bind (get_member view "id") (fun part_id =>
              outcome_bind (cell_data_at "C6" indexedCells) (fun camera_view =>
              outcome_bind (cell_data_at "D6" indexedCells) (fun gripper_x =>
              outcome_bind (cell_data_at "E6" indexedCells) (fun gripper_y =>
              outcome_bind (cell_data_at "F6" indexedCells) (fun gripper_r =>
              outcome_bind (cell_data_at "G6" indexedCells) (fun part_x =>
              outcome_bind (cell_data_at "H6" indexedCells) (fun part_y =>
              outcome_bind (cell_data_at "I6" indexedCells) (fun part_r =>
                Ret [part_id; camera_view; gripper_x; gripper_y; gripper_r;
                     part_x; part_y; part_r]))))))))))
            with
            | Throw ex => ([], Throw ex)
            | Ret values =>
                let dataToInsert :=
                  VObj false
                    (zip ["part_id"; "camera_view"; "gripper_x"; "gripper_y";
                          "gripper_r"; "part_x"; "part_y"; "part_r"] values) in
                if is_empty_string (nth 2 values VUndefined) then
                  ([ConsoleLog [VStr "Empty results. Not posting to database"]], Ret tt)
                else
                  match pool_query insertQuery values with
                  | Ret result =>
                      ([ConsoleLog [dataToInsert]; PoolQuery insertQuery values;
                        ConsoleLog [VStr "Data inserted successfully:"; result]],
                       Ret tt)
                  | Throw error =>
                      ([ConsoleLog [dataToInsert]; PoolQuery insertQuery values],
                       Throw error)
                  end
            end
      end
  end.

(** [async function writeResults(result1)] of src/unnamed/part_000 *)
Definition writeResults (result1 : value) : option (list effect) :=
  match writeResults_try result1 with
  | None => None
  | Some (effs, Ret _) => Some effs
  | Some (effs, Throw error) =>
      Some (effs ++ [ConsoleError [VStr "Error inserting data:"; error]])
  end.

End Script.

End part_000.

(** The cell [c] has the location [l] (as a property key) and the data [d]. *)
Definition cell_at (c : value) (ld : string * value) : Prop :=
  exists location,
    get_member c "location" = Ret location /\
    to_str location = Ret (fst ld) /\
    get_member c "data" = Ret (snd ld).

(** The data of the last cell at the location [k], [undefined] if there is
    none. *)
Definition cell_data (k : string) (cells : list (string * value)) : value :=
  match last (filter (fun ld => fst ld = k) cells) with
  | Some ld => snd ld
  | None => VUndefined
  end.

(** The queries among the effects. *)
Definition queries (effs : list effect) : list (string * list value) :=
  omap (fun e => match e with PoolQuery t v => Some (t, v) | _ => None end) effs.

(** A result of an inspection, as the camera reports it. *)
Definition example_result : value :=
  VObj false
    [("acqImageView", VObj false [("id", VNum 42)]);
     ("cells",
      VArr [VObj false [("location", VStr "C6"); ("data", VNum 1)];
            VObj false [("location", VStr "D6"); ("data", VStr "")];
            VObj false [("location", VStr "G6"); ("data", VNum 7)];
            VObj false [("location", VStr "D6"); ("data", VNum 3)];
            VObj false [("location", VStr "A0"); ("data", VStr "Pass")]])].

(** The row of the table [airfoil_pose] for a result with the id [part_id]
    and the cells [cells], in the order of the columns of [insertQuery]. *)
Definition pose_row (part_id : value) (cells : list (string * value)) : list value :=
  [part_id; cell_data "C6" cells; cell_data "D6" cells; cell_data "E6" cells;
   cell_data "F6" cells; cell_data "G6" cells; cell_data "H6" cells;
   cell_data "I6" cells].

(** The inbound frames that write to the object graph or call into it: put
    and post.  Through the members [__proto__] and [constructor] that every
    object inherits, such a frame can reach [Object.prototype], from which
    the tables of the engine inherit; the object graph of the model, a tree
    of own properties, does not follow it there. *)
Definition remote_write (o : op) : bool :=
  match o with
  | OpMessage (Text (Ret message)) =>
      match get_member message "$type" with
      | Ret (VStr t) => (String.eqb t "put" || String.eqb t "post")%bool
      | _ => false
      end
  | _ => false
  end.

(* ===================================================================== *)
(** ** Evaluating engine computations                                      *)
(* ===================================================================== *)

Ltac unfold_M :=
  unfold mbind, M_bind, mret, M_ret, lift, throw, emit, attempt, log_if,
    is_logging, read_priv, modify_priv in *.

Lemma bind_eq {A B} (m : M A) (k : A -> M B) (s : CogSocket) :
  (m ≫= k) s =
  match m s with
  | (s1, e1, Ret a) => let '(s2, e2, r) := k a s1 in (s2, e1 ++ e2, r)
  | (s1, e1, Throw ex) => (s1, e1, Throw ex)
  end.
Proof. reflexivity. Qed.

Lemma bind_ret_eq {A B} (m : M A) (k : A -> M B) s s1 e1 a :
  m s = (s1, e1, Ret a) ->
  (m ≫= k) s = let '(s2, e2, r) := k a s1 in (s2, e1 ++ e2, r).
Proof. intros Hm. rewrite bind_eq, Hm. reflexivity. Qed.

Lemma bind_throw_eq {A B} (m : M A) (k : A -> M B) s s1 e1 ex :
  m s = (s1, e1, Throw ex) ->
  (m ≫= k) s = (s1, e1, Throw ex).
Proof. intros Hm. rewrite bind_eq, Hm. reflexivity. Qed.

(** Reading a table at a key that has an entry, and at a key that has none
    and names no member of [Object.prototype]. *)
Lemma table_get_own {A} (table : gmap string A) key a :
  table !! key = Some a -> table_get table key = Own a.
Proof. intros Hk. unfold table_get. rewrite Hk. reflexivity. Qed.

Lemma table_get_nothing {A} (table : gmap string A) key :
  table !! key = None -> inherited key = None -> table_get table key = Nothing.
Proof. intros Hk Hi. unfold table_get. rewrite Hk, Hi. reflexivity. Qed.

Lemma table_get_inherited {A} (table : gmap string A) key len :
  table !! key = None -> inherited key = Some len -> table_get table key = Inherited len.
Proof. intros Hk Hi. unfold table_get. rewrite Hk, Hi. reflexivity. Qed.

Lemma read_table_own H table key v :
  table !! key = Some v -> read_table H table key = v.
Proof. intros Hk. unfold read_table. rewrite Hk. reflexivity. Qed.

Lemma read_table_nothing H table key :
  table !! key = None -> inherited key = None -> read_table H table key = VUndefined.
Proof. intros Hk Hi. unfold read_table. rewrite Hk, Hi. reflexivity. Qed.

Lemma inherited_value_truthy H name : truthy (inherited_value H name) = true.
Proof. unfold inherited_value. destruct (String.eqb name "__proto__"); reflexivity. Qed.

Lemma read_table_inherited H table key len :
  table !! key = None -> inherited key = Some len ->
  read_table H table key = inherited_value H key.
Proof. intros Hk Hi. unfold read_table. rewrite Hk, Hi. reflexivity. Qed.

(** An induction principle for values that reaches into arrays and objects. *)
Lemma value_ind_deep (P : value -> Prop) :
  P VUndefined -> P VNull -> (forall b, P (VBool b)) -> (forall n, P (VNum n)) ->
  (forall s, P (VStr s)) ->
  (forall l, Forall P l -> P (VArr l)) ->
  (forall fr props, Forall (fun kv => P (snd kv)) props -> P (VObj fr props)) ->
  (forall n m, P n -> P m -> P (VError n m)) ->
  (forall f, P (VFun f)) -> P VHello -> (forall p, P (VSender p)) ->
  (forall l, Forall P l -> P (VFrozenArr l)) ->
  (forall fn members, Forall (fun kv => P (snd kv)) members -> P (VWith fn members)) ->
  forall v, P v.
Proof.
  intros HU HN HB HZ HS HA HO HE HF HH HP HFA HW.
  fix IH 1. intros [ | | b | n | s | l | fr props | n m | f | | p | l | fn members ].
  - exact HU.
  - exact HN.
  - apply HB.
  - apply HZ.
  - apply HS.
  - apply HA. induction l as [|x l IHl]; constructor; [apply IH | exact IHl].
  - apply HO. induction props as [|[k x] props IHp]; constructor; [apply IH | exact IHp].
  - apply HE; apply IH.
  - apply HF.
  - exact HH.
  - apply HP.
  - apply HFA. induction l as [|x l IHl]; constructor; [apply IH | exact IHl].
  - apply HW. induction members as [|[k x] members IHp]; constructor;
      [apply IH | exact IHp].
Qed.

Lemma join_outcomes_throw l ex :
  join_outcomes l = Throw ex -> In (Throw ex) l.
Proof.
  induction l as [|x l IH]; cbn; [discriminate|].
  destruct x as [sx|e]; cbn.
  - destruct l as [|y l']; [discriminate|].
    destruct (join_outcomes (y :: l')) as [r|e]; cbn; [discriminate|].
    intros Hj; inversion Hj; subst. right. apply IH. reflexivity.
  - intros Hj; inversion Hj; subst. left. reflexivity.
Qed.

(** The only failure of a conversion to string is a TypeError. *)
Lemma to_str_throw v ex :
  to_str v = Throw ex -> exists msg, ex = TypeError msg.
Proof.
  revert ex.
  induction v as [ | | b | n | s | l IHl | fr props _ | n m _ IHm | f | | p
                 | l IHl | fn members _ ]
    using value_ind_deep; intros ex; cbn; try discriminate.
  - destruct b; discriminate.
  - intros Hj. apply join_outcomes_throw in Hj.
    apply in_map_iff in Hj as (x & Hx & Hin).
    rewrite Forall_forall in IHl.
    destruct x; try discriminate; eapply IHl; eauto; apply list_elem_of_In; exact Hin.
  - destruct (has_prop "toString" props); [|discriminate].
    intros Hj; inversion Hj. eexists; reflexivity.
  - destruct (match m with VUndefined => Ret EmptyString | _ => to_str m end)
      as [sx|e] eqn:Ex; cbn; [discriminate|].
    intros Hj; inversion Hj; subst.
    destruct m; try discriminate; apply IHm; exact Ex.
  - intros Hj. apply join_outcomes_throw in Hj.
    apply in_map_iff in Hj as (x & Hx & Hin).
    rewrite Forall_forall in IHl.
    destruct x; try discriminate; eapply IHl; eauto; apply list_elem_of_In; exact Hin.
Qed.

Lemma to_str_TypeError msg : exists x, to_str (TypeError msg) = Ret x.
Proof. cbn. eexists; reflexivity. Qed.

(** [sendResponse] on an open engine, for an id that is there. *)
Lemma sendResponse_open s p id body :
  _priv s = Some p -> truthy id = true ->
  sendResponse id body s =
    (s,
     request_events s
       (match body with
        | VError n m => error_response id (if truthy n then n else VNum (-1)) m
        | _ => response id body
        end),
     Ret tt).
Proof.
  intros Hp Hid. destruct s as [pv lg]; cbn in Hp; subst pv.
  unfold sendResponse. rewrite Hid. unfold_M.
  destruct lg, body; reflexivity.
Qed.

Lemma sendResponse_no_id s id body :
  truthy id = false -> sendResponse id body s = (s, [], Ret tt).
Proof. intros Hid. unfold sendResponse. rewrite Hid. reflexivity. Qed.

(** The [catch] block, for an exception that is an object or a primitive
    other than [undefined] and [null], and that converts to a string. *)
Lemma on_exception_eq s rid ex x :
  to_str ex = Ret x -> ex <> VUndefined -> ex <> VNull ->
  on_exception rid ex s =
    let '(s2, tr, r) := (if truthy rid then sendResponse rid ex else mret tt) s in
    (s2, log_events s [LogException ex] ++ ConsoleLogStack ex :: tr, r).
Proof.
  intros Hx Hu Hn. unfold on_exception. unfold_M. rewrite Hx.
  assert (Hst : exists v, get_member ex "stack" = Ret v).
  { destruct ex; try congruence; cbn; eexists; reflexivity. }
  destruct Hst as [v Hst]. rewrite Hst. unfold log_events.
  destruct (log s); cbn;
    destruct ((if truthy rid then sendResponse rid ex else _) s) as [[s2 tr] r];
    reflexivity.
Qed.

(** An Error object thrown while a request with an id is handled goes back
    as an error response. *)
Lemma on_exception_Error s p rid n msg :
  _priv s = Some p -> truthy rid = true ->
  on_exception rid (VError n (VStr msg)) s =
    (s,
     log_events s [LogException (VError n (VStr msg))]
       ++ ConsoleLogStack (VError n (VStr msg))
       :: request_events s (error_response rid (if truthy n then n else VNum (-1)) (VStr msg)),
     Ret tt).
Proof.
  intros Hp Hid.
  erewrite on_exception_eq; [|cbn; reflexivity|discriminate|discriminate].
  rewrite Hid. erewrite sendResponse_open by eauto. reflexivity.
Qed.

Lemma on_exception_Error_no_id s rid n msg :
  truthy rid = false ->
  on_exception rid (VError n (VStr msg)) s =
    (s,
     log_events s [LogException (VError n (VStr msg))]
       ++ [ConsoleLogStack (VError n (VStr msg))],
     Ret tt).
Proof.
  intros Hid.
  erewrite on_exception_eq; [|cbn; reflexivity|discriminate|discriminate].
  rewrite Hid. reflexivity.
Qed.

(** The handler on a text frame that carries a message: everything up to the
    [switch] goes through, and the [switch] runs inside the [try]. *)
Lemma socketMessage_text H s message t id path body :
  is_message message (VStr t) id path body ->
  socketMessage H (Text (Ret message)) s =
    let rid := if String.eqb t "resp" then VNum 0 else id in
    match dispatch H (MkInbound message path (VStr t) rid) s with
    | (s1, tr, Ret _) =>
        (s1, log_events s [LogOnMessage; LogGot (Ret message)] ++ tr, Ret tt)
    | (s1, tr, Throw ex) =>
        let '(s2, tr2, r) := on_exception rid ex s1 in
        (s2, log_events s [LogOnMessage; LogGot (Ret message)] ++ tr ++ tr2, r)
    end.
Proof.
  intros (Ht & Hi & Hp & Hb).
  unfold socketMessage, prelude. unfold_M.
  cbn -[dispatch on_exception String.eqb].
  rewrite Hp; cbn -[dispatch on_exception String.eqb].
  rewrite Ht; cbn -[dispatch on_exception String.eqb].
  rewrite Hi; cbn -[dispatch on_exception String.eqb].
  destruct (dispatch H _ s) as [[s1 tr] [[]|ex]]; cbn -[on_exception].
  - unfold log_events. destruct (log s); cbn; rewrite ?app_nil_r; reflexivity.
  - destruct (on_exception _ ex s1) as [[s2 tr2] r]. unfold log_events.
    destruct (log s); cbn; rewrite ?app_nil_r; reflexivity.
Qed.

Lemma sent_frames_app tr1 tr2 :
  sent_frames (tr1 ++ tr2) = sent_frames tr1 ++ sent_frames tr2.
Proof. unfold sent_frames. apply omap_app. Qed.

Lemma sent_frames_log_events s ls : sent_frames (log_events s ls) = [].
Proof.
  unfold log_events. destruct (log s); [|reflexivity].
  induction ls; [reflexivity|assumption].
Qed.

Lemma sent_frames_request_events s m :
  sent_frames (request_events s m) = [TextFrame m].
Proof.
  unfold request_events. rewrite sent_frames_app, sent_frames_log_events. reflexivity.
Qed.


(* ===================================================================== *)
(** ** Binary frames (C8) and [close] (C10)                                *)
(* ===================================================================== *)

(** C8.  On an engine that has not been closed, every inbound binary frame
    is answered by exactly one frame, the four bytes 0x00 0x00 0xE0 0x80, and
    nothing else happens: the handler returns, the engine is unchanged, and
    apart from the log line of the entry nothing is sent, parsed or called. *)
Theorem binary_frame_gets_the_sentinel H s p bytes :
  _priv s = Some p ->
  socketMessage H (ArrayBuffer bytes) s =
    (s,
     log_events s [LogOnMessage] ++ [Sent (BinaryFrame [0x00; 0x00; 0xE0; 0x80])],
     Ret tt).
Proof.
  intros Hp. destruct s as [pv lg]; cbn in Hp; subst pv.
  destruct lg; reflexivity.
Qed.

Lemma binary_frame_gets_the_sentinel_witness :
  _priv example_engine = Some
    (MkPriv example_root (VNum 2) 0 ∅ ∅ ∅ ConnectionObject VUndefined VUndefined) /\
  socketMessage example_host (ArrayBuffer [1; 2; 3]) example_engine =
    (example_engine, [Sent (BinaryFrame [0; 0; 224; 128])], Ret tt).
Proof.
  split; [reflexivity|].
  apply (binary_frame_gets_the_sentinel example_host example_engine
           (MkPriv example_root (VNum 2) 0 ∅ ∅ ∅ ConnectionObject VUndefined VUndefined)
           [1; 2; 3]).
  reflexivity.
Defined.

(** C10.  [close] is idempotent: a call on an open engine closes the
    transport once and deletes the private state; on an engine already
    closed it does nothing, and in neither case does it throw.  So whatever
    the engine, a second call right after a first one changes nothing. *)
Theorem close_is_idempotent s :
  let '(s1, tr1, r1) := close s in
  r1 = Ret tt /\
  _priv s1 = None /\
  tr1 = (if _priv s is Some _ then [TransportClosed] else []) /\
  close s1 = (s1, [], Ret tt).
Proof.
  destruct s as [[p|] lg]; cbn; auto.
Qed.

(* ===================================================================== *)
(** ** Responses without a pending request (C6)                            *)
(* ===================================================================== *)

Lemma handle_resp_unknown H s p message id :
  _priv s = Some p ->
  get_member message "id" = Ret id ->
  (forall key, to_str id = Ret key -> pendingRequests p !! key = None) ->
  handle_resp H message s =
    match to_str id with
    | Ret _ => (s, log_events s [LogNoPending id], Ret tt)
    | Throw ex => (s, [], Throw ex)
    end.
Proof.
  intros Hp Hid Hnone. destruct s as [pv lg]; cbn in Hp; subst pv.
  unfold handle_resp. unfold_M. cbn. rewrite Hid. cbn.
  destruct (to_str id) as [key|ex] eqn:Ek; cbn; [|reflexivity].
  rewrite (Hnone key eq_refl). unfold log_events. cbn.
  destruct lg; reflexivity.
Qed.



(* ===================================================================== *)
(** ** Post (C5)                                                           *)
(* ===================================================================== *)

(** [parsePath] only reads. *)
Lemma parsePath_eq path s : parsePath path s = (s, [], resolve s path).
Proof.
  unfold resolve, parsePath, path_prefix. unfold_M.
  destruct s as [[p|] lg], (truthy path), path; cbn;
    repeat match goal with
           | |- context [if ?b then _ else _] => destruct b; cbn
           | |- context [match ?o with Ret _ => _ | Throw _ => _ end] =>
               destruct o as [[? ?]|]; cbn
           | |- context [match ?v with VStr _ => _ | _ => _ end] => destruct v; cbn
           end; reflexivity.
Qed.

Lemma invocations_app tr1 tr2 :
  invocations (tr1 ++ tr2) = invocations tr1 ++ invocations tr2.
Proof. unfold invocations. apply omap_app. Qed.

Lemma invocations_log_events s ls : invocations (log_events s ls) = [].
Proof.
  unfold log_events. destruct (log s); [|reflexivity].
  induction ls; [reflexivity|assumption].
Qed.

Lemma invocations_request_events s m : invocations (request_events s m) = [].
Proof.
  unfold request_events. rewrite invocations_app, invocations_log_events. reflexivity.
Qed.

Lemma sendResponse_no_invocations id body s :
  invocations (snd (fst (sendResponse id body s))) = [].
Proof.
  unfold sendResponse. unfold_M.
  destruct (truthy id), s as [[p|] [|]], body; reflexivity.
Qed.

(** The [catch] block calls nothing of the object graph. *)
Lemma on_exception_no_invocations rid ex s :
  invocations (snd (fst (on_exception rid ex s))) = [].
Proof.
  unfold on_exception. unfold_M.
  destruct (log s); cbn.
  - destruct (to_str ex); cbn; [|reflexivity].
    destruct (get_member ex "stack"); cbn; [|reflexivity].
    destruct (truthy rid); [|reflexivity].
    pose proof (sendResponse_no_invocations rid ex s) as Hs.
    destruct (sendResponse rid ex s) as [[s2 tr] r]. exact Hs.
  - destruct (get_member ex "stack"); cbn; [|reflexivity].
    destruct (truthy rid); [|reflexivity].
    pose proof (sendResponse_no_invocations rid ex s) as Hs.
    destruct (sendResponse rid ex s) as [[s2 tr] r]. exact Hs.
Qed.

(** [case "post"] on a function member of the host. *)
Lemma handle_post_host_function H s message path rid body pd f :
  resolve s path = Ret pd ->
  get_member (obj pd) (prop pd) = Ret (VFun f) ->
  get_member message "body" = Ret body ->
  handle_post H message path rid s =
    match host_method H f (obj pd) (positional_arguments body) with
    | Ret v =>
        let '(s2, tr, r) := sendResponse rid v s in
        (s2, Invoked f (obj pd) (positional_arguments body) :: tr, r)
    | Throw ex => (s, [Invoked f (obj pd) (positional_arguments body)], Throw ex)
    end.
Proof.
  intros Hr Hf Hb. unfold handle_post.
  rewrite bind_eq, parsePath_eq, Hr. unfold_M. cbn.
  rewrite Hf. cbn. rewrite Hb. cbn.
  unfold method_apply, method_call, call_function, positional_arguments. unfold_M.
  destruct body; cbn;
    match goal with
    | |- context [host_method H f ?o ?a] => destruct (host_method H f o a); cbn
    end;
    try reflexivity;
    destruct (sendResponse rid _ s) as [[s2 tr] r]; reflexivity.
Qed.

(** C5.  An inbound post whose path resolves to a function member is handled
    by exactly one call of that member, on the object that holds it, with the
    elements of the body as positional arguments when the body is a sequence
    and with the body as the one argument otherwise.  When the call returns,
    the handler returns, the engine is unchanged, and the return value goes
    back as the body of the response addressed to the id of the post (a
    post without id is not answered; [sendResponse] turns a returned Error
    object into an error response). *)
Theorem post_invokes_with_positional_arguments H s p message id path body pd f :
  _priv s = Some p ->
  is_message message (VStr "post") id path body ->
  resolve s path = Ret pd ->
  get_member (obj pd) (prop pd) = Ret (VFun f) ->
  let args := positional_arguments body in
  (forall elems, body = VArr elems -> args = elems) /\
  (isArray body = false -> args = [body]) /\
  exists s' tr r,
    socketMessage H (Text (Ret message)) s = (s', tr, r) /\
    invocations tr = [(f, obj pd, args)] /\
    (forall v, host_method H f (obj pd) args = Ret v ->
       s' = s /\ r = Ret tt /\
       (truthy id = true -> instanceof_Error v = false ->
          sent_frames tr = [TextFrame (response id v)]) /\
       (truthy id = false -> sent_frames tr = [])).
Proof.
  intros Hp Hm Hr Hf args. split; [|split].
  - intros elems ->. reflexivity.
  - destruct body; cbn; intros; try reflexivity; discriminate.
  - rewrite (socketMessage_text H s message "post" id path body Hm).
    destruct Hm as (_ & _ & _ & Hb).
    cbn -[handle_post on_exception].
    rewrite (handle_post_host_function H s message path id body pd f Hr Hf Hb).
    fold args. destruct (host_method H f (obj pd) args) as [v|ex] eqn:Ev.
    + destruct (truthy id) eqn:Eid.
      * rewrite (sendResponse_open s p id v Hp Eid).
        eexists _, _, _; split; [reflexivity|]. split.
        { rewrite invocations_app, invocations_log_events. cbn.
          rewrite invocations_request_events. reflexivity. }
        intros v' Hv'; inversion Hv'; subst v'. repeat split; try discriminate.
        intros _ Hne. rewrite sent_frames_app, sent_frames_log_events. cbn.
        rewrite sent_frames_request_events. destruct v; try discriminate; reflexivity.
      * rewrite (sendResponse_no_id s id v Eid).
        eexists _, _, _; split; [reflexivity|]. split.
        { rewrite invocations_app, invocations_log_events. reflexivity. }
        intros v' Hv'. repeat split; try discriminate.
        intros _. rewrite sent_frames_app, sent_frames_log_events. reflexivity.
    + pose proof (on_exception_no_invocations id ex s) as Hno.
      destruct (on_exception id ex s) as [[s2 tr2] r2].
      change (invocations tr2 = []) in Hno.
      eexists _, _, _; split; [reflexivity|]. split.
      { rewrite !invocations_app, invocations_log_events, Hno. reflexivity. }
      intros v Hv; discriminate.
Qed.

(** The two posts of the specification: to ["a/b/op"] with body [[1,2]], and
    with body [{"x":1}]. *)
Lemma post_invokes_with_positional_arguments_witness :
  let ab := VObj false [("op", VFun 0); ("bad", VFun 1); ("worse", VFun 2)] in
  resolve example_engine (VStr "a/b/op") = Ret (MkParsed ab "op" false ["a"; "b"]) /\
  (exists s' tr r,
     socketMessage example_host
       (example_message "post" (VNum 1) "a/b/op" (VArr [VNum 1; VNum 2]))
       example_engine = (s', tr, r) /\
     invocations tr = [(0%nat, ab, [VNum 1; VNum 2])]) /\
  (exists s' tr r,
     socketMessage example_host
       (example_message "post" (VNum 1) "a/b/op" (VObj false [("x", VNum 1)]))
       example_engine = (s', tr, r) /\
     invocations tr = [(0%nat, ab, [VObj false [("x", VNum 1)]])]).
Proof.
  intros ab. split; [reflexivity|]. split.
  - destruct (post_invokes_with_positional_arguments example_host example_engine
                (MkPriv example_root (VNum 2) 0 ∅ ∅ ∅ ConnectionObject VUndefined VUndefined)
                (request "post" (VNum 1) "a/b/op" (VArr [VNum 1; VNum 2]))
                (VNum 1) (VStr "a/b/op") (VArr [VNum 1; VNum 2])
                (MkParsed ab "op" false ["a"; "b"]) 0%nat)
      as (_ & _ & s' & tr & r & Hrun & Hinv & _);
      [reflexivity | repeat split | reflexivity | reflexivity |].
    exists s', tr, r. split; [exact Hrun | exact Hinv].
  - destruct (post_invokes_with_positional_arguments example_host example_engine
                (MkPriv example_root (VNum 2) 0 ∅ ∅ ∅ ConnectionObject VUndefined VUndefined)
                (request "post" (VNum 1) "a/b/op" (VObj false [("x", VNum 1)]))
                (VNum 1) (VStr "a/b/op") (VObj false [("x", VNum 1)])
                (MkParsed ab "op" false ["a"; "b"]) 0%nat)
      as (_ & _ & s' & tr & r & Hrun & Hinv & _);
      [reflexivity | repeat split | reflexivity | reflexivity |].
    exists s', tr, r. split; [exact Hrun | exact Hinv].
Defined.

(* ===================================================================== *)
(** ** Paths that do not resolve (C4)                                      *)
(* ===================================================================== *)

Lemma get_member_throw o k ex :
  get_member o k = Throw ex ->
  (o = VUndefined \/ o = VNull) /\ exists msg, ex = VError VUndefined (VStr msg).
Proof.
  destruct o; cbn; try discriminate;
    try (intros Hx; inversion Hx; split; [auto | eexists; reflexivity]).
  - destruct (String.eqb k "length"); [discriminate|].
    destruct (array_index k); discriminate.
  - destruct (String.eqb k "length"); [discriminate|].
    destruct (array_index k); discriminate.
  - destruct (String.eqb k "number"); [discriminate|].
    destruct (String.eqb k "message"); discriminate.
  - destruct (String.eqb k "length"); [discriminate|].
    destruct (array_index k); discriminate.
Qed.

Lemma get_member_nullish o k :
  o = VUndefined \/ o = VNull ->
  exists msg, get_member o k = Throw (VError VUndefined (VStr msg)).
Proof. intros [-> | ->]; eexists; reflexivity. Qed.

Lemma set_member_nullish o k v :
  o = VUndefined \/ o = VNull ->
  exists msg, set_member o k v = Throw (VError VUndefined (VStr msg)).
Proof. intros [-> | ->]; eexists; reflexivity. Qed.

Lemma walk_throw parts o ex :
  walk o parts = Throw ex -> exists msg, ex = VError VUndefined (VStr msg).
Proof.
  revert o. induction parts as [|k rest IH]; intros o; cbn; [discriminate|].
  destruct rest as [|k' rest]; [discriminate|].
  destruct (get_member o k) as [o'|e] eqn:Eg; cbn.
  - apply IH.
  - intros Hx; inversion Hx; subst. eapply get_member_throw; eauto.
Qed.

(** Whatever [parsePath] throws is an Error object without a [number]. *)
Lemma resolve_throw s path ex :
  resolve s path = Throw ex -> exists msg, ex = VError VUndefined (VStr msg).
Proof.
  unfold resolve, parsePath, path_prefix. unfold_M.
  destruct s as [[p|] lg], (truthy path), path; cbn;
    repeat match goal with
           | |- context [if ?b then _ else _] => destruct b; cbn
           | |- context [match walk ?o ?ps with Ret _ => _ | Throw _ => _ end] =>
               let E := fresh "E" in destruct (walk o ps) as [[? ?]|] eqn:E; cbn
           | |- context [match ?v with VStr _ => _ | _ => _ end] => destruct v; cbn
           end;
    try discriminate;
    intros Hx; inversion Hx; subst;
    try (eexists; reflexivity);
    eapply walk_throw; eauto.
Qed.

(** [case "get"], [case "put"] and [case "post"] on a path that does not
    resolve: nothing is done and an Error object is thrown. *)
Lemma request_on_unresolved_path H s message t id path body :
  In t ["get"; "put"; "post"] ->
  get_member message "body" = Ret body ->
  unresolved s path ->
  exists msg,
    dispatch H (MkInbound message path (VStr t) id) s
    = (s, [], Throw (VError VUndefined (VStr msg))).
Proof.
  intros Ht Hb Hun. unfold unresolved in Hun.
  assert (Hcases : t = "get" \/ t = "put" \/ t = "post").
  { cbn in Ht. intuition. }
  unfold dispatch; cbn [in_type in_path in_message in_requestId].
  destruct (resolve s path) as [pd|ex] eqn:Er.
  - destruct Hcases as [-> | [-> | ->]]; cbn -[handle_get handle_put handle_post].
    + unfold handle_get. rewrite bind_eq, parsePath_eq, Er.
      destruct (get_member_nullish _ (prop pd) Hun) as [msg Hg].
      unfold_M. rewrite Hg. eexists; reflexivity.
    + unfold handle_put. rewrite bind_eq, parsePath_eq, Er.
      destruct (set_member_nullish _ (prop pd) body Hun) as [msg Hg].
      unfold_M. rewrite Hb. cbn. rewrite Hg. eexists; reflexivity.
    + unfold handle_post. rewrite bind_eq, parsePath_eq, Er.
      destruct (get_member_nullish _ (prop pd) Hun) as [msg Hg].
      unfold_M. rewrite Hg. eexists; reflexivity.
  - destruct (resolve_throw _ _ _ Er) as [msg ->].
    destruct Hcases as [-> | [-> | ->]]; cbn -[handle_get handle_put handle_post];
      [unfold handle_get | unfold handle_put | unfold handle_post];
      rewrite bind_eq, parsePath_eq, Er; eexists; reflexivity.
Qed.


(** [case "get"] on a path that resolves. *)
Lemma handle_get_resolved s path id pd v :
  resolve s path = Ret pd ->
  get_member (obj pd) (prop pd) = Ret v ->
  handle_get path id s = sendResponse id v s.
Proof.
  intros Hr Hf. unfold handle_get.
  rewrite bind_eq, parsePath_eq, Hr. unfold_M. cbn. rewrite Hf. cbn.
  destruct (sendResponse id v s) as [[s2 tr] r]. reflexivity.
Qed.

Lemma error_is_answered H s p message t id path body msg :
  _priv s = Some p ->
  is_message message (VStr t) id path body ->
  String.eqb t "resp" = false ->
  dispatch H (MkInbound message path (VStr t) id) s
  = (s, [], Throw (VError VUndefined (VStr msg))) ->
  exists tr,
    socketMessage H (Text (Ret message)) s = (s, tr, Ret tt) /\
    sent_frames tr =
      (if truthy id then [TextFrame (error_response id (VNum (-1)) (VStr msg))] else []) /\
    invocations tr = [].
Proof.
  intros Hp Hm Ht Hd.
  rewrite (socketMessage_text H s message t id path body Hm).
  rewrite Ht. cbn zeta. rewrite Hd.
  destruct (truthy id) eqn:Eid.
  - rewrite (on_exception_Error s p id VUndefined msg Hp Eid).
    eexists; split; [reflexivity|]. split.
    + rewrite !sent_frames_app, !sent_frames_log_events. cbn.
      rewrite sent_frames_request_events. reflexivity.
    + rewrite !invocations_app, !invocations_log_events. cbn.
      rewrite invocations_request_events. reflexivity.
  - rewrite (on_exception_Error_no_id s id VUndefined msg Eid).
    eexists; split; [reflexivity|]. split.
    + rewrite !sent_frames_app, !sent_frames_log_events. reflexivity.
    + rewrite !invocations_app, !invocations_log_events. reflexivity.
Qed.




(* ===================================================================== *)
(** ** Get after put (C7)                                                  *)
(* ===================================================================== *)

Lemma lookup_store_prop k v props : lookup_prop k (store_prop k v props) = v.
Proof.
  induction props as [|[k' v'] props IH]; cbn.
  - rewrite String.eqb_refl. reflexivity.
  - destruct (String.eqb k' k) eqn:E; cbn; rewrite E; [reflexivity | exact IH].
Qed.












(** What a successful [parsePath] has done, and what it does for the same
    path on any other open engine. *)
Lemma resolve_inv s path pd :
  resolve s path = Ret pd ->
  exists p parts,
    _priv s = Some p /\
    walk (if in_connection pd then connection p else root p) parts
      = Ret (obj pd, prop pd) /\
    trail pd = removelast parts /\
    forall lg p',
      truthy (if in_connection pd then connection p' else root p') = true ->
      resolve (MkCogSocket (Some p') lg) path =
        outcome_bind
          (walk (if in_connection pd then connection p' else root p') parts)
          (fun ok => Ret (MkParsed (fst ok) (snd ok) (in_connection pd)
                            (removelast parts))).
Proof.
  unfold resolve, parsePath, path_prefix. unfold_M.
  destruct s as [[p|] lg], (truthy path), path; cbn; try discriminate;
    repeat match goal with
           | |- context [if String.eqb ?a ?b then _ else _] =>
               destruct (String.eqb a b); cbn
           | |- context [if negb (truthy ?b) then _ else _] =>
               let E := fresh "E" in destruct (truthy b) eqn:E; cbn
           end;
    try discriminate;
    match goal with
    | |- context [walk ?o ?ps] =>
        let E := fresh "E" in
        destruct (walk o ps) as [[o1 k1]|] eqn:E; cbn; [|discriminate];
        intros Hx; inversion Hx; subst; cbn;
        exists p, ps; repeat split; try assumption;
        intros lg' p' Hb; rewrite Hb; cbn;
        match goal with
        | |- context [walk (?f p') ps] => destruct (walk (f p') ps) as [[o2 k2]|]
        end; reflexivity
    end.
Qed.

(** [case "put"] on a path that resolves to a member that can be assigned. *)
Lemma handle_put_resolved p lg message path id body pd o' :
  resolve (MkCogSocket (Some p) lg) path = Ret pd ->
  get_member message "body" = Ret body ->
  set_member (obj pd) (prop pd) body = Ret o' ->
  handle_put message path id (MkCogSocket (Some p) lg) =
    sendResponse id VUndefined
      (MkCogSocket
         (Some (if in_connection pd
                then set_connection (update_at (connection p) (trail pd) o') p
                else set_root (update_at (root p) (trail pd) o') p))
         lg).
Proof.
  intros Hr Hb Hs. unfold handle_put.
  rewrite bind_eq, parsePath_eq, Hr. unfold store_back. unfold_M. cbn.
  rewrite Hb. cbn. rewrite Hs. cbn.
  destruct (sendResponse id VUndefined _) as [[s2 tr] r]. reflexivity.
Qed.




(* ===================================================================== *)
(** ** Listeners and remote subscriptions (C1)                             *)
(* ===================================================================== *)

Lemma filter_requests_log_events type path s ls tr :
  count_requests type path (log_events s ls ++ tr) = count_requests type path tr.
Proof.
  unfold count_requests. rewrite sent_frames_app, sent_frames_log_events. reflexivity.
Qed.

Lemma count_requests_app type path tr1 tr2 :
  count_requests type path (tr1 ++ tr2)
  = (count_requests type path tr1 + count_requests type path tr2)%nat.
Proof.
  unfold count_requests. rewrite sent_frames_app, filter_app, length_app. reflexivity.
Qed.

Lemma is_request_for_request type type' path id body :
  is_request_for type path (TextFrame (request type' id path body))
  = String.eqb type' type.
Proof.
  unfold is_request_for, request.
  change (lookup_prop "$type" _) with (VStr type').
  change (lookup_prop "path" _) with (VStr path).
  cbv beta iota. rewrite String.eqb_refl, andb_true_r. reflexivity.
Qed.

Lemma count_requests_request_events type type' path s id body :
  count_requests type path (request_events s (request type' id path body))
  = (if String.eqb type' type then 1 else 0)%nat.
Proof.
  unfold request_events. rewrite filter_requests_log_events.
  unfold count_requests.
  change (sent_frames [Sent (TextFrame (request type' id path body))])
    with [TextFrame (request type' id path body)].
  rewrite filter_cons, is_request_for_request.
  destruct (String.eqb type' type); cbn.
  - rewrite decide_True by reflexivity. reflexivity.
  - rewrite decide_False by discriminate. reflexivity.
Qed.

(** A request that expects no response: no id is allocated. *)
Lemma sendRequest_no_oncomplete p lg type path body :
  sendRequest type path None body (MkCogSocket (Some p) lg) =
    (MkCogSocket (Some p) lg,
     request_events (MkCogSocket (Some p) lg) (request type VUndefined path body),
     Ret VUndefined).
Proof. destruct lg; reflexivity. Qed.

(** The first listener of a path: the registration is made and one listen
    request goes out. *)
Lemma addListener_first H p lg path f :
  listeners p !! path = None ->
  inherited path = None ->
  addListener H path f None (MkCogSocket (Some p) lg) =
    (MkCogSocket (Some (set_listeners (<[path := [f]]> (listeners p)) p)) lg,
     request_events (MkCogSocket (Some p) lg) (request "listen" VUndefined path VUndefined),
     Ret tt).
Proof.
  intros Hnone Hinh. unfold addListener. unfold_M. cbn.
  rewrite (table_get_nothing _ _ Hnone Hinh). cbn.
  destruct lg; reflexivity.
Qed.

(** One more listener of a path that has a registration: nothing goes out. *)
Lemma addListener_again H p lg path f ls :
  listeners p !! path = Some ls ->
  addListener H path f None (MkCogSocket (Some p) lg) =
    (MkCogSocket (Some (set_listeners (<[path := ls ++ [f]]> (listeners p)) p)) lg,
     [], Ret tt).
Proof.
  intros Hsome. unfold addListener. unfold_M. cbn.
  rewrite (table_get_own _ _ _ Hsome). reflexivity.
Qed.

Lemma set_listeners_same p : set_listeners (listeners p) p = p.
Proof. destruct p; reflexivity. Qed.

Lemma listeners_set_listeners m p : listeners (set_listeners m p) = m.
Proof. reflexivity. Qed.

Lemma set_listeners_twice m m' p :
  set_listeners m (set_listeners m' p) = set_listeners m p.
Proof. reflexivity. Qed.

Lemma addListener_repeated H lg path f k : forall p ls,
  listeners p !! path = Some ls ->
  repeat_call k (addListener H path f None) (MkCogSocket (Some p) lg) =
    (MkCogSocket (Some (set_listeners (<[path := ls ++ replicate k f]> (listeners p)) p)) lg,
     [], Ret tt).
Proof.
  induction k as [|k IH]; intros p ls Hsome.
  - cbn. rewrite app_nil_r, insert_id by exact Hsome.
    rewrite set_listeners_same. reflexivity.
  - cbn [repeat_call].
    erewrite bind_ret_eq by (apply addListener_again; exact Hsome).
    rewrite (IH _ (ls ++ [f])) by (cbn; apply lookup_insert_eq).
    cbn. rewrite insert_insert_eq, <- app_assoc. reflexivity.
Qed.

(** Removing a listener that is not the last one: nothing goes out. *)
Lemma removeListener_not_last H p lg path f ls :
  listeners p !! path = Some (f :: f :: ls) ->
  removeListener H path (Some f) None (MkCogSocket (Some p) lg) =
    (MkCogSocket (Some (set_listeners (<[path := f :: ls]> (listeners p)) p)) lg,
     [], Ret tt).
Proof.
  intros Hsome. unfold removeListener. unfold_M. cbn.
  rewrite (table_get_own _ _ _ Hsome). cbn.
  rewrite Nat.eqb_refl. reflexivity.
Qed.

(** Removing the last listener: the registration goes and one unlisten
    request goes out. *)
Lemma removeListener_last H p lg path f :
  listeners p !! path = Some [f] ->
  removeListener H path (Some f) None (MkCogSocket (Some p) lg) =
    (MkCogSocket (Some (set_listeners (delete path (listeners p)) p)) lg,
     request_events (MkCogSocket (Some p) lg)
       (request "unlisten" VUndefined path VUndefined),
     Ret tt).
Proof.
  intros Hsome. unfold removeListener. unfold_M. cbn.
  rewrite (table_get_own _ _ _ Hsome). cbn.
  rewrite Nat.eqb_refl. cbn. rewrite delete_insert_eq.
  destruct lg; reflexivity.
Qed.

Lemma removeListener_repeated H lg path f j : forall p m,
  listeners p !! path = Some (replicate (j + S m) f) ->
  repeat_call j (removeListener H path (Some f) None) (MkCogSocket (Some p) lg) =
    (MkCogSocket (Some (set_listeners (<[path := replicate (S m) f]> (listeners p)) p)) lg,
     [], Ret tt).
Proof.
  induction j as [|j IH]; intros p m Hsome.
  - cbn in *. rewrite insert_id by exact Hsome.
    rewrite set_listeners_same. reflexivity.
  - cbn [repeat_call].
    erewrite bind_ret_eq
      by (apply (removeListener_not_last H p lg path f (replicate (j + m) f));
          rewrite Hsome; cbn; rewrite Nat.add_succ_r; reflexivity).
    rewrite (IH _ m)
      by (cbn; rewrite lookup_insert_eq, Nat.add_succ_r; reflexivity).
    cbn. rewrite insert_insert_eq. reflexivity.
Qed.

Lemma addListener_from_none H p lg path f k :
  listeners p !! path = None ->
  inherited path = None ->
  repeat_call (S k) (addListener H path f None) (MkCogSocket (Some p) lg) =
    (MkCogSocket (Some (set_listeners (<[path := replicate (S k) f]> (listeners p)) p)) lg,
     request_events (MkCogSocket (Some p) lg)
       (request "listen" VUndefined path VUndefined),
     Ret tt).
Proof.
  intros Hnone Hinh. cbn [repeat_call].
  erewrite bind_ret_eq by (apply addListener_first; assumption).
  rewrite (addListener_repeated H lg path f k _ [f])
    by (cbn; apply lookup_insert_eq).
  cbn. rewrite insert_insert_eq, app_nil_r. reflexivity.
Qed.

Lemma removeListener_all H lg path f m : forall p,
  listeners p !! path = Some (replicate (S m) f) ->
  repeat_call (S m) (removeListener H path (Some f) None) (MkCogSocket (Some p) lg) =
    (MkCogSocket (Some (set_listeners (delete path (listeners p)) p)) lg,
     request_events (MkCogSocket (Some p) lg)
       (request "unlisten" VUndefined path VUndefined),
     Ret tt).
Proof.
  induction m as [|m IH]; intros p Hsome.
  - cbn [repeat_call].
    erewrite bind_ret_eq by (apply removeListener_last; exact Hsome).
    cbn. rewrite app_nil_r. reflexivity.
  - cbn [repeat_call] in *.
    erewrite bind_ret_eq
      by (apply (removeListener_not_last H p lg path f (replicate m f)); exact Hsome).
    rewrite IH by (cbn; apply lookup_insert_eq).
    cbn. rewrite delete_insert_eq. reflexivity.
Qed.

(** X28 (src/cogsocket.js, addListener and removeListener).  On an open
    engine that has no registration for the path [path], a path that names no
    member of Object.prototype, [N > 0] calls [addListener(path, f)] followed
    by [N] calls [removeListener(path, f)] send exactly one listen request,
    in the first [addListener], and exactly one unlisten request, in the last
    [removeListener], and leave the engine as it was.  At every point of the
    sequence one listen request has been sent and at most one unlisten
    request, so never more than one remote subscription is outstanding. *)
Theorem one_listen_and_one_unlisten H s p path f N :
  _priv s = Some p ->
  listeners p !! path = None ->
  inherited path = None ->
  (0 < N)%nat ->
  let add := addListener H path f None in
  let remove := removeListener H path (Some f) None in
  let listen := request "listen" VUndefined path VUndefined in
  let unlisten := request "unlisten" VUndefined path VUndefined in
  (repeat_call N add;; repeat_call N remove) s
    = (s, request_events s listen ++ request_events s unlisten, Ret tt) /\
  snd (fst (add s)) = request_events s listen /\
  (forall k, (1 <= k <= N)%nat ->
     exists s' tr,
       repeat_call k add s = (s', tr, Ret tt) /\
       count_requests "listen" path tr = 1%nat /\
       count_requests "unlisten" path tr = 0%nat) /\
  (forall j, (j <= N)%nat ->
     exists s' tr,
       (repeat_call N add;; repeat_call j remove) s = (s', tr, Ret tt) /\
       count_requests "listen" path tr = 1%nat /\
       count_requests "unlisten" path tr = (if decide (j = N) then 1 else 0)%nat).
Proof.
  intros Hp Hnone Hinh HN add remove listen unlisten.
  destruct s as [pv lg]; cbn in Hp; subst pv.
  destruct N as [|n]; [lia|]. clear HN.
  repeat split.
  - erewrite bind_ret_eq by (apply addListener_from_none; assumption).
    unfold remove. rewrite removeListener_all by (cbn; apply lookup_insert_eq).
    rewrite listeners_set_listeners, set_listeners_twice.
    rewrite delete_insert_eq, delete_id by exact Hnone.
    rewrite set_listeners_same. reflexivity.
  - unfold add. rewrite addListener_first by assumption. reflexivity.
  - intros k [Hk1 Hk2]. destruct k as [|k]; [lia|].
    unfold add. rewrite addListener_from_none by assumption.
    eexists _, _; split; [reflexivity|].
    rewrite !count_requests_request_events. split; reflexivity.
  - intros j Hj.
    erewrite bind_ret_eq by (apply addListener_from_none; assumption).
    destruct (decide (j = S n)) as [-> | Hne].
    + unfold remove. rewrite removeListener_all by (cbn; apply lookup_insert_eq).
      eexists _, _; split; [reflexivity|].
      rewrite count_requests_app, !count_requests_app, !count_requests_request_events.
      split; reflexivity.
    + unfold remove.
      rewrite (removeListener_repeated H lg path f j _ (n - j))
        by (rewrite listeners_set_listeners, lookup_insert_eq;
            f_equal; f_equal; lia).
      eexists _, _; split; [reflexivity|].
      rewrite app_nil_r, !count_requests_request_events.
      split; reflexivity.
Qed.

(** Three listeners on ["cam0/hmi/stateChanged"] of a new engine. *)
Lemma one_listen_and_one_unlisten_witness :
  let add := addListener example_host "cam0/hmi/stateChanged" 4 None in
  let remove := removeListener example_host "cam0/hmi/stateChanged" (Some 4%nat) None in
  (0 < 3)%nat /\
  (repeat_call 3 add;; repeat_call 3 remove) example_engine
    = (example_engine,
       [Sent (TextFrame (request "listen" VUndefined "cam0/hmi/stateChanged" VUndefined));
        Sent (TextFrame (request "unlisten" VUndefined "cam0/hmi/stateChanged" VUndefined))],
       Ret tt).
Proof.
  intros add remove. split; [lia|].
  apply (one_listen_and_one_unlisten example_host example_engine
           (MkPriv example_root (VNum 2) 0 ∅ ∅ ∅ ConnectionObject VUndefined VUndefined)
           "cam0/hmi/stateChanged" 4%nat 3%nat).
  - reflexivity.
  - reflexivity.
  - reflexivity.
  - lia.
Defined.

(** C1 fails in the code for a path that names a member every object
    inherits.  The table of listeners is a plain object, so on a new engine
    [priv.listeners["toString"]] is the function [Object.prototype.toString]
    and [addListener("toString", f)] takes the branch for a path that is
    subscribed already: it throws at [listeners.push], sends no listen
    request and registers nothing.  [removeListener("toString", f)] finds
    the same function, whose [length] is 0, and sends an unlisten request
    every time it is called.  So one listener added and removed sends no
    listen request, and two listeners added and removed send no listen
    request and two unlisten requests. *)
Theorem listener_on_inherited_name_is_not_subscribed :
  let add := OpAddListener "toString" 7 None in
  let remove := OpRemoveListener "toString" (Some 7%nat) None in
  (exists ex,
     addListener example_host "toString" 7 None example_engine
     = (example_engine, [], Throw ex)) /\
  removeListener example_host "toString" (Some 7%nat) None example_engine
  = (example_engine,
     [Sent (TextFrame (request "unlisten" VUndefined "toString" VUndefined))], Ret tt) /\
  (let tr := snd (run_ops example_host [add; remove] example_engine) in
   count_requests "listen" "toString" tr = 0%nat /\
   count_requests "unlisten" "toString" tr = 1%nat) /\
  (let tr := snd (run_ops example_host [add; add; remove; remove] example_engine) in
   count_requests "listen" "toString" tr = 0%nat /\
   count_requests "unlisten" "toString" tr = 2%nat).
Proof.
  intros add remove. split; [eexists; reflexivity|].
  split; [reflexivity|]. split; split; reflexivity.
Qed.

(* ===================================================================== *)
(** ** What a message cannot touch                                         *)
(* ===================================================================== *)

Lemma request_ids_app tr1 tr2 :
  request_ids (tr1 ++ tr2) = request_ids tr1 ++ request_ids tr2.
Proof. unfold request_ids. apply omap_app. Qed.

Lemma tame_ret {A} (a : A) : tame (mret a).
Proof. intros r s HI. split; [exact HI | reflexivity]. Qed.

Lemma tame_throw {A} ex : tame (@throw A ex).
Proof. intros r s HI. split; [exact HI | reflexivity]. Qed.

Lemma tame_lift {A} (o : outcome A) : tame (lift o).
Proof. intros r s HI. split; [exact HI | reflexivity]. Qed.

Lemma tame_emit e : request_id e = None -> tame (emit e).
Proof. intros He r s HI. split; [exact HI|]. cbn. rewrite He. reflexivity. Qed.

Lemma tame_log_if l : tame (log_if l).
Proof. intros r s HI. split; [exact HI|]. cbn. destruct (log s); reflexivity. Qed.

Lemma tame_read_priv : tame read_priv.
Proof.
  intros r s HI. unfold read_priv. destruct (_priv s); (split; [exact HI | reflexivity]).
Qed.

Lemma tame_modify_priv f :
  (forall p, requestId (f p) = requestId p) ->
  tame (modify_priv f).
Proof.
  intros Hf r s HI. unfold modify_priv, Inv in *.
  destruct (_priv s) as [p|] eqn:Ep; cbn; [|rewrite Ep; auto].
  rewrite (Hf p). auto.
Qed.

Lemma tame_bind {A B} (m : M A) (k : A -> M B) :
  tame m -> (forall a, tame (k a)) -> tame (m ≫= k).
Proof.
  intros Hm Hk r s HI. rewrite bind_eq.
  destruct (Hm r s HI) as [HI1 Hids1].
  destruct (m s) as [[s1 e1] [a|ex]]; cbn [fst snd] in *; [|auto].
  destruct (Hk a r s1 HI1) as [HI2 Hids2].
  destruct (k a s1) as [[s2 e2] r2]; cbn [fst snd] in *.
  rewrite request_ids_app, Hids1, Hids2. auto.
Qed.

Lemma tame_attempt {A} (m : M A) : tame m -> tame (attempt m).
Proof.
  intros Hm r s HI. unfold attempt.
  destruct (Hm r s HI) as [HI1 Hids1].
  destruct (m s) as [[s1 e1] o]; cbn [fst snd] in *. auto.
Qed.

Lemma tame_for_each {A} (f : A -> M unit) l :
  (forall a, tame (f a)) -> tame (for_each f l).
Proof.
  intros Hf. induction l as [|x l IH]; cbn [for_each].
  - apply tame_ret.
  - apply tame_bind; [apply Hf | intros _; exact IH].
Qed.

Ltac tame_step :=
  first
    [ apply tame_ret
    | apply tame_throw
    | apply tame_lift
    | apply tame_log_if
    | apply tame_read_priv
    | apply tame_emit; reflexivity
    | apply tame_modify_priv; intros ?; reflexivity
    | apply tame_attempt
    | apply tame_for_each; intros ?
    | apply tame_bind; [|intros ?]
    | match goal with
      | |- tame (if ?b then _ else _) => destruct b
      | |- tame (match ?x with _ => _ end) => destruct x
      | |- tame (let _ := _ in _) => cbv zeta
      end ].

Ltac tame_auto := repeat tame_step.

Lemma request_id_resp fr rest :
  request_id (Sent (TextFrame (VObj fr (("$type", VStr "resp") :: rest)))) = None.
Proof.
  unfold request_id. change (lookup_prop "$type" _) with (VStr "resp").
  cbv beta iota. destruct (lookup_prop "id" _); reflexivity.
Qed.

Lemma tame_sendResponse id body : tame (sendResponse id body).
Proof.
  unfold sendResponse. destruct (truthy id); [|apply tame_ret].
  destruct body; cbv zeta;
    (apply tame_bind; [apply tame_read_priv|]; intros _;
     apply tame_bind; [apply tame_log_if|]; intros _;
     apply tame_emit; apply request_id_resp).
Qed.

Lemma tame_parsePath path : tame (parsePath path).
Proof.
  intros r s HI. rewrite parsePath_eq. split; [exact HI | reflexivity].
Qed.

Lemma tame_hello H info : tame (hello H info).
Proof. unfold hello. tame_auto. Qed.

Lemma tame_sender path args : tame (sender path args).
Proof. unfold sender. destruct args as [|a [|b args]]; tame_auto. Qed.

Lemma tame_call_function H f this args : tame (call_function H f this args).
Proof.
  unfold call_function.
  destruct (callee f) as [[id| |path]|];
    [tame_auto | apply tame_hello | apply tame_sender | apply tame_throw].
Qed.

Lemma tame_call_member H o name args : tame (call_member H o name args).
Proof.
  unfold call_member. apply tame_bind; [apply tame_lift|].
  intros m. apply tame_call_function.
Qed.

Lemma tame_handle_get path id : tame (handle_get path id).
Proof.
  unfold handle_get. apply tame_bind; [apply tame_parsePath|]. intros pd.
  apply tame_bind; [apply tame_lift|]. intros v. apply tame_sendResponse.
Qed.

Lemma tame_handle_post H message path id : tame (handle_post H message path id).
Proof.
  unfold handle_post. apply tame_bind; [apply tame_parsePath|]. intros pd.
  apply tame_bind; [apply tame_lift|]. intros method.
  apply tame_bind; [apply tame_lift|]. intros body.
  apply tame_bind; [|intros v; apply tame_sendResponse].
  unfold method_apply, method_call.
  destruct body; destruct (is_function method);
    first [apply tame_call_function | apply tame_call_member].
Qed.

Lemma tame_handle_resp H message : tame (handle_resp H message).
Proof. unfold handle_resp, complete. tame_auto. Qed.

Lemma tame_handle_event H message path id : tame (handle_event H message path id).
Proof.
  unfold handle_event.
  apply tame_bind; [apply tame_lift|]. intros body. cbv zeta.
  apply tame_bind; [apply tame_read_priv|]. intros p.
  apply tame_bind; [apply tame_lift|]. intros key.
  apply tame_bind.
  - destruct (table_get (listeners p) key) as [ls|[[|n]|]|]; try apply tame_ret;
      [apply tame_for_each; intros f; tame_auto | apply tame_throw].
  - intros _. destruct (truthy id); [apply tame_sendResponse | apply tame_ret].
Qed.

Lemma tame_handle_listen H path id : tame (handle_listen H path id).
Proof.
  unfold handle_listen.
  apply tame_bind; [apply tame_read_priv|]. intros p.
  apply tame_bind; [apply tame_lift|]. intros key.
  apply tame_bind.
  - destruct (truthy (read_table H (eventSenders p) key)); [apply tame_ret|].
    apply tame_bind; [apply tame_parsePath|]. intros pd.
    apply tame_bind; [tame_auto|]. intros _.
    apply tame_bind; [apply tame_call_member | intros _; apply tame_ret].
  - intros _. destruct (truthy id); [apply tame_sendResponse | apply tame_ret].
Qed.

Lemma tame_handle_unlisten H path id : tame (handle_unlisten H path id).
Proof.
  unfold handle_unlisten.
  apply tame_bind; [apply tame_read_priv|]. intros p.
  apply tame_bind; [apply tame_lift|]. intros key. cbv zeta.
  apply tame_bind.
  - destruct (truthy (read_table H (eventSenders p) key)); [|apply tame_ret].
    apply tame_bind; [apply tame_parsePath|]. intros pd.
    apply tame_bind; [apply tame_call_member|]. intros _. tame_auto.
  - intros _. destruct (truthy id); [apply tame_sendResponse | apply tame_ret].
Qed.

Lemma tame_handle_unknown type : tame (handle_unknown type).
Proof. unfold handle_unknown. tame_auto. Qed.

Lemma tame_is_logging : tame is_logging.
Proof. intros r s HI. split; [exact HI | reflexivity]. Qed.

Lemma tame_on_exception id ex : tame (on_exception id ex).
Proof.
  unfold on_exception.
  apply tame_bind; [apply tame_is_logging|]. intros logging.
  apply tame_bind; [destruct logging; tame_auto|]. intros _.
  apply tame_bind; [apply tame_lift|]. intros _.
  apply tame_bind; [apply tame_emit; reflexivity|]. intros _.
  destruct (truthy id); [apply tame_sendResponse | apply tame_ret].
Qed.

Lemma tame_handle_put message path id : tame (handle_put message path id).
Proof.
  intros r s HI. unfold handle_put.
  rewrite bind_eq, parsePath_eq.
  destruct (resolve s path) as [pd|ex] eqn:Er; [|split; [exact HI | reflexivity]].
  destruct (resolve_inv _ _ _ Er) as (p & parts & Hp & Hwalk & Htrail & _).
  unfold store_back. unfold_M.
  destruct (get_member message "body") as [body|ex]; cbn [fst snd];
    [|split; [exact HI | reflexivity]].
  destruct (set_member (obj pd) (prop pd) body) as [o'|ex] eqn:Es; cbn [fst snd];
    [|split; [exact HI | reflexivity]].
  rewrite Hp.
  match goal with
  | |- context [sendResponse id VUndefined ?s1] =>
      assert (HI1 : Inv r s1); [|
        destruct (tame_sendResponse id VUndefined r s1 HI1) as [HI2 Hids];
        destruct (sendResponse id VUndefined s1) as [[s2 tr2] r2];
        cbn [fst snd] in *; split; [exact HI2 | exact Hids] ]
  end.
  unfold Inv in *. rewrite Hp in HI. cbn.
  destruct (in_connection pd); cbn; exact HI.
Qed.

Lemma tame_dispatch H rq : tame (dispatch H rq).
Proof.
  unfold dispatch. destruct (in_type rq); try apply tame_handle_unknown.
  repeat match goal with
         | |- tame (if ?b then _ else _) => destruct b
         end;
    first [ apply tame_handle_get | apply tame_handle_put | apply tame_handle_post
          | apply tame_handle_resp | apply tame_handle_event
          | apply tame_handle_listen | apply tame_handle_unlisten
          | apply tame_handle_unknown ].
Qed.

Lemma tame_prelude d : tame (prelude d).
Proof. unfold prelude. destruct d; tame_auto. Qed.

(** Handling a frame leaves the counter of correlation ids alone and sends
    no request with an id. *)
Lemma tame_socketMessage H d : tame (socketMessage H d).
Proof.
  unfold socketMessage.
  apply tame_bind; [apply tame_log_if|]. intros _.
  apply tame_bind; [apply tame_attempt, tame_prelude|]. intros [[rq|]|ex].
  - apply tame_bind; [apply tame_attempt, tame_dispatch|]. intros [[]|ex].
    + apply tame_ret.
    + apply tame_on_exception.
  - apply tame_ret.
  - apply tame_on_exception.
Qed.

(* ===================================================================== *)
(** ** Correlation ids (C2)                                                *)
(* ===================================================================== *)

Lemma request_ids_log_events s ls : request_ids (log_events s ls) = [].
Proof.
  unfold log_events. destruct (log s); [|reflexivity].
  induction ls; [reflexivity|assumption].
Qed.

Lemma request_id_request type id path body :
  String.eqb type "resp" = false ->
  request_id (Sent (TextFrame (request type id path body))) =
    match id with
    | VNum n => Some n
    | _ => None
    end.
Proof.
  intros Ht. unfold request_id, request.
  change (lookup_prop "$type" _) with (VStr type).
  change (lookup_prop "id" _) with id.
  cbv beta iota. rewrite Ht. destruct id; reflexivity.
Qed.

(** The id [sendRequest] allocates follows the counter. *)
Lemma next_id_follows r :
  0 <= r <= 0x7FFFFFFF ->
  follows r (if r + 1 >? 0x7FFFFFFF then 1 else r + 1).
Proof.
  intros Hr. unfold follows.
  destruct (Z.gtb_spec (r + 1) 0x7FFFFFFF); lia.
Qed.

Lemma follows_range r id : follows r id -> 0 <= id <= 0x7FFFFFFF.
Proof. unfold follows. lia. Qed.

(** A request that expects a response: the counter moves on, with the wrap
    after 0x7FFFFFFF, and the continuation is filed under the new id. *)
Lemma sendRequest_with_oncomplete p lg type path cb body :
  let id := if requestId p + 1 >? 0x7FFFFFFF then 1 else requestId p + 1 in
  sendRequest type path (Some cb) body (MkCogSocket (Some p) lg) =
    (MkCogSocket
       (Some (set_pendingRequests
                (<[pretty id := MkPendingRequest id cb]> (pendingRequests p))
                (set_requestId id p)))
       lg,
     request_events (MkCogSocket (Some p) lg) (request type (VNum id) path body),
     Ret (VNum id)).
Proof. destruct lg; reflexivity. Qed.

Lemma request_ids_singleton e :
  request_ids [e] = match request_id e with Some n => [n] | None => [] end.
Proof. unfold request_ids. cbn -[request_id]. destruct (request_id e); reflexivity. Qed.

Lemma request_ids_request_events s type id path body :
  String.eqb type "resp" = false ->
  request_ids (request_events s (request type id path body)) =
    match id with
    | VNum n => [n]
    | _ => []
    end.
Proof.
  intros Ht. unfold request_events. rewrite request_ids_app, request_ids_log_events.
  rewrite app_nil_l, request_ids_singleton.
  rewrite request_id_request by exact Ht. destruct id; reflexivity.
Qed.

(** [sendRequest] allocates an id exactly when a continuation is given, and
    the id is the one after the counter. *)
Lemma sendRequest_step type path oc body r s :
  String.eqb type "resp" = false ->
  0 <= r <= 0x7FFFFFFF ->
  Inv r s ->
  step_ok r (sendRequest type path oc body s).
Proof.
  intros Ht Hr HI. unfold Inv in HI.
  destruct s as [[p|] lg]; cbn in HI.
  - rename HI into Hrid. destruct oc as [cb|].
    + right. exists (if r + 1 >? 0x7FFFFFFF then 1 else r + 1).
      rewrite sendRequest_with_oncomplete. cbn [fst snd]. rewrite Hrid.
      split; [|split].
      * rewrite request_ids_request_events by exact Ht. reflexivity.
      * apply next_id_follows; exact Hr.
      * unfold Inv. cbn. auto.
    + left. rewrite sendRequest_no_oncomplete. cbn [fst snd]. split.
      * rewrite request_ids_request_events by exact Ht. reflexivity.
      * unfold Inv. cbn. auto.
  - left. destruct oc; cbn; auto.
Qed.

Lemma step_ok_tame_then {A B} (m : M A) (k : A -> M B) r s :
  tame m -> Inv r s ->
  (forall a s1, Inv r s1 -> step_ok r (k a s1)) ->
  step_ok r ((m ≫= k) s).
Proof.
  intros Hm HI Hk. rewrite bind_eq.
  destruct (Hm r s HI) as [HI1 Hids1].
  destruct (m s) as [[s1 e1] [a|ex]]; cbn [fst snd] in *.
  - specialize (Hk a s1 HI1). destruct (k a s1) as [[s2 e2] r2].
    unfold step_ok in *. cbn [fst snd] in *.
    rewrite request_ids_app, Hids1. exact Hk.
  - left. cbn. auto.
Qed.

Lemma step_ok_then_tame {A B} (m : M A) (k : A -> M B) r s :
  step_ok r (m s) -> (forall a, tame (k a)) ->
  step_ok r ((m ≫= k) s).
Proof.
  intros Hm Hk. rewrite bind_eq.
  destruct (m s) as [[s1 e1] [a|ex]]; [|exact Hm].
  unfold step_ok in *. cbn [fst snd] in *.
  destruct Hm as [[Hids HI] | (id & Hids & Hf & HI)].
  - destruct (Hk a r s1 HI) as [HI2 Hids2].
    destruct (k a s1) as [[s2 e2] r2]. cbn [fst snd] in *.
    left. rewrite request_ids_app, Hids, Hids2. auto.
  - destruct (Hk a id s1 HI) as [HI2 Hids2].
    destruct (k a s1) as [[s2 e2] r2]. cbn [fst snd] in *.
    right. exists id. rewrite request_ids_app, Hids, Hids2. auto.
Qed.

Lemma step_ok_tame {A} (m : M A) r s : tame m -> Inv r s -> step_ok r (m s).
Proof. intros Hm HI. left. destruct (Hm r s HI). auto. Qed.

Lemma tame_notify H oc : tame (notify H oc).
Proof. unfold notify. tame_auto. Qed.

(** Every operation on the engine allocates at most one correlation id, the
    one after the counter. *)
Lemma run_op_step H o r s :
  0 <= r <= 0x7FFFFFFF -> Inv r s -> step_ok r (run_op H o s).
Proof.
  intros Hr HI. destruct o; cbn [run_op].
  - unfold get. apply step_ok_then_tame; [|intros; apply tame_ret].
    apply sendRequest_step; auto.
  - unfold put. apply step_ok_then_tame; [|intros; apply tame_ret].
    apply sendRequest_step; auto.
  - unfold post. apply step_ok_then_tame; [|intros; apply tame_ret].
    apply sendRequest_step; auto.
  - unfold addListener.
    apply step_ok_tame_then; [apply tame_read_priv | exact HI |]. intros p s1 HI1.
    destruct (table_get (listeners p) path) as [ls|len|].
    + apply step_ok_tame; [|exact HI1].
      apply tame_bind; [tame_auto | intros _; apply tame_notify].
    + apply step_ok_tame; [apply tame_throw | exact HI1].
    + apply step_ok_tame_then; [tame_auto | exact HI1 |]. intros _ s2 HI2.
      apply step_ok_then_tame; [|intros; apply tame_ret].
      apply sendRequest_step; auto.
  - unfold removeListener.
    apply step_ok_tame_then; [apply tame_read_priv | exact HI |]. intros p s1 HI1.
    destruct (table_get (listeners p) path) as [ls|len|];
      [| |apply step_ok_tame; [apply tame_notify | exact HI1]].
    + cbv zeta.
      apply step_ok_tame_then; [tame_auto | exact HI1 |]. intros _ s2 HI2.
      match goal with
      | |- step_ok _ ((if ?b then _ else _) _) => destruct b
      end.
      * apply step_ok_tame_then; [tame_auto | exact HI2 |]. intros _ s3 HI3.
        apply step_ok_then_tame; [|intros; apply tame_ret].
        apply sendRequest_step; auto.
      * apply step_ok_tame; [apply tame_notify | exact HI2].
    + match goal with
      | |- step_ok _ ((if ?b then _ else _) _) => destruct b
      end.
      * apply step_ok_then_tame; [|intros; apply tame_ret].
        apply sendRequest_step; auto.
      * apply step_ok_tame; [apply tame_notify | exact HI1].
  - left. unfold close, Inv in *.
    destruct (_priv s) eqn:Ep; cbn [fst snd _priv]; [split; [reflexivity | exact I]|].
    rewrite Ep. split; [reflexivity | exact I].
  - left. unfold Inv in *. cbn [fst snd _priv]. split; [reflexivity | exact HI].
  - apply step_ok_tame; [apply tame_socketMessage | exact HI].
Qed.

Lemma ids_chain_cons_app r id rest :
  follows r id -> ids_chain id rest -> ids_chain r ([id] ++ rest).
Proof. cbn. auto. Qed.

Lemma run_ops_chain H ops : forall r s,
  0 <= r <= 0x7FFFFFFF -> Inv r s ->
  ids_chain r (request_ids (snd (run_ops H ops s))) /\
  exists r', Inv r' (fst (run_ops H ops s)).
Proof.
  induction ops as [|o ops IH]; intros r s Hr HI.
  - cbn. split; [exact I | eauto].
  - cbn [run_ops].
    pose proof (run_op_step H o r s Hr HI) as Hstep.
    destruct (run_op H o s) as [[s1 tr1] r1].
    unfold step_ok in Hstep. cbn [fst snd] in Hstep.
    destruct Hstep as [[Hids HI1] | (id & Hids & Hf & HI1)].
    + destruct (IH r s1 Hr HI1) as [Hchain Hinv].
      destruct (run_ops H ops s1) as [s2 tr2]. cbn [fst snd] in *.
      rewrite request_ids_app, Hids. auto.
    + destruct (IH id s1 (follows_range _ _ Hf) HI1) as [Hchain Hinv].
      destruct (run_ops H ops s1) as [s2 tr2]. cbn [fst snd] in *.
      rewrite request_ids_app, Hids. split; [|exact Hinv].
      apply ids_chain_cons_app; assumption.
Qed.

(** C2.  Take any engine and any history of it: calls of its interface and
    inbound frames, in any order.  The correlation ids of the requests it
    sends, in the order they are allocated, start after 0 and each follows
    the one before: it lies between 1 and 0x7FFFFFFF, so is never 0; it is
    the previous id plus one, so strictly greater, as long as the previous id
    is below 0x7FFFFFFF; and it is 1 when the previous id is 0x7FFFFFFF.
    In particular a request sent when the counter stands at 0x7FFFFFFF gets
    the id 1. *)
Theorem correlation_ids_follow_one_another H root space ops :
  ids_chain 0 (request_ids (snd (run_ops H ops (new_CogSocket root space)))) /\
  (forall p lg type path cb body,
     snd (sendRequest type path (Some cb) body
            (MkCogSocket (Some (set_requestId 0x7FFFFFFF p)) lg)) = Ret (VNum 1)).
Proof.
  split.
  - apply run_ops_chain.
    + lia.
    + unfold Inv. cbn. auto.
  - intros p lg type path cb body. rewrite sendRequest_with_oncomplete. reflexivity.
Qed.

(* ===================================================================== *)
(** ** The connection object (C9)                                          *)
(* ===================================================================== *)

Lemma set_connection_same p : set_connection (connection p) p = p.
Proof. destruct p; reflexivity. Qed.

Lemma substr_0_2_prefix a b rest :
  substr_0_2 (String a (String b rest)) = String a (String b EmptyString).
Proof. unfold substr_0_2. destruct rest; reflexivity. Qed.

(** A path ["@/name"] resolves to the member [name] of the connection
    object. *)
Lemma resolve_connection_member s p rest name :
  _priv s = Some p ->
  connection p = ConnectionObject ->
  split "/" (strip_trailing_slash rest) = [name] ->
  resolve s (VStr ("@/" +:+ rest)) = Ret (MkParsed ConnectionObject name true []).
Proof.
  intros Hp Hconn Hsplit. destruct s as [pv lg]; cbn in Hp; subst pv.
  change ("@/" +:+ rest) with (String "@"%char (String "/"%char rest)).
  unfold resolve, parsePath, path_prefix. unfold_M.
  rewrite substr_0_2_prefix.
  cbn -[split strip_trailing_slash]. rewrite Hconn.
  cbn -[split strip_trailing_slash]. rewrite Hsplit. reflexivity.
Qed.

(** C9 fails in the code.  [Object.freeze] freezes the connection object
    but not the function it holds, and the remote side reaches that function
    through the path ["@/hello/x"]: on a new engine a put to that path with
    id 7 and body 5 is not rejected but answered with an ordinary response,
    and it gives the function [hello] of the connection object the member
    [x], which a get for the same path then reads back.  A put to a member
    of the connection object itself, ["@/foo"], changes nothing but is not
    rejected either: it is answered with an ordinary response. *)
Theorem connection_object_is_changed_by_a_put :
  let changed :=
    MkCogSocket
      (Some (MkPriv example_root (VNum 2) 0 ∅ ∅ ∅
               (VObj true [("hello", VWith CHello [("x", VNum 5)])])
               VUndefined VUndefined)) false in
  socketMessage example_host (example_message "put" (VNum 7) "@/hello/x" (VNum 5))
    example_engine
  = (changed, [Sent (TextFrame (response (VNum 7) VUndefined))], Ret tt) /\
  ~ answers_with_error example_host example_engine
      (example_message "put" (VNum 7) "@/hello/x" (VNum 5)) (VNum 7) /\
  socketMessage example_host (example_message "get" (VNum 8) "@/hello/x" VUndefined)
    changed
  = (changed, [Sent (TextFrame (response (VNum 8) (VNum 5)))], Ret tt) /\
  socketMessage example_host (example_message "put" (VNum 7) "@/foo" (VNum 3))
    example_engine
  = (example_engine, [Sent (TextFrame (response (VNum 7) VUndefined))], Ret tt).
Proof.
  intros changed. split; [reflexivity|]. split; [|split; reflexivity].
  intros (f & Hin & _ & Herr).
  cbn in Hin. destruct Hin as [<- | []]. discriminate.
Qed.

(* ===================================================================== *)
(** ** Exceptions that are not Error objects (C3)                          *)
(* ===================================================================== *)

(** C3 fails in the code where the exception is not an Error object.  The
    member [bad] of the example throws the string ["bad"]: a post to it with
    id 7 is answered with a response that has the string as body and no
    error code.  The member [worse] throws [null]: the [catch] block reads
    [ex.stack], which throws, and that exception leaves the handler. *)
Theorem exception_that_is_no_Error_object :
  socketMessage example_host (example_message "post" (VNum 7) "a/b/bad" VNull)
    example_engine
  = (example_engine,
     [Invoked 1 (VObj false [("op", VFun 0); ("bad", VFun 1); ("worse", VFun 2)]) [VNull];
      ConsoleLogStack (VStr "bad");
      Sent (TextFrame (response (VNum 7) (VStr "bad")))],
     Ret tt) /\
  ~ answers_with_error example_host example_engine
      (example_message "post" (VNum 7) "a/b/bad" VNull) (VNum 7) /\
  exists ex,
    snd (socketMessage example_host (example_message "post" (VNum 7) "a/b/worse" VNull)
           example_engine) = Throw ex.
Proof.
  split; [reflexivity|]. split.
  - intros (f & Hin & _ & Herr).
    cbn in Hin. destruct Hin as [<- | []]. discriminate.
  - eexists. reflexivity.
Qed.

(** The engine with a pending request is what a get with a continuation
    leaves behind. *)
Example example_pending_engine_reached :
  fst (fst (get "cam0/hmi/state" (Some 5%nat) example_engine)) = example_pending_engine.
Proof. vm_compute. reflexivity. Qed.

(* ===================================================================== *)
(** ** What an inbound frame cannot do                                     *)
(* ===================================================================== *)

Lemma frame_kept_refl p : frame_kept p p.
Proof. unfold frame_kept. auto. Qed.

Lemma frame_kept_trans p1 p2 p3 :
  frame_kept p1 p2 -> frame_kept p2 p3 -> frame_kept p1 p3.
Proof.
  unfold frame_kept. intros (Ha & Hb & Hc & Hd) (Ha' & Hb' & Hc' & Hd').
  repeat split; try congruence. etrans; eassumption.
Qed.

Lemma engine_kept_refl s : engine_kept s s.
Proof.
  unfold engine_kept. split; [reflexivity|].
  destruct (_priv s); [apply frame_kept_refl | exact I].
Qed.

Lemma engine_kept_trans s1 s2 s3 :
  engine_kept s1 s2 -> engine_kept s2 s3 -> engine_kept s1 s3.
Proof.
  unfold engine_kept. intros [Hl Hp] [Hl' Hp']. split; [congruence|].
  destruct (_priv s1), (_priv s2), (_priv s3); try contradiction; auto.
  eapply frame_kept_trans; eassumption.
Qed.

Lemma replies_only_ret {A} (a : A) : replies_only (mret a).
Proof. intros s. split; [apply engine_kept_refl | constructor]. Qed.

Lemma replies_only_throw {A} ex : replies_only (@throw A ex).
Proof. intros s. split; [apply engine_kept_refl | constructor]. Qed.

Lemma replies_only_lift {A} (o : outcome A) : replies_only (lift o).
Proof. intros s. split; [apply engine_kept_refl | constructor]. Qed.

Lemma replies_only_emit e : reply_event e -> replies_only (emit e).
Proof. intros He s. split; [apply engine_kept_refl | repeat constructor; exact He]. Qed.

Lemma replies_only_log_if l : replies_only (log_if l).
Proof.
  intros s. split; [apply engine_kept_refl|]. cbn.
  destruct (log s); repeat constructor.
Qed.

Lemma replies_only_is_logging : replies_only is_logging.
Proof. intros s. split; [apply engine_kept_refl | constructor]. Qed.

Lemma replies_only_read_priv : replies_only read_priv.
Proof.
  intros s. unfold read_priv.
  destruct (_priv s); (split; [apply engine_kept_refl | constructor]).
Qed.

Lemma replies_only_modify_priv f :
  (forall p, frame_kept p (f p)) -> replies_only (modify_priv f).
Proof.
  intros Hf s. unfold modify_priv.
  destruct (_priv s) as [p|] eqn:Ep; cbn [fst snd].
  - split; [|constructor]. unfold engine_kept. cbn. rewrite Ep. auto.
  - split; [apply engine_kept_refl | constructor].
Qed.

Lemma replies_only_bind {A B} (m : M A) (k : A -> M B) :
  replies_only m -> (forall a, replies_only (k a)) -> replies_only (m ≫= k).
Proof.
  intros Hm Hk s. rewrite bind_eq.
  destruct (Hm s) as [H1 Q1].
  destruct (m s) as [[s1 e1] [a|ex]]; cbn [fst snd] in *; [|auto].
  destruct (Hk a s1) as [H2 Q2].
  destruct (k a s1) as [[s2 e2] r2]; cbn [fst snd] in *.
  split; [eapply engine_kept_trans; eassumption|].
  apply Forall_app; auto.
Qed.

Lemma replies_only_attempt {A} (m : M A) : replies_only m -> replies_only (attempt m).
Proof.
  intros Hm s. unfold attempt. destruct (Hm s) as [H1 Q1].
  destruct (m s) as [[s1 e1] o]; cbn [fst snd] in *. auto.
Qed.

Lemma replies_only_for_each {A} (f : A -> M unit) l :
  (forall a, replies_only (f a)) -> replies_only (for_each f l).
Proof.
  intros Hf. induction l as [|x l IH]; cbn [for_each].
  - apply replies_only_ret.
  - apply replies_only_bind; [apply Hf | intros _; exact IH].
Qed.

Ltac frame_kept_auto :=
  intros ?; unfold frame_kept; cbn;
  repeat split; try reflexivity; try apply delete_subseteq.

Ltac replies_step :=
  first
    [ apply replies_only_ret
    | apply replies_only_throw
    | apply replies_only_lift
    | apply replies_only_log_if
    | apply replies_only_is_logging
    | apply replies_only_read_priv
    | apply replies_only_emit; exact I
    | apply replies_only_modify_priv; frame_kept_auto
    | apply replies_only_attempt
    | apply replies_only_for_each; intros ?
    | apply replies_only_bind; [|intros ?]
    | match goal with
      | |- replies_only (if ?b then _ else _) => destruct b
      | |- replies_only (match ?x with _ => _ end) => destruct x
      | |- replies_only (let _ := _ in _) => cbv zeta
      end ].

Ltac replies_auto := repeat replies_step.

Lemma replies_only_sendResponse id body : replies_only (sendResponse id body).
Proof.
  unfold sendResponse. destruct (truthy id); [|apply replies_only_ret].
  destruct body; cbv zeta;
    (apply replies_only_bind; [apply replies_only_read_priv|]; intros _;
     apply replies_only_bind; [apply replies_only_log_if|]; intros _;
     apply replies_only_emit; left; reflexivity).
Qed.

Lemma replies_only_parsePath path : replies_only (parsePath path).
Proof.
  intros s. rewrite parsePath_eq. split; [apply engine_kept_refl | constructor].
Qed.

Lemma replies_only_store_back pd o : replies_only (store_back pd o).
Proof.
  unfold store_back. apply replies_only_modify_priv.
  intros p. destruct (in_connection pd); unfold frame_kept; cbn; auto.
Qed.

Lemma replies_only_hello H info : replies_only (hello H info).
Proof. unfold hello. replies_auto. Qed.

Lemma replies_only_sender path args : replies_only (sender path args).
Proof.
  unfold sender. destruct args as [|a [|b args]]; cbv zeta;
    (apply replies_only_bind; [apply replies_only_log_if|]; intros _;
     apply replies_only_bind; [|intros _; apply replies_only_ret];
     apply replies_only_emit; right; reflexivity).
Qed.

Lemma replies_only_call_function H f this args :
  replies_only (call_function H f this args).
Proof.
  unfold call_function.
  destruct (callee f) as [[id| |path]|];
    [replies_auto | apply replies_only_hello | apply replies_only_sender
    | apply replies_only_throw].
Qed.

Lemma replies_only_call_member H o name args :
  replies_only (call_member H o name args).
Proof.
  unfold call_member. apply replies_only_bind; [apply replies_only_lift|].
  intros m. apply replies_only_call_function.
Qed.

Lemma replies_only_handle_get path id : replies_only (handle_get path id).
Proof.
  unfold handle_get. apply replies_only_bind; [apply replies_only_parsePath|].
  intros pd. apply replies_only_bind; [apply replies_only_lift|].
  intros v. apply replies_only_sendResponse.
Qed.

Lemma replies_only_handle_put message path id :
  replies_only (handle_put message path id).
Proof.
  unfold handle_put. apply replies_only_bind; [apply replies_only_parsePath|].
  intros pd. apply replies_only_bind; [apply replies_only_lift|]. intros body.
  apply replies_only_bind; [apply replies_only_lift|]. intros o.
  apply replies_only_bind; [apply replies_only_store_back|]. intros _.
  apply replies_only_sendResponse.
Qed.

Lemma replies_only_handle_post H message path id :
  replies_only (handle_post H message path id).
Proof.
  unfold handle_post. apply replies_only_bind; [apply replies_only_parsePath|].
  intros pd. apply replies_only_bind; [apply replies_only_lift|]. intros method.
  apply replies_only_bind; [apply replies_only_lift|]. intros body.
  apply replies_only_bind; [|intros v; apply replies_only_sendResponse].
  unfold method_apply, method_call.
  destruct body; destruct (is_function method);
    first [apply replies_only_call_function | apply replies_only_call_member].
Qed.

Lemma replies_only_handle_resp H message : replies_only (handle_resp H message).
Proof. unfold handle_resp, complete. replies_auto. Qed.

Lemma replies_only_handle_event H message path id :
  replies_only (handle_event H message path id).
Proof.
  unfold handle_event.
  apply replies_only_bind; [apply replies_only_lift|]. intros body. cbv zeta.
  apply replies_only_bind; [apply replies_only_read_priv|]. intros p.
  apply replies_only_bind; [apply replies_only_lift|]. intros key.
  apply replies_only_bind.
  - destruct (table_get (listeners p) key) as [ls|[[|n]|]|]; try apply replies_only_ret;
      [apply replies_only_for_each; intros f; replies_auto | apply replies_only_throw].
  - intros _. destruct (truthy id);
      [apply replies_only_sendResponse | apply replies_only_ret].
Qed.

Lemma replies_only_handle_listen H path id : replies_only (handle_listen H path id).
Proof.
  unfold handle_listen.
  apply replies_only_bind; [apply replies_only_read_priv|]. intros p.
  apply replies_only_bind; [apply replies_only_lift|]. intros key.
  apply replies_only_bind.
  - destruct (truthy (read_table H (eventSenders p) key)); [apply replies_only_ret|].
    apply replies_only_bind; [apply replies_only_parsePath|]. intros pd.
    apply replies_only_bind; [replies_auto|]. intros _.
    apply replies_only_bind;
      [apply replies_only_call_member | intros _; apply replies_only_ret].
  - intros _. destruct (truthy id);
      [apply replies_only_sendResponse | apply replies_only_ret].
Qed.

Lemma replies_only_handle_unlisten H path id :
  replies_only (handle_unlisten H path id).
Proof.
  unfold handle_unlisten.
  apply replies_only_bind; [apply replies_only_read_priv|]. intros p.
  apply replies_only_bind; [apply replies_only_lift|]. intros key. cbv zeta.
  apply replies_only_bind.
  - destruct (truthy (read_table H (eventSenders p) key)); [|apply replies_only_ret].
    apply replies_only_bind; [apply replies_only_parsePath|]. intros pd.
    apply replies_only_bind; [apply replies_only_call_member|]. intros _.
    replies_auto.
  - intros _. destruct (truthy id);
      [apply replies_only_sendResponse | apply replies_only_ret].
Qed.

Lemma replies_only_handle_unknown type : replies_only (handle_unknown type).
Proof. unfold handle_unknown. replies_auto. Qed.

Lemma replies_only_on_exception id ex : replies_only (on_exception id ex).
Proof.
  unfold on_exception.
  apply replies_only_bind; [apply replies_only_is_logging|]. intros logging.
  apply replies_only_bind; [destruct logging; replies_auto|]. intros _.
  apply replies_only_bind; [apply replies_only_lift|]. intros _.
  apply replies_only_bind; [apply replies_only_emit; exact I|]. intros _.
  destruct (truthy id); [apply replies_only_sendResponse | apply replies_only_ret].
Qed.

Lemma replies_only_dispatch H rq : replies_only (dispatch H rq).
Proof.
  unfold dispatch. destruct (in_type rq); try apply replies_only_handle_unknown.
  repeat match goal with
         | |- replies_only (if ?b then _ else _) => destruct b
         end;
    first [ apply replies_only_handle_get | apply replies_only_handle_put
          | apply replies_only_handle_post | apply replies_only_handle_resp
          | apply replies_only_handle_event | apply replies_only_handle_listen
          | apply replies_only_handle_unlisten | apply replies_only_handle_unknown ].
Qed.

Lemma replies_only_prelude d : replies_only (prelude d).
Proof.
  unfold prelude. destruct d.
  - apply replies_only_bind; [apply replies_only_read_priv|]. intros _.
    apply replies_only_bind; [apply replies_only_emit; reflexivity|]. intros _.
    apply replies_only_ret.
  - replies_auto.
Qed.

Lemma replies_only_socketMessage H d : replies_only (socketMessage H d).
Proof.
  unfold socketMessage.
  apply replies_only_bind; [apply replies_only_log_if|]. intros _.
  apply replies_only_bind; [apply replies_only_attempt, replies_only_prelude|].
  intros [[rq|]|ex].
  - apply replies_only_bind; [apply replies_only_attempt, replies_only_dispatch|].
    intros [[]|ex].
    + apply replies_only_ret.
    + apply replies_only_on_exception.
  - apply replies_only_ret.
  - apply replies_only_on_exception.
Qed.


(* ===================================================================== *)
(** ** Remote subscriptions over every history                             *)
(* ===================================================================== *)

Lemma is_request_for_request_at type type' path q id body :
  is_request_for type q (TextFrame (request type' id path body))
  = (String.eqb type' type && String.eqb path q)%bool.
Proof.
  unfold is_request_for, request.
  change (lookup_prop "$type" _) with (VStr type').
  change (lookup_prop "path" _) with (VStr path).
  reflexivity.
Qed.

Lemma count_requests_request_events_at type type' path q s id body :
  count_requests type q (request_events s (request type' id path body))
  = (if (String.eqb type' type && String.eqb path q)%bool then 1 else 0)%nat.
Proof.
  unfold request_events. rewrite filter_requests_log_events.
  unfold count_requests.
  change (sent_frames [Sent (TextFrame (request type' id path body))])
    with [TextFrame (request type' id path body)].
  rewrite filter_cons, is_request_for_request_at.
  destruct (String.eqb type' type && String.eqb path q)%bool; cbn.
  - rewrite decide_True by reflexivity. reflexivity.
  - rewrite decide_False by discriminate. reflexivity.
Qed.

Lemma count_requests_nil type path : count_requests type path [] = 0%nat.
Proof. reflexivity. Qed.

Lemma is_request_for_reply type path fr props :
  lookup_prop "$type" props = VStr "resp" \/ lookup_prop "$type" props = VStr "event" ->
  String.eqb type "resp" = false -> String.eqb type "event" = false ->
  is_request_for type path (TextFrame (VObj fr props)) = false.
Proof.
  intros Hrep Hr He. unfold is_request_for.
  rewrite String.eqb_sym in Hr. rewrite String.eqb_sym in He.
  destruct Hrep as [-> | ->]; destruct (lookup_prop "path" props);
    rewrite ?Hr, ?He; reflexivity.
Qed.

(** A reply is no listen and no unlisten request. *)
Lemma count_requests_replies type path tr :
  Forall reply_event tr ->
  String.eqb type "resp" = false -> String.eqb type "event" = false ->
  count_requests type path tr = 0%nat.
Proof.
  intros Hall Hr He. induction Hall as [|e tr Hrep _ IH]; [reflexivity|].
  change (e :: tr) with ([e] ++ tr). rewrite count_requests_app, IH, Nat.add_0_r.
  destruct e as [f| | | | |]; try reflexivity.
  destruct f as [json|bytes]; [|reflexivity].
  destruct json; try contradiction.
  unfold count_requests.
  change (sent_frames [Sent (TextFrame (VObj frozen props))])
    with [TextFrame (VObj frozen props)].
  rewrite filter_cons, decide_False; [reflexivity|].
  rewrite (is_request_for_reply type path frozen props Hrep Hr He). discriminate.
Qed.

(** [sendRequest] on an open engine: one request goes out and the listeners
    stay. *)
Lemma sendRequest_open p lg type path oc body :
  exists p' id,
    sendRequest type path oc body (MkCogSocket (Some p) lg)
    = (MkCogSocket (Some p') lg,
       request_events (MkCogSocket (Some p) lg) (request type id path body),
       Ret id) /\
    listeners p' = listeners p.
Proof.
  destruct oc as [cb|].
  - eexists _, _. rewrite sendRequest_with_oncomplete. split; reflexivity.
  - eexists _, _. rewrite sendRequest_no_oncomplete. split; reflexivity.
Qed.

Lemma sendRequest_closed lg type path oc body :
  exists ex,
    sendRequest type path oc body (MkCogSocket None lg)
    = (MkCogSocket None lg, [], Throw ex).
Proof. destruct oc; eexists; reflexivity. Qed.

Lemma notify_effect H oc s :
  fst (fst (notify H oc s)) = s /\ sent_frames (snd (fst (notify H oc s))) = [].
Proof.
  unfold notify. destruct oc as [cb|]; [|split; reflexivity].
  unfold_M. destruct (host_callback H cb []); split; reflexivity.
Qed.

Lemma count_requests_no_frames type path tr :
  sent_frames tr = [] -> count_requests type path tr = 0%nat.
Proof. unfold count_requests. intros ->. reflexivity. Qed.

Lemma registered_insert p path q ls :
  registered (set_listeners (<[path := ls]> (listeners p)) p) q
  = if String.eqb path q then 1%nat else registered p q.
Proof.
  unfold registered. rewrite listeners_set_listeners.
  destruct (String.eqb path q) eqn:E.
  - apply String.eqb_eq in E. subst q. rewrite lookup_insert_eq. reflexivity.
  - apply String.eqb_neq in E. rewrite lookup_insert_ne by exact E. reflexivity.
Qed.

Lemma registered_delete p path q :
  registered (set_listeners (delete path (listeners p)) p) q
  = if String.eqb path q then 0%nat else registered p q.
Proof.
  unfold registered. rewrite listeners_set_listeners.
  destruct (String.eqb path q) eqn:E.
  - apply String.eqb_eq in E. subst q. rewrite lookup_delete_eq. reflexivity.
  - apply String.eqb_neq in E. rewrite lookup_delete_ne by exact E. reflexivity.
Qed.

Lemma registered_ext p p' q :
  listeners p' = listeners p -> registered p' q = registered p q.
Proof. unfold registered. intros ->. reflexivity. Qed.

Lemma then_tt_effect {A} (m : M A) s :
  fst (fst ((m;; mret tt) s)) = fst (fst (m s)) /\
  snd (fst ((m;; mret tt) s)) = snd (fst (m s)).
Proof.
  rewrite bind_eq. destruct (m s) as [[s1 e1] [a|ex]]; cbn; rewrite ?app_nil_r; auto.
Qed.

Lemma sendRequest_subscription_step type path oc body s q :
  String.eqb type "listen" = false -> String.eqb type "unlisten" = false ->
  subscription_step q s (fst (fst (sendRequest type path oc body s)))
    (snd (fst (sendRequest type path oc body s))).
Proof.
  intros Hl Hu. unfold subscription_step. destruct s as [[p|] lg]; cbn [_priv].
  - destruct (sendRequest_open p lg type path oc body) as (p' & id & -> & Hlis).
    cbn [fst snd _priv]. rewrite !count_requests_request_events_at, Hl, Hu.
    cbn. rewrite (registered_ext _ _ _ Hlis). lia.
  - destruct (sendRequest_closed lg type path oc body) as (ex & ->).
    cbn. auto.
Qed.

Lemma addListener_subscription_step H path f oc s q :
  subscription_step q s (fst (fst (addListener H path f oc s)))
    (snd (fst (addListener H path f oc s))).
Proof.
  unfold subscription_step. destruct s as [[p|] lg]; cbn [_priv]; [|cbn; auto].
  unfold addListener. unfold_M. cbn -[notify sendRequest table_get].
  destruct (listeners p !! path) as [ls|] eqn:El;
    [rewrite (table_get_own _ _ _ El)
    |destruct (inherited path) as [len|] eqn:Ei;
       [rewrite (table_get_inherited _ _ _ El Ei)
       |rewrite (table_get_nothing _ _ El Ei)]];
    cbn -[notify sendRequest].
  - match goal with
    | |- context [notify H oc ?s1] =>
        destruct (notify_effect H oc s1) as [Hst Hfr];
        destruct (notify H oc s1) as [[s2 tr2] r2]
    end.
    cbn [fst snd] in *. subst s2. cbn [_priv].
    rewrite !(count_requests_no_frames _ _ _ Hfr), registered_insert.
    destruct (String.eqb path q) eqn:E; [|lia].
    apply String.eqb_eq in E. subst q. unfold registered. rewrite El. lia.
  - lia.
  - match goal with
    | |- context [sendRequest "listen" path oc VUndefined (MkCogSocket (Some ?p1) lg)] =>
        destruct (sendRequest_open p1 lg "listen" path oc VUndefined)
          as (p' & id & -> & Hlis)
    end.
    cbn [fst snd _priv]. rewrite !app_nil_r, !count_requests_request_events_at.
    rewrite (registered_ext _ _ _ Hlis), registered_insert.
    cbn [String.eqb Ascii.eqb Bool.eqb andb].
    destruct (String.eqb path q) eqn:E; cbn; [|lia].
    apply String.eqb_eq in E. subst q. unfold registered. rewrite El. lia.
Qed.

(** A [removeListener] for a path that names a member of Object.prototype
    may send an unlisten request for that path; for every other path the
    requests account for the change of the registration. *)
Lemma removeListener_subscription_step H path l oc s q :
  inherited q = None ->
  subscription_step q s (fst (fst (removeListener H path l oc s)))
    (snd (fst (removeListener H path l oc s))).
Proof.
  intros Hq.
  unfold subscription_step. destruct s as [[p|] lg]; cbn [_priv]; [|cbn; auto].
  unfold removeListener. unfold_M. cbn -[notify sendRequest table_get].
  destruct (listeners p !! path) as [ls|] eqn:El;
    [rewrite (table_get_own _ _ _ El)
    |destruct (inherited path) as [len|] eqn:Ei;
       [rewrite (table_get_inherited _ _ _ El Ei)
       |rewrite (table_get_nothing _ _ El Ei)]];
    cbn -[notify sendRequest].
  - match goal with
    | |- context [if ?b then _ else _] => destruct b
    end; cbn -[notify sendRequest].
    + match goal with
      | |- context [sendRequest "unlisten" path oc VUndefined (MkCogSocket (Some ?p1) lg)] =>
          destruct (sendRequest_open p1 lg "unlisten" path oc VUndefined)
            as (p' & id & -> & Hlis)
      end.
      cbn [fst snd _priv]. rewrite !app_nil_r, !count_requests_request_events_at.
      rewrite (registered_ext _ _ _ Hlis).
      rewrite ?set_listeners_twice, ?listeners_set_listeners, ?delete_insert_eq.
      rewrite registered_delete.
      cbn [String.eqb Ascii.eqb Bool.eqb andb].
      destruct (String.eqb path q) eqn:E; cbn; [|lia].
      apply String.eqb_eq in E. subst q. unfold registered. rewrite El. lia.
    + match goal with
      | |- context [notify H oc ?s1] =>
          destruct (notify_effect H oc s1) as [Hst Hfr];
          destruct (notify H oc s1) as [[s2 tr2] r2]
      end.
      cbn [fst snd] in *. subst s2. cbn [_priv].
      rewrite !(count_requests_no_frames _ _ _ Hfr), registered_insert.
      destruct (String.eqb path q) eqn:E; [|lia].
      apply String.eqb_eq in E. subst q. unfold registered. rewrite El. lia.
  - assert (Hne : String.eqb path q = false).
    { apply String.eqb_neq. intros ->. congruence. }
    match goal with
    | |- context [if ?b then _ else _] => destruct b
    end; cbn -[notify sendRequest].
    + destruct (sendRequest_open p lg "unlisten" path oc VUndefined)
        as (p' & id & -> & Hlis).
      cbn [fst snd _priv]. rewrite !app_nil_r, !count_requests_request_events_at.
      rewrite (registered_ext _ _ _ Hlis), Hne, !andb_false_r. lia.
    + destruct (notify_effect H oc (MkCogSocket (Some p) lg)) as [Hst Hfr].
      destruct (notify H oc (MkCogSocket (Some p) lg)) as [[s2 tr2] r2].
      cbn [fst snd] in *. subst s2. cbn [_priv].
      rewrite !(count_requests_no_frames _ _ _ Hfr). lia.
  - match goal with
    | |- context [notify H oc ?s1] =>
        destruct (notify_effect H oc s1) as [Hst Hfr];
        destruct (notify H oc s1) as [[s2 tr2] r2]
    end.
    cbn [fst snd] in *. subst s2. cbn [_priv].
    rewrite !(count_requests_no_frames _ _ _ Hfr). lia.
Qed.

Lemma socketMessage_subscription_step H d s q :
  subscription_step q s (fst (fst (socketMessage H d s)))
    (snd (fst (socketMessage H d s))).
Proof.
  destruct (replies_only_socketMessage H d s) as [[_ Hk] Hrep].
  unfold subscription_step.
  rewrite !(count_requests_replies _ _ _ Hrep) by reflexivity.
  destruct (_priv s) as [p|], (_priv (fst (fst (socketMessage H d s)))) as [p'|];
    try contradiction; auto.
  destruct Hk as (_ & Hlis & _). rewrite (registered_ext _ _ _ Hlis). lia.
Qed.

Lemma run_op_subscription_step H o s q :
  inherited q = None ->
  subscription_step q s (fst (fst (run_op H o s))) (snd (fst (run_op H o s))).
Proof.
  intros Hq. destruct o; cbn [run_op].
  - unfold get. destruct (then_tt_effect (sendRequest "get" path oncomplete VUndefined) s)
      as [-> ->]. apply sendRequest_subscription_step; reflexivity.
  - unfold put. destruct (then_tt_effect (sendRequest "put" path oncomplete body) s)
      as [-> ->]. apply sendRequest_subscription_step; reflexivity.
  - unfold post. destruct (then_tt_effect (sendRequest "post" path oncomplete body) s)
      as [-> ->]. apply sendRequest_subscription_step; reflexivity.
  - apply addListener_subscription_step.
  - apply removeListener_subscription_step, Hq.
  - unfold subscription_step, close. destruct (_priv s) eqn:Ep; cbn; [auto|].
    rewrite Ep. auto.
  - unfold subscription_step. cbn. destruct (_priv s); auto.
  - apply socketMessage_subscription_step.
Qed.

Lemma run_ops_subscriptions H q ops : inherited q = None -> forall s L U,
  (U <= L <= U + 1)%nat ->
  (forall p, _priv s = Some p -> L = (U + registered p q)%nat) ->
  let res := run_ops H ops s in
  let L' := (L + count_requests "listen" q (snd res))%nat in
  let U' := (U + count_requests "unlisten" q (snd res))%nat in
  (U' <= L' <= U' + 1)%nat /\
  (forall p, _priv (fst res) = Some p -> L' = (U' + registered p q)%nat).
Proof.
  intros Hq. induction ops as [|o ops IH]; intros s L U Hb Hopen.
  - cbn. rewrite !Nat.add_0_r. auto.
  - cbn [run_ops].
    pose proof (run_op_subscription_step H o s q Hq) as Hstep.
    destruct (run_op H o s) as [[s1 tr1] r1]. cbn [fst snd] in Hstep.
    specialize (IH s1 (L + count_requests "listen" q tr1)%nat
                  (U + count_requests "unlisten" q tr1)%nat).
    destruct (run_ops H ops s1) as [s2 tr2]. cbn [fst snd] in *.
    rewrite !count_requests_app, !Nat.add_assoc.
    apply IH; unfold subscription_step in Hstep.
    + destruct (_priv s) as [p|].
      * specialize (Hopen p eq_refl).
        destruct (_priv s1) as [p1|].
        -- assert (registered p1 q <= 1)%nat
             by (unfold registered; destruct (listeners p1 !! q); lia).
           lia.
        -- lia.
      * lia.
    + intros p1 Hp1. destruct (_priv s) as [p|].
      * specialize (Hopen p eq_refl). rewrite Hp1 in Hstep. lia.
      * destruct Hstep as [Hcl _]. congruence.
Qed.

(** X2.  Take a new engine and any history of it: any number of listeners
    added and removed on any paths in any order, and any inbound frames in
    between other than put and post.  For every path that names no member of
    Object.prototype, the listen requests sent for it are at most one more
    than the unlisten requests sent for it, and never fewer; and while the
    engine is open, there is one more exactly when the path has local
    listeners.  So the engine never holds more than one remote subscription
    for such a path, and holds one exactly while the path has local
    listeners.  (A put or post of the remote side can reach
    [Object.prototype] through the object graph and so give the tables of
    the engine new inherited members; the object graph of this development
    has no prototypes, hence such histories are left out.) *)
Theorem at_most_one_remote_subscription H root space ops path :
  inherited path = None ->
  Forall (fun o => remote_write o = false) ops ->
  let res := run_ops H ops (new_CogSocket root space) in
  let listens := count_requests "listen" path (snd res) in
  let unlistens := count_requests "unlisten" path (snd res) in
  (unlistens <= listens <= unlistens + 1)%nat /\
  (forall p, _priv (fst res) = Some p ->
     listens = (unlistens + registered p path)%nat).
Proof.
  intros Hpath _.
  apply (run_ops_subscriptions H path ops Hpath (new_CogSocket root space) 0 0).
  - lia.
  - intros p Hp. inversion Hp; subst. reflexivity.
Qed.

(** Listeners come and go on a path of the example while an event arrives
    and a listener is removed from a path that was never listened to. *)
Lemma at_most_one_remote_subscription_witness :
  let res :=
    run_ops example_host
      [OpAddListener "a/changed" 7 None;
       OpRemoveListener "toString" (Some 7%nat) None;
       OpAddListener "a/changed" 8 None;
       OpMessage (example_message "event" VUndefined "a/changed" (VNum 1));
       OpRemoveListener "a/changed" None None]
      example_engine in
  (count_requests "unlisten" "a/changed" (snd res)
   <= count_requests "listen" "a/changed" (snd res)
   <= count_requests "unlisten" "a/changed" (snd res) + 1)%nat.
Proof.
  intros res.
  refine (proj1 (at_most_one_remote_subscription example_host example_root (VNum 2)
                   [OpAddListener "a/changed" 7 None;
                    OpRemoveListener "toString" (Some 7%nat) None;
                    OpAddListener "a/changed" 8 None;
                    OpMessage (example_message "event" VUndefined "a/changed" (VNum 1));
                    OpRemoveListener "a/changed" None None]
                   "a/changed" _ _)).
  - reflexivity.
  - repeat constructor.
Defined.

(* ===================================================================== *)
(** ** Requests and their responses                                        *)
(* ===================================================================== *)

Lemma notifications_app tr1 tr2 :
  notifications (tr1 ++ tr2) = notifications tr1 ++ notifications tr2.
Proof. unfold notifications. apply omap_app. Qed.

Lemma notifications_log_events s ls : notifications (log_events s ls) = [].
Proof.
  unfold log_events. destruct (log s); [|reflexivity].
  induction ls; [reflexivity|assumption].
Qed.

Lemma notifications_request_events s m : notifications (request_events s m) = [].
Proof.
  unfold request_events. rewrite notifications_app, notifications_log_events.
  reflexivity.
Qed.

Lemma sendRequest_pending_ok type path oc body p lg p' :
  pending_ok p ->
  _priv (fst (fst (sendRequest type path oc body (MkCogSocket (Some p) lg)))) = Some p' ->
  pending_ok p'.
Proof.
  intros [Hr Hok]. destruct oc as [cb|].
  - rewrite sendRequest_with_oncomplete. cbn [fst snd _priv].
    intros Hp'; inversion Hp'; subst p'; clear Hp'.
    pose proof (next_id_follows _ Hr) as [Hid _].
    split; cbn [requestId pendingRequests set_pendingRequests set_requestId]; [lia|].
    intros key pr Hlook.
    destruct (decide (key = pretty (if requestId p + 1 >? 0x7FFFFFFF then 1
                                    else requestId p + 1))) as [-> | Hne].
    + rewrite lookup_insert_eq in Hlook. inversion Hlook; subst pr. cbn. auto.
    + rewrite lookup_insert_ne in Hlook by congruence. apply Hok; exact Hlook.
  - rewrite sendRequest_no_oncomplete. cbn [fst snd _priv].
    intros Hp'; inversion Hp'; subst p'. split; assumption.
Qed.

Lemma pending_ok_set_listeners m p : pending_ok p -> pending_ok (set_listeners m p).
Proof. intros H. exact H. Qed.

Lemma run_op_pending_ok H o s :
  (forall p, _priv s = Some p -> pending_ok p) ->
  forall p', _priv (fst (fst (run_op H o s))) = Some p' -> pending_ok p'.
Proof.
  intros Hok. destruct o; cbn [run_op].
  - unfold get. destruct (then_tt_effect (sendRequest "get" path oncomplete VUndefined) s)
      as [-> _]. destruct s as [[p|] lg].
    + intros p'. apply sendRequest_pending_ok. apply Hok. reflexivity.
    + destruct (sendRequest_closed lg "get" path oncomplete VUndefined) as [ex ->].
      discriminate.
  - unfold put. destruct (then_tt_effect (sendRequest "put" path oncomplete body) s)
      as [-> _]. destruct s as [[p|] lg].
    + intros p'. apply sendRequest_pending_ok. apply Hok. reflexivity.
    + destruct (sendRequest_closed lg "put" path oncomplete body) as [ex ->].
      discriminate.
  - unfold post. destruct (then_tt_effect (sendRequest "post" path oncomplete body) s)
      as [-> _]. destruct s as [[p|] lg].
    + intros p'. apply sendRequest_pending_ok. apply Hok. reflexivity.
    + destruct (sendRequest_closed lg "post" path oncomplete body) as [ex ->].
      discriminate.
  - destruct s as [[p|] lg]; [|cbn; discriminate].
    specialize (Hok p eq_refl).
    unfold addListener. unfold_M. cbn -[notify sendRequest table_get].
    destruct (table_get (listeners p) path) as [ls|len|]; cbn -[notify sendRequest].
    + match goal with
      | |- context [notify H oncomplete ?s1] =>
          destruct (notify_effect H oncomplete s1) as [Hst _];
          destruct (notify H oncomplete s1) as [[s2 tr2] r2]
      end.
      cbn [fst snd] in *. subst s2. cbn.
      intros p' Hp'; inversion Hp'; subst p'. exact Hok.
    + intros p' Hp'; inversion Hp'; subst p'. exact Hok.
    + match goal with
      | |- context [sendRequest "listen" path oncomplete VUndefined
                      (MkCogSocket (Some ?p1) lg)] =>
          pose proof (sendRequest_pending_ok "listen" path oncomplete VUndefined
                        p1 lg) as Hsend;
          destruct (sendRequest "listen" path oncomplete VUndefined
                      (MkCogSocket (Some p1) lg)) as [[s2 tr2] [r2|ex2]]
      end; cbn [fst snd] in *; intros p' Hp'; apply Hsend; auto.
  - destruct s as [[p|] lg]; [|cbn; discriminate].
    specialize (Hok p eq_refl).
    unfold removeListener. unfold_M. cbn -[notify sendRequest table_get].
    destruct (table_get (listeners p) path) as [ls|len|]; cbn -[notify sendRequest].
    + match goal with
      | |- context [if ?b then _ else _] => destruct b
      end; cbn -[notify sendRequest].
      * match goal with
        | |- context [sendRequest "unlisten" path oncomplete VUndefined
                        (MkCogSocket (Some ?p1) lg)] =>
            pose proof (sendRequest_pending_ok "unlisten" path oncomplete VUndefined
                          p1 lg) as Hsend;
            destruct (sendRequest "unlisten" path oncomplete VUndefined
                        (MkCogSocket (Some p1) lg)) as [[s2 tr2] [r2|ex2]]
        end; cbn [fst snd] in *; intros p' Hp'; apply Hsend; auto.
      * match goal with
        | |- context [notify H oncomplete ?s1] =>
            destruct (notify_effect H oncomplete s1) as [Hst _];
            destruct (notify H oncomplete s1) as [[s2 tr2] r2]
        end.
        cbn [fst snd] in *. subst s2. cbn.
        intros p' Hp'; inversion Hp'; subst p'. exact Hok.
    + match goal with
      | |- context [if ?b then _ else _] => destruct b
      end; cbn -[notify sendRequest].
      * pose proof (sendRequest_pending_ok "unlisten" path oncomplete VUndefined
                      p lg) as Hsend.
        destruct (sendRequest "unlisten" path oncomplete VUndefined
                    (MkCogSocket (Some p) lg)) as [[s2 tr2] [r2|ex2]];
          cbn [fst snd] in *; intros p' Hp'; apply Hsend; auto.
      * destruct (notify_effect H oncomplete (MkCogSocket (Some p) lg)) as [Hst _].
        destruct (notify H oncomplete (MkCogSocket (Some p) lg)) as [[s2 tr2] r2].
        cbn [fst snd] in *. subst s2. cbn.
        intros p' Hp'; inversion Hp'; subst p'. exact Hok.
    + match goal with
      | |- context [notify H oncomplete ?s1] =>
          destruct (notify_effect H oncomplete s1) as [Hst _];
          destruct (notify H oncomplete s1) as [[s2 tr2] r2]
      end.
      cbn [fst snd] in *. subst s2. cbn.
      intros p' Hp'; inversion Hp'; subst p'. exact Hok.
  - unfold close. destruct (_priv s) eqn:Ep; cbn; intros p' Hp'; [discriminate|].
    congruence.
  - cbn. exact Hok.
  - destruct (replies_only_socketMessage H d s) as [[_ Hk] _].
    intros p' Hp'. rewrite Hp' in Hk.
    destruct (_priv s) as [p|] eqn:Ep; [|contradiction].
    destruct Hk as (Hrid & _ & _ & Hsub). destruct (Hok p eq_refl) as [Hr Hkeys].
    split; [rewrite Hrid; exact Hr|].
    intros key pr Hlook. apply Hkeys.
    eapply lookup_weaken; eassumption.
Qed.

Lemma run_ops_pending_ok H ops : forall s,
  (forall p, _priv s = Some p -> pending_ok p) ->
  forall p', _priv (fst (run_ops H ops s)) = Some p' -> pending_ok p'.
Proof.
  induction ops as [|o ops IH]; intros s Hok; [exact Hok|].
  cbn [run_ops].
  pose proof (run_op_pending_ok H o s Hok) as Hstep.
  destruct (run_op H o s) as [[s1 tr1] r1]. cbn [fst snd] in Hstep.
  specialize (IH s1 Hstep).
  destruct (run_ops H ops s1) as [s2 tr2]. exact IH.
Qed.

(** X3.  Take any engine and any history of it.  While it is open, its
    counter of correlation ids is between 0 and 0x7FFFFFFF and every pending
    request is filed under the decimal form of its own id, which is between
    1 and 0x7FFFFFFF: so no pending request has the id 0, and no two of them
    have the same id. *)
Theorem pending_requests_have_distinct_ids H root space ops p :
  _priv (fst (run_ops H ops (new_CogSocket root space))) = Some p ->
  pending_ok p /\
  (forall key1 key2 pr1 pr2,
     pendingRequests p !! key1 = Some pr1 ->
     pendingRequests p !! key2 = Some pr2 ->
     pr_requestId pr1 = pr_requestId pr2 -> key1 = key2).
Proof.
  intros Hp.
  assert (Hok : pending_ok p).
  { apply (run_ops_pending_ok H ops (new_CogSocket root space)); [|exact Hp].
    intros p0 Hp0. inversion Hp0; subst p0. split; cbn; [lia|].
    intros key pr Hlook. rewrite lookup_empty in Hlook. discriminate. }
  split; [exact Hok|].
  intros key1 key2 pr1 pr2 H1 H2 Heq.
  destruct Hok as [_ Hkeys].
  destruct (Hkeys _ _ H1) as [-> _]. destruct (Hkeys _ _ H2) as [-> _].
  rewrite Heq. reflexivity.
Qed.

(** Three requests with a continuation and a response in between. *)
Lemma pending_requests_have_distinct_ids_witness :
  let s := fst (run_ops example_host
                  [OpGet "cam0/hmi/state" (Some 5%nat);
                   OpPost "cam0/hmi/openSession" VNull (Some 6%nat);
                   OpMessage (example_message "resp" (VNum 1) "state" (VStr "Idle"));
                   OpPut "mode" (VBool true) (Some 7%nat)]
                  (new_CogSocket example_root (VNum 2))) in
  exists p,
    _priv s = Some p /\
    pending_ok p /\
    pendingRequests p !! "1" = None /\
    pendingRequests p !! "3" = Some (MkPendingRequest 3 7).
Proof.
  intros s. destruct (_priv s) as [p|] eqn:Ep; [|vm_compute in Ep; discriminate].
  exists p. split; [reflexivity|]. split.
  - apply (pending_requests_have_distinct_ids example_host example_root (VNum 2)
             [OpGet "cam0/hmi/state" (Some 5%nat);
              OpPost "cam0/hmi/openSession" VNull (Some 6%nat);
              OpMessage (example_message "resp" (VNum 1) "state" (VStr "Idle"));
              OpPut "mode" (VBool true) (Some 7%nat)] p Ep).
  - vm_compute in Ep. injection Ep as <-. split; vm_compute; reflexivity.
Defined.
(** [case "resp"] for an id with a pending request: the continuation is
    called, and the entry is deleted when the call returns. *)
Lemma handle_resp_matched H p lg message id error body key pending arg :
  get_member message "id" = Ret id ->
  get_member message "error" = Ret error ->
  get_member message "body" = Ret body ->
  to_str id = Ret key ->
  pendingRequests p !! key = Some pending ->
  completion_argument error body = Ret arg ->
  handle_resp H message (MkCogSocket (Some p) lg) =
    match host_callback H (pr_oncomplete pending) [arg] with
    | Ret _ =>
        (MkCogSocket
           (Some (set_pendingRequests (delete key (pendingRequests p)) p)) lg,
         [Notified (pr_oncomplete pending) [arg]], Ret tt)
    | Throw ex =>
        (MkCogSocket (Some p) lg, [Notified (pr_oncomplete pending) [arg]], Throw ex)
    end.
Proof.
  intros Hid Herr Hbody Hkey Hlook Harg.
  unfold handle_resp, complete. unfold_M. cbn. rewrite Hid. cbn. rewrite Hkey. cbn.
  rewrite Hlook, Herr. cbn. rewrite Hbody. cbn.
  unfold completion_argument in Harg.
  destruct (truthy error); cbn.
  - destruct (to_str (if truthy body then body else error)) as [text|]; [|discriminate].
    cbn in Harg. inversion Harg; subst arg. cbn.
    destruct (host_callback H (pr_oncomplete pending) _); reflexivity.
  - inversion Harg; subst arg.
    destruct (host_callback H (pr_oncomplete pending) _); reflexivity.
Qed.

(** X4.  A request sent with a continuation gets the next correlation id,
    and the response that carries this id and no error code completes it
    exactly once: the continuation is called with the body of the response,
    nothing is sent, and the pending entry is gone, so that the same
    response arriving a second time calls nothing. *)
Theorem response_completes_request_once
    H p lg type path cb body message mpath b r :
  let s := MkCogSocket (Some p) lg in
  let id := if requestId p + 1 >? 0x7FFFFFFF then 1 else requestId p + 1 in
  let s1 := fst (fst (sendRequest type path (Some cb) body s)) in
  is_message message (VStr "resp") (VNum id) mpath b ->
  get_member message "error" = Ret VUndefined ->
  host_callback H cb [b] = Ret r ->
  snd (sendRequest type path (Some cb) body s) = Ret (VNum id) /\
  exists s2 tr,
    socketMessage H (Text (Ret message)) s1 = (s2, tr, Ret tt) /\
    notifications tr = [(cb, [b])] /\
    sent_frames tr = [] /\
    (exists p2, _priv s2 = Some p2 /\
                pendingRequests p2 = delete (pretty id) (pendingRequests p)) /\
    exists tr',
      socketMessage H (Text (Ret message)) s2 = (s2, tr', Ret tt) /\
      notifications tr' = [] /\
      sent_frames tr' = [].
Proof.
  intros s id s1 Hm Herr Hcb. subst s s1.
  rewrite sendRequest_with_oncomplete. cbn [fst snd]. fold id.
  split; [reflexivity|].
  rewrite (socketMessage_text H _ message "resp" (VNum id) mpath b Hm).
  pose proof Hm as (_ & Hid & _ & Hb).
  cbn -[handle_resp on_exception pretty].
  erewrite (handle_resp_matched H _ lg message (VNum id) VUndefined b (pretty id)
              (MkPendingRequest id cb) b Hid Herr Hb eq_refl);
    [|cbn [pendingRequests set_pendingRequests set_requestId];
      apply lookup_insert_eq | reflexivity].
  cbn [pr_oncomplete]. rewrite Hcb.
  eexists _, _. split; [reflexivity|]. split.
  { rewrite notifications_app, notifications_log_events. reflexivity. }
  split.
  { rewrite sent_frames_app, sent_frames_log_events. reflexivity. }
  split.
  { eexists. split; [reflexivity|].
    cbn [pendingRequests set_pendingRequests set_requestId].
    apply delete_insert_eq. }
  rewrite (socketMessage_text H _ message "resp" (VNum id) mpath b Hm).
  cbn -[handle_resp on_exception pretty].
  match goal with
  | |- context [handle_resp H message (MkCogSocket (Some ?p2) lg)] =>
      rewrite (handle_resp_unknown H (MkCogSocket (Some p2) lg) p2 message (VNum id)
                 eq_refl Hid)
  end.
  - cbn [to_str]. eexists. split; [reflexivity|]. split.
    + rewrite notifications_app, !notifications_log_events. reflexivity.
    + rewrite sent_frames_app, !sent_frames_log_events. reflexivity.
  - intros key Hk. cbn [to_str] in Hk. inversion Hk; subst key.
    cbn [pendingRequests set_pendingRequests set_requestId].
    apply lookup_delete_eq.
Qed.

(** A get whose response carries ["Idle"]. *)
Lemma response_completes_request_once_witness :
  let s1 := fst (fst (sendRequest "get" "cam0/hmi/state" (Some 5%nat) VUndefined
                        example_engine)) in
  exists s2 tr,
    socketMessage example_host (example_message "resp" (VNum 1) "x" (VStr "Idle")) s1
      = (s2, tr, Ret tt) /\
    notifications tr = [(5%nat, [VStr "Idle"])] /\
    sent_frames tr = [].
Proof.
  intros s1.
  destruct (response_completes_request_once example_host
              (MkPriv example_root (VNum 2) 0 ∅ ∅ ∅ ConnectionObject VUndefined VUndefined)
              false "get" "cam0/hmi/state" 5%nat VUndefined
              (request "resp" (VNum 1) "x" (VStr "Idle")) (VStr "x") (VStr "Idle")
              VUndefined)
    as (_ & s2 & tr & Hrun & Hn & Hs & _);
    [repeat split | reflexivity | reflexivity |].
  exists s2, tr. split; [exact Hrun|]. split; [exact Hn | exact Hs].
Defined.

(** X5.  When the continuation of a request throws on a response (here: any
    value that is not [undefined] or [null] and converts to a string, such as
    an Error object), the exception is caught and nothing is sent, but the
    pending entry is not deleted: the engine is exactly as before, so the
    request still counts as pending. *)
Theorem throwing_continuation_stays_pending
    H s p message id mpath error body key pending arg ex x :
  _priv s = Some p ->
  is_message message (VStr "resp") id mpath body ->
  get_member message "error" = Ret error ->
  to_str id = Ret key ->
  pendingRequests p !! key = Some pending ->
  completion_argument error body = Ret arg ->
  host_callback H (pr_oncomplete pending) [arg] = Throw ex ->
  to_str ex = Ret x -> ex <> VUndefined -> ex <> VNull ->
  exists tr,
    socketMessage H (Text (Ret message)) s = (s, tr, Ret tt) /\
    notifications tr = [(pr_oncomplete pending, [arg])] /\
    sent_frames tr = [].
Proof.
  intros Hp Hm Herr Hkey Hlook Harg Hcb Hx Hu Hn.
  destruct s as [pv lg]; cbn in Hp; subst pv.
  rewrite (socketMessage_text H _ message "resp" id mpath body Hm).
  pose proof Hm as (_ & Hid & _ & Hb).
  cbn -[handle_resp on_exception].
  rewrite (handle_resp_matched H p lg message id error body key pending arg
             Hid Herr Hb Hkey Hlook Harg).
  rewrite Hcb. rewrite (on_exception_eq _ _ _ _ Hx Hu Hn). cbn [truthy Z.eqb negb].
  eexists. split; [reflexivity|]. split.
  - rewrite !notifications_app, !notifications_log_events. reflexivity.
  - rewrite !sent_frames_app, !sent_frames_log_events. reflexivity.
Qed.

(** X6.  A response that carries an error code completes its request with
    an Error object: its [number] is the error code, and its message is the
    text of the body when the response has one, else the text of the error
    code.  The entry is deleted and nothing is sent. *)
Theorem error_response_completes_with_Error
    H s p message id mpath error body key pending text r :
  _priv s = Some p ->
  is_message message (VStr "resp") id mpath body ->
  get_member message "error" = Ret error ->
  truthy error = true ->
  to_str id = Ret key ->
  pendingRequests p !! key = Some pending ->
  to_str (if truthy body then body else error) = Ret text ->
  host_callback H (pr_oncomplete pending) [VError error (VStr text)] = Ret r ->
  exists tr,
    socketMessage H (Text (Ret message)) s
    = (MkCogSocket (Some (set_pendingRequests (delete key (pendingRequests p)) p)) (log s),
       tr, Ret tt) /\
    notifications tr = [(pr_oncomplete pending, [VError error (VStr text)])] /\
    sent_frames tr = [].
Proof.
  intros Hp Hm Herr Htruthy Hkey Hlook Htext Hcb.
  destruct s as [pv lg]; cbn in Hp; subst pv.
  rewrite (socketMessage_text H _ message "resp" id mpath body Hm).
  pose proof Hm as (_ & Hid & _ & Hb).
  cbn -[handle_resp on_exception].
  rewrite (handle_resp_matched H p lg message id error body key pending
             (VError error (VStr text)) Hid Herr Hb Hkey Hlook).
  - rewrite Hcb. eexists. split; [reflexivity|]. split.
    + rewrite !notifications_app, !notifications_log_events. reflexivity.
    + rewrite !sent_frames_app, !sent_frames_log_events. reflexivity.
  - unfold completion_argument. rewrite Htruthy, Htext. reflexivity.
Qed.

(** The continuation 5 of the second host throws on the response. *)
Lemma throwing_continuation_stays_pending_witness :
  exists tr,
    socketMessage example_host2 (example_message "resp" (VNum 1) "x" (VStr "Idle"))
      example_pending_engine = (example_pending_engine, tr, Ret tt) /\
    notifications tr = [(5%nat, [VStr "Idle"])] /\
    sent_frames tr = [].
Proof.
  apply (throwing_continuation_stays_pending example_host2 example_pending_engine
           (MkPriv example_root (VNum 2) 1 {["1" := MkPendingRequest 1 5]} ∅ ∅
              ConnectionObject VUndefined VUndefined)
           (request "resp" (VNum 1) "x" (VStr "Idle")) (VNum 1) (VStr "x")
           VUndefined (VStr "Idle") "1" (MkPendingRequest 1 5) (VStr "Idle")
           (VError VUndefined (VStr "oops")) "Error: oops");
    try reflexivity; try discriminate.
  repeat split.
Defined.

(** An error response with code 3 and a text. *)
Lemma error_response_completes_with_Error_witness :
  exists s2 tr,
    socketMessage example_host
      (Text (Ret (VObj false [("$type", VStr "resp"); ("id", VNum 1);
                              ("error", VNum 3); ("body", VStr "No such cell")])))
      example_pending_engine
    = (s2, tr, Ret tt) /\
    notifications tr = [(5%nat, [VError (VNum 3) (VStr "No such cell")])] /\
    sent_frames tr = [].
Proof.
  destruct (error_response_completes_with_Error example_host example_pending_engine
              (MkPriv example_root (VNum 2) 1 {["1" := MkPendingRequest 1 5]} ∅ ∅
                 ConnectionObject VUndefined VUndefined)
              (VObj false [("$type", VStr "resp"); ("id", VNum 1);
                           ("error", VNum 3); ("body", VStr "No such cell")])
              (VNum 1) VUndefined (VNum 3) (VStr "No such cell") "1"
              (MkPendingRequest 1 5) "No such cell" VUndefined)
    as (tr & Hrun & Hn & Hs); try reflexivity.
  - repeat split.
  - eexists _, tr. split; [exact Hrun|]. split; [exact Hn | exact Hs].
Defined.
(* ===================================================================== *)
(** ** Events                                                              *)
(* ===================================================================== *)

Lemma listener_called H f args r s :
  host_callback H f args = Ret r ->
  (emit (Notified f args);; lift (host_callback H f args);; mret tt) s
  = (s, [Notified f args], Ret tt).
Proof. intros Hr. unfold_M. rewrite Hr. reflexivity. Qed.

Lemma for_each_listeners H args ls s :
  (forall f, In f ls -> exists r, host_callback H f args = Ret r) ->
  for_each (fun f => emit (Notified f args);; lift (host_callback H f args);; mret tt)
    ls s
  = (s, map (fun f => Notified f args) ls, Ret tt).
Proof.
  intros Hall. induction ls as [|f ls IH]; [reflexivity|].
  cbn [for_each map]. rewrite bind_eq.
  destruct (Hall f (or_introl eq_refl)) as [r Hr].
  rewrite (listener_called H f args r s Hr).
  rewrite IH by (intros g Hg; apply Hall; right; exact Hg).
  reflexivity.
Qed.

Lemma notifications_map_Notified args ls :
  notifications (map (fun f => Notified f args) ls) = map (fun f => (f, args)) ls.
Proof. induction ls as [|f ls IH]; [reflexivity|]. cbn. f_equal. exact IH. Qed.

Lemma sent_frames_map_Notified args ls :
  sent_frames (map (fun f => Notified f args) ls) = [].
Proof. induction ls as [|f ls IH]; [reflexivity|]. exact IH. Qed.

Lemma handle_event_eq H p lg message path id body key :
  get_member message "body" = Ret body ->
  to_str path = Ret key ->
  inherited key = None ->
  (forall f, In f (default [] (listeners p !! key)) ->
     exists r, host_callback H f (event_arguments body) = Ret r) ->
  handle_event H message path id (MkCogSocket (Some p) lg) =
    let '(s2, tr, r) :=
      (if truthy id then sendResponse id VUndefined else mret tt)
        (MkCogSocket (Some p) lg) in
    (s2,
     map (fun f => Notified f (event_arguments body)) (default [] (listeners p !! key))
       ++ tr,
     r).
Proof.
  intros Hb Hk Hinh Hall. unfold handle_event.
  erewrite bind_ret_eq by (unfold lift; rewrite Hb; reflexivity).
  cbv zeta.
  erewrite bind_ret_eq by reflexivity.
  erewrite bind_ret_eq by (unfold lift; rewrite Hk; reflexivity).
  destruct (listeners p !! key) as [ls|] eqn:El; cbn [default] in *;
    [rewrite (table_get_own _ _ _ El) | rewrite (table_get_nothing _ _ El Hinh)].
  - erewrite bind_ret_eq
      by (apply (for_each_listeners H (event_arguments body) ls); exact Hall).
    destruct ((if truthy id then sendResponse id VUndefined else _) _) as [[s2 tr] r].
    reflexivity.
  - erewrite bind_ret_eq by reflexivity.
    destruct ((if truthy id then sendResponse id VUndefined else _) _) as [[s2 tr] r].
    reflexivity.
Qed.

(** X7.  On an open engine, an inbound event whose path is not the name of a
    member every object inherits ([toString], [constructor], ...) calls the
    listeners registered for its path, each once and in the order they were
    added, with no
    argument when the event has no body, with the elements of a sequence
    body as arguments, and with the body as the one argument otherwise; a
    path without listeners calls nothing.  When the listeners return, the
    engine is unchanged and the event is acknowledged with an empty response
    exactly when it carries an id. *)
Theorem event_reaches_every_listener H s p message id path body key :
  _priv s = Some p ->
  is_message message (VStr "event") id path body ->
  to_str path = Ret key ->
  inherited key = None ->
  (forall f, In f (default [] (listeners p !! key)) ->
     exists r, host_callback H f (event_arguments body) = Ret r) ->
  exists tr,
    socketMessage H (Text (Ret message)) s = (s, tr, Ret tt) /\
    notifications tr
      = map (fun f => (f, event_arguments body)) (default [] (listeners p !! key)) /\
    sent_frames tr = (if truthy id then [TextFrame (response id VUndefined)] else []).
Proof.
  intros Hp Hm Hk Hinh Hall.
  destruct s as [pv lg]; cbn in Hp; subst pv.
  rewrite (socketMessage_text H _ message "event" id path body Hm).
  pose proof Hm as (_ & _ & _ & Hb).
  cbn -[handle_event on_exception].
  rewrite (handle_event_eq H p lg message path id body key Hb Hk Hinh Hall).
  destruct (truthy id) eqn:Eid.
  - rewrite (sendResponse_open (MkCogSocket (Some p) lg) p id VUndefined eq_refl Eid).
    eexists. split; [reflexivity|]. split.
    + rewrite !notifications_app, notifications_log_events, notifications_map_Notified,
        notifications_request_events, app_nil_r. reflexivity.
    + rewrite !sent_frames_app, sent_frames_log_events, sent_frames_map_Notified,
        sent_frames_request_events. reflexivity.
  - eexists. split; [reflexivity|]. split.
    + rewrite !notifications_app, notifications_log_events, notifications_map_Notified,
        app_nil_r. reflexivity.
    + rewrite !sent_frames_app, sent_frames_log_events, sent_frames_map_Notified.
      reflexivity.
Qed.

(** Two listeners on a path and an event with a sequence body. *)
Lemma event_reaches_every_listener_witness :
  let s := fst (fst ((addListener example_host "a/changed" 7 None;;
                      addListener example_host "a/changed" 8 None) example_engine)) in
  exists tr,
    socketMessage example_host
      (example_message "event" VUndefined "a/changed" (VArr [VNum 1; VNum 2])) s
    = (s, tr, Ret tt) /\
    notifications tr = [(7%nat, [VNum 1; VNum 2]); (8%nat, [VNum 1; VNum 2])] /\
    sent_frames tr = [].
Proof.
  intros s.
  destruct (_priv s) as [p|] eqn:Ep; [|vm_compute in Ep; discriminate].
  destruct (event_reaches_every_listener example_host s p
              (request "event" VUndefined "a/changed" (VArr [VNum 1; VNum 2]))
              VUndefined (VStr "a/changed") (VArr [VNum 1; VNum 2]) "a/changed" Ep)
    as (tr & Hrun & Hn & Hs).
  - repeat split.
  - reflexivity.
  - reflexivity.
  - intros f _. eexists. reflexivity.
  - exists tr. split; [exact Hrun|]. split; [|exact Hs].
    rewrite Hn. vm_compute in Ep. injection Ep as <-. vm_compute. reflexivity.
Defined.
(* ===================================================================== *)
(** ** Subscriptions of the remote side                                    *)
(* ===================================================================== *)

Lemma resolve_set_eventSenders m p lg path :
  resolve (MkCogSocket (Some (set_eventSenders m p)) lg) path
  = resolve (MkCogSocket (Some p) lg) path.
Proof.
  unfold resolve, parsePath, path_prefix. unfold_M.
  destruct (truthy path), path; cbn;
    repeat match goal with
           | |- context [if ?b then _ else _] => destruct b; cbn
           | |- context [match ?o with Ret _ => _ | Throw _ => _ end] =>
               destruct o as [[? ?]|]; cbn
           | |- context [match ?v with VStr _ => _ | _ => _ end] => destruct v; cbn
           end; reflexivity.
Qed.

Lemma set_eventSenders_same p : set_eventSenders (eventSenders p) p = p.
Proof. destruct p; reflexivity. Qed.

(** The acknowledgement at the end of the listen, unlisten and event cases. *)
Lemma acknowledge_open p lg id :
  (if truthy id then sendResponse id VUndefined else mret tt) (MkCogSocket (Some p) lg)
  = (MkCogSocket (Some p) lg,
     if truthy id
     then request_events (MkCogSocket (Some p) lg) (response id VUndefined)
     else [],
     Ret tt).
Proof.
  destruct (truthy id) eqn:E; [|reflexivity].
  apply (sendResponse_open (MkCogSocket (Some p) lg) p id VUndefined eq_refl E).
Qed.

(** [case "listen"] for a path that has a sender already, and
    [case "unlisten"] for a path that has none: only the acknowledgement. *)
Lemma handle_listen_again H p lg ps id :
  truthy (read_table H (eventSenders p) ps) = true ->
  handle_listen H (VStr ps) id (MkCogSocket (Some p) lg)
  = (if truthy id then sendResponse id VUndefined else mret tt) (MkCogSocket (Some p) lg).
Proof.
  intros Hs. unfold handle_listen.
  erewrite bind_ret_eq by reflexivity.
  erewrite bind_ret_eq by reflexivity.
  cbv beta. rewrite Hs. erewrite bind_ret_eq by reflexivity.
  destruct ((if truthy id then sendResponse id VUndefined else _) _) as [[s2 tr] r].
  reflexivity.
Qed.

Lemma handle_unlisten_none H p lg ps id :
  truthy (read_table H (eventSenders p) ps) = false ->
  handle_unlisten H (VStr ps) id (MkCogSocket (Some p) lg)
  = (if truthy id then sendResponse id VUndefined else mret tt) (MkCogSocket (Some p) lg).
Proof.
  intros Hs. unfold handle_unlisten.
  erewrite bind_ret_eq by reflexivity.
  erewrite bind_ret_eq by reflexivity.
  cbv beta zeta. rewrite Hs. erewrite bind_ret_eq by reflexivity.
  destruct ((if truthy id then sendResponse id VUndefined else _) _) as [[s2 tr] r].
  reflexivity.
Qed.

(** [o.name(...args)] where the member is a function of the host. *)
Lemma call_member_host_function H o name args f s :
  get_member o name = Ret (VFun f) ->
  call_member H o name args s =
    (s, [Invoked f o args],
     host_method H f o args).
Proof.
  intros Hg. unfold call_member. unfold_M. rewrite Hg. cbn.
  destruct (host_method H f o args); reflexivity.
Qed.

Lemma call_member_missing H o name args s :
  get_member o name = Ret VUndefined ->
  call_member H o name args s = (s, [], Throw (TypeError "not a function")).
Proof. intros Hg. unfold call_member. unfold_M. rewrite Hg. reflexivity. Qed.

(** [case "listen"] for a path that has no sender yet. *)
Lemma handle_listen_first H p lg ps id pd :
  eventSenders p !! ps = None ->
  inherited ps = None ->
  resolve (MkCogSocket (Some p) lg) (VStr ps) = Ret pd ->
  handle_listen H (VStr ps) id (MkCogSocket (Some p) lg) =
    let s1 := MkCogSocket
                (Some (set_eventSenders (<[ps := VSender ps]> (eventSenders p)) p)) lg in
    match call_member H (obj pd) "addListener" [VStr (prop pd); VSender ps] s1 with
    | (s2, tr, Ret _) =>
        let '(s3, tr3, r) :=
          (if truthy id then sendResponse id VUndefined else mret tt) s2 in
        (s3, tr ++ tr3, r)
    | (s2, tr, Throw ex) => (s2, tr, Throw ex)
    end.
Proof.
  intros Hs Hinh Hr. unfold handle_listen.
  erewrite bind_ret_eq by reflexivity.
  erewrite bind_ret_eq by reflexivity.
  cbv beta. rewrite (read_table_nothing H _ _ Hs Hinh). cbn [truthy]. cbv zeta.
  rewrite (bind_eq (_ ≫= _)).
  rewrite bind_eq, parsePath_eq, Hr.
  rewrite bind_eq. cbn [modify_priv _priv log].
  rewrite bind_eq.
  destruct (call_member H (obj pd) "addListener" _ _) as [[s2 tr] [v|ex]];
    cbn [app]; [|reflexivity].
  unfold mret at 1, M_ret at 1. cbv beta iota. rewrite app_nil_r.
  destruct ((if truthy id then sendResponse id VUndefined else _) s2) as [[s3 tr3] r].
  reflexivity.
Qed.

(** [case "unlisten"] for a path that has a sender. *)
Lemma handle_unlisten_some H p lg ps id pd v :
  eventSenders p !! ps = Some v ->
  truthy v = true ->
  resolve (MkCogSocket (Some p) lg) (VStr ps) = Ret pd ->
  handle_unlisten H (VStr ps) id (MkCogSocket (Some p) lg) =
    match call_member H (obj pd) "removeListener" [VStr (prop pd); v]
            (MkCogSocket (Some p) lg) with
    | (s2, tr, Ret _) =>
        match modify_priv
                (fun p => set_eventSenders (delete ps (eventSenders p)) p) s2 with
        | (s3, _, Ret _) =>
            let '(s4, tr4, r) :=
              (if truthy id then sendResponse id VUndefined else mret tt) s3 in
            (s4, tr ++ tr4, r)
        | (s3, _, Throw ex) => (s3, tr, Throw ex)
        end
    | (s2, tr, Throw ex) => (s2, tr, Throw ex)
    end.
Proof.
  intros Hs Hv Hr. unfold handle_unlisten.
  erewrite bind_ret_eq by reflexivity.
  erewrite bind_ret_eq by reflexivity.
  cbv beta zeta. rewrite (read_table_own H _ _ _ Hs), Hv.
  rewrite (bind_eq (_ ≫= _)).
  rewrite bind_eq, parsePath_eq, Hr.
  rewrite bind_eq.
  destruct (call_member H (obj pd) "removeListener" _ _) as [[s2 tr] [w|ex]];
    cbn [app]; [|reflexivity].
  unfold modify_priv. destruct (_priv s2); cbv beta iota;
    [|rewrite app_nil_r; reflexivity].
  rewrite app_nil_r.
  destruct ((if truthy id then sendResponse id VUndefined else _) _) as [[s4 tr4] r].
  reflexivity.
Qed.

(** A listen or unlisten message reaches its case of the [switch]. *)
Lemma socketMessage_listen H s message id path body :
  is_message message (VStr "listen") id path body ->
  socketMessage H (Text (Ret message)) s =
    match handle_listen H path id s with
    | (s1, tr, Ret _) =>
        (s1, log_events s [LogOnMessage; LogGot (Ret message)] ++ tr, Ret tt)
    | (s1, tr, Throw ex) =>
        let '(s2, tr2, r) := on_exception id ex s1 in
        (s2, log_events s [LogOnMessage; LogGot (Ret message)] ++ tr ++ tr2, r)
    end.
Proof. intros Hm. rewrite (socketMessage_text H s message _ id path body Hm). reflexivity. Qed.

Lemma socketMessage_unlisten H s message id path body :
  is_message message (VStr "unlisten") id path body ->
  socketMessage H (Text (Ret message)) s =
    match handle_unlisten H path id s with
    | (s1, tr, Ret _) =>
        (s1, log_events s [LogOnMessage; LogGot (Ret message)] ++ tr, Ret tt)
    | (s1, tr, Throw ex) =>
        let '(s2, tr2, r) := on_exception id ex s1 in
        (s2, log_events s [LogOnMessage; LogGot (Ret message)] ++ tr ++ tr2, r)
    end.
Proof. intros Hm. rewrite (socketMessage_text H s message _ id path body Hm). reflexivity. Qed.

Lemma sent_frames_acknowledgement s id :
  sent_frames (if truthy id then request_events s (response id VUndefined) else [])
  = if truthy id then [TextFrame (response id VUndefined)] else [].
Proof. destruct (truthy id); [apply sent_frames_request_events|reflexivity]. Qed.

Lemma invocations_acknowledgement s id :
  invocations (if truthy id then request_events s (response id VUndefined) else []) = [].
Proof. destruct (truthy id); [apply invocations_request_events|reflexivity]. Qed.

(** The first listen for a path, on an object whose [addListener] returns. *)
Lemma first_listen_eq H p lg message id ps body pd f r :
  is_message message (VStr "listen") id (VStr ps) body ->
  eventSenders p !! ps = None ->
  inherited ps = None ->
  resolve (MkCogSocket (Some p) lg) (VStr ps) = Ret pd ->
  get_member (obj pd) "addListener" = Ret (VFun f) ->
  host_method H f (obj pd) [VStr (prop pd); VSender ps] = Ret r ->
  exists tr,
    socketMessage H (Text (Ret message)) (MkCogSocket (Some p) lg)
    = (MkCogSocket (Some (set_eventSenders (<[ps := VSender ps]> (eventSenders p)) p)) lg,
       tr, Ret tt) /\
    invocations tr = [(f, obj pd, [VStr (prop pd); VSender ps])] /\
    sent_frames tr = (if truthy id then [TextFrame (response id VUndefined)] else []).
Proof.
  intros Hm Hs Hinh Hr Hg Hh.
  rewrite (socketMessage_listen H _ message id (VStr ps) body Hm).
  rewrite (handle_listen_first H p lg ps id pd Hs Hinh Hr). cbv zeta.
  rewrite (call_member_host_function H _ _ _ f _ Hg), Hh.
  rewrite acknowledge_open.
  eexists. split; [reflexivity|]. split.
  - rewrite !invocations_app, invocations_log_events. cbn [app].
    change (invocations (?e :: ?l)) with ((f, obj pd, [VStr (prop pd); VSender ps])
                                           :: invocations l).
    rewrite invocations_acknowledgement. reflexivity.
  - rewrite !sent_frames_app, sent_frames_log_events. cbn [app].
    change (sent_frames (Invoked ?a ?b ?c :: ?l)) with (sent_frames l).
    apply sent_frames_acknowledgement.
Qed.

(** The sender of a path writes one event and calls nothing. *)
Lemma sender_sends_event H ps this args s :
  exists tr,
    call_function H (VSender ps) this args s = (s, tr, Ret VUndefined) /\
    sent_frames tr = [TextFrame (event_message ps args)] /\
    invocations tr = [] /\ notifications tr = [].
Proof.
  unfold call_function, sender. unfold_M.
  destruct s as [pv []], args as [|a [|b l]]; cbn; eexists; repeat split.
Qed.

(** X8 (src/cogsocket.js, case "listen" of socketMessage): the first listen
    request for a path that is not the name of a member every object
    inherits ([toString], [constructor], ...), on an object whose
    addListener is a function that returns, registers a
    sender for the path, calls the object's addListener once with the leaf
    name and that sender, and is acknowledged with an empty response when it
    has an id.  The sender it handed over, whenever it is called, calls
    nothing and sends exactly one event message for the path, whose body is
    absent for no argument, the argument for one, and the sequence of the
    arguments for more. *)
Theorem first_listen_subscribes_with_a_sender H p lg message id ps body pd f r :
  is_message message (VStr "listen") id (VStr ps) body ->
  eventSenders p !! ps = None ->
  inherited ps = None ->
  resolve (MkCogSocket (Some p) lg) (VStr ps) = Ret pd ->
  get_member (obj pd) "addListener" = Ret (VFun f) ->
  host_method H f (obj pd) [VStr (prop pd); VSender ps] = Ret r ->
  let s1 :=
    MkCogSocket (Some (set_eventSenders (<[ps := VSender ps]> (eventSenders p)) p)) lg in
  (exists tr,
     socketMessage H (Text (Ret message)) (MkCogSocket (Some p) lg) = (s1, tr, Ret tt) /\
     invocations tr = [(f, obj pd, [VStr (prop pd); VSender ps])] /\
     sent_frames tr = (if truthy id then [TextFrame (response id VUndefined)] else [])) /\
  (forall this args, exists tr,
     call_function H (VSender ps) this args s1 = (s1, tr, Ret VUndefined) /\
     sent_frames tr = [TextFrame (event_message ps args)] /\
     invocations tr = []).
Proof.
  intros Hm Hs Hinh Hr Hg Hh s1. split.
  - exact (first_listen_eq H p lg message id ps body pd f r Hm Hs Hinh Hr Hg Hh).
  - intros this args.
    destruct (sender_sends_event H ps this args s1) as (tr & Hc & Hf & Hi & _).
    exists tr. auto.
Qed.

(** A listen with id 7 for the event [changed] of the sensor. *)
Lemma first_listen_subscribes_with_a_sender_witness :
  exists s1,
    (exists tr,
       socketMessage example_host2
         (example_message "listen" (VNum 7) "sensor/changed" VUndefined) example_engine2
       = (s1, tr, Ret tt) /\
       invocations tr
       = [(3%nat, VObj false [("addListener", VFun 3); ("removeListener", VFun 4)],
           [VStr "changed"; VSender "sensor/changed"])] /\
       sent_frames tr = [TextFrame (response (VNum 7) VUndefined)]) /\
    (exists tr,
       call_function example_host2 (VSender "sensor/changed") VUndefined
         [VNum 1; VNum 2] s1 = (s1, tr, Ret VUndefined) /\
       sent_frames tr
       = [TextFrame (VObj false [("$type", VStr "event"); ("path", VStr "sensor/changed");
                                 ("body", VArr [VNum 1; VNum 2])])]).
Proof.
  pose proof (first_listen_subscribes_with_a_sender example_host2
                (MkPriv example_root2 VUndefined 0 ∅ ∅ ∅ ConnectionObject
                   VUndefined VUndefined) false
                (request "listen" (VNum 7) "sensor/changed" VUndefined)
                (VNum 7) "sensor/changed" VUndefined
                (MkParsed (VObj false [("addListener", VFun 3); ("removeListener", VFun 4)])
                   "changed" false ["sensor"])
                3%nat VUndefined) as Hx.
  destruct Hx as [(tr & Hrun & Hi & Hf) Hsend].
  - repeat split.
  - reflexivity.
  - reflexivity.
  - vm_compute. reflexivity.
  - reflexivity.
  - reflexivity.
  - eexists. split.
    + exists tr. split; [exact Hrun|]. split; [exact Hi|exact Hf].
    + destruct (Hsend VUndefined [VNum 1; VNum 2]) as (tr' & Hc & Hf' & _).
      exists tr'. split; [exact Hc|exact Hf'].
Defined.

(** An unlisten for a path that has the sender [VSender ps], on an object
    whose [removeListener] returns. *)
Lemma unlisten_eq H p lg message id ps body pd snd_ g r :
  is_message message (VStr "unlisten") id (VStr ps) body ->
  eventSenders p !! ps = Some snd_ ->
  truthy snd_ = true ->
  resolve (MkCogSocket (Some p) lg) (VStr ps) = Ret pd ->
  get_member (obj pd) "removeListener" = Ret (VFun g) ->
  host_method H g (obj pd) [VStr (prop pd); snd_] = Ret r ->
  exists tr,
    socketMessage H (Text (Ret message)) (MkCogSocket (Some p) lg)
    = (MkCogSocket (Some (set_eventSenders (delete ps (eventSenders p)) p)) lg,
       tr, Ret tt) /\
    invocations tr = [(g, obj pd, [VStr (prop pd); snd_])] /\
    sent_frames tr = (if truthy id then [TextFrame (response id VUndefined)] else []).
Proof.
  intros Hm Hs Hv Hr Hg Hh.
  rewrite (socketMessage_unlisten H _ message id (VStr ps) body Hm).
  rewrite (handle_unlisten_some H p lg ps id pd snd_ Hs Hv Hr).
  rewrite (call_member_host_function H _ _ _ g _ Hg), Hh.
  cbn [modify_priv _priv log].
  rewrite acknowledge_open.
  eexists. split; [reflexivity|]. split.
  - rewrite !invocations_app, invocations_log_events. cbn [app].
    change (invocations (?e :: ?l)) with ((g, obj pd, [VStr (prop pd); snd_])
                                           :: invocations l).
    rewrite invocations_acknowledgement. reflexivity.
  - rewrite !sent_frames_app, sent_frames_log_events. cbn [app].
    change (sent_frames (Invoked ?a ?b ?c :: ?l)) with (sent_frames l).
    apply sent_frames_acknowledgement.
Qed.

(** X9 (src/cogsocket.js, cases "listen" and "unlisten" of socketMessage): on
    an open engine, for a path that has no sender yet, is not the name of a
    member every object inherits ([toString], [constructor], ...) and
    resolves to an object whose addListener and removeListener are functions
    that return for the leaf name and the sender: a listen request followed
    by an unlisten request for that path calls addListener and then removeListener with the
    same leaf name and the same sender, acknowledges each request that has an
    id, and leaves the engine exactly as it was before the two. *)
Theorem listen_then_unlisten_restores_the_engine
    H p lg ml mu idl idu ps bl bu pd f g rl ru :
  is_message ml (VStr "listen") idl (VStr ps) bl ->
  is_message mu (VStr "unlisten") idu (VStr ps) bu ->
  eventSenders p !! ps = None ->
  inherited ps = None ->
  resolve (MkCogSocket (Some p) lg) (VStr ps) = Ret pd ->
  get_member (obj pd) "addListener" = Ret (VFun f) ->
  get_member (obj pd) "removeListener" = Ret (VFun g) ->
  host_method H f (obj pd) [VStr (prop pd); VSender ps] = Ret rl ->
  host_method H g (obj pd) [VStr (prop pd); VSender ps] = Ret ru ->
  exists tr,
    run_ops H [OpMessage (Text (Ret ml)); OpMessage (Text (Ret mu))]
      (MkCogSocket (Some p) lg)
    = (MkCogSocket (Some p) lg, tr) /\
    invocations tr = [(f, obj pd, [VStr (prop pd); VSender ps]);
                      (g, obj pd, [VStr (prop pd); VSender ps])] /\
    sent_frames tr =
      (if truthy idl then [TextFrame (response idl VUndefined)] else []) ++
      (if truthy idu then [TextFrame (response idu VUndefined)] else []).
Proof.
  intros Hml Hmu Hs Hinh Hr Hf Hg Hhf Hhg.
  destruct (first_listen_eq H p lg ml idl ps bl pd f rl Hml Hs Hinh Hr Hf Hhf)
    as (tr1 & Hrun1 & Hi1 & Hs1).
  set (p1 := set_eventSenders (<[ps := VSender ps]> (eventSenders p)) p) in *.
  assert (Hs' : eventSenders p1 !! ps = Some (VSender ps)).
  { unfold p1. destruct p; cbn. apply lookup_insert_eq. }
  assert (Hr' : resolve (MkCogSocket (Some p1) lg) (VStr ps) = Ret pd).
  { unfold p1. rewrite resolve_set_eventSenders. exact Hr. }
  destruct (unlisten_eq H p1 lg mu idu ps bu pd (VSender ps) g ru Hmu Hs' eq_refl Hr' Hg Hhg)
    as (tr2 & Hrun2 & Hi2 & Hs2).
  assert (Hback : set_eventSenders (delete ps (eventSenders p1)) p1 = p).
  { unfold p1. destruct p; unfold set_eventSenders; cbn in *.
    rewrite delete_insert_eq, (delete_id _ _ Hs). reflexivity. }
  rewrite Hback in Hrun2.
  exists (tr1 ++ tr2 ++ []). split; [|split].
  - cbn [run_ops run_op]. rewrite Hrun1, Hrun2. reflexivity.
  - rewrite !invocations_app, Hi1, Hi2. reflexivity.
  - rewrite !sent_frames_app, Hs1, Hs2. cbn [sent_frames omap]. rewrite app_nil_r.
    reflexivity.
Qed.

(** A listen with id 7 and an unlisten without id for the event [changed]
    of the sensor. *)
Lemma listen_then_unlisten_restores_the_engine_witness :
  exists tr,
    run_ops example_host2
      [OpMessage (example_message "listen" (VNum 7) "sensor/changed" VUndefined);
       OpMessage (example_message "unlisten" VUndefined "sensor/changed" VUndefined)]
      example_engine2
    = (example_engine2, tr) /\
    invocations tr
    = [(3%nat, VObj false [("addListener", VFun 3); ("removeListener", VFun 4)],
        [VStr "changed"; VSender "sensor/changed"]);
       (4%nat, VObj false [("addListener", VFun 3); ("removeListener", VFun 4)],
        [VStr "changed"; VSender "sensor/changed"])] /\
    sent_frames tr = [TextFrame (response (VNum 7) VUndefined)].
Proof.
  refine (listen_then_unlisten_restores_the_engine example_host2
            (MkPriv example_root2 VUndefined 0 ∅ ∅ ∅ ConnectionObject
               VUndefined VUndefined) false
            (request "listen" (VNum 7) "sensor/changed" VUndefined)
            (request "unlisten" VUndefined "sensor/changed" VUndefined)
            (VNum 7) VUndefined "sensor/changed" VUndefined VUndefined
            (MkParsed (VObj false [("addListener", VFun 3); ("removeListener", VFun 4)])
               "changed" false ["sensor"])
            3%nat 4%nat VUndefined VUndefined _ _ _ _ _ _ _ _ _).
  - repeat split.
  - repeat split.
  - reflexivity.
  - reflexivity.
  - vm_compute. reflexivity.
  - reflexivity.
  - reflexivity.
  - reflexivity.
  - reflexivity.
Defined.

(** X10 (src/cogsocket.js, cases "listen" and "unlisten" of socketMessage): a
    listen request for a path whose entry in the table of senders is truthy
    (a sender registered before or, the table being a plain object, a member
    every object inherits such as [toString]), and an unlisten request for a
    path whose entry is falsy (no sender and no inherited member), are
    acknowledged with an empty response
    when they have an id and do nothing else: the path is not resolved, no
    function of the object graph is called, and the engine is unchanged. *)
Theorem repeated_subscription_request_is_only_acknowledged
    H p lg message t id ps body :
  is_message message (VStr t) id (VStr ps) body ->
  (t = "listen" /\ truthy (read_table H (eventSenders p) ps) = true) \/
  (t = "unlisten" /\ truthy (read_table H (eventSenders p) ps) = false) ->
  exists tr,
    socketMessage H (Text (Ret message)) (MkCogSocket (Some p) lg)
    = (MkCogSocket (Some p) lg, tr, Ret tt) /\
    invocations tr = [] /\
    sent_frames tr = (if truthy id then [TextFrame (response id VUndefined)] else []).
Proof.
  intros Hm [[-> Hs]|[-> Hs]].
  - rewrite (socketMessage_listen H _ message id (VStr ps) body Hm).
    rewrite (handle_listen_again H p lg ps id Hs), acknowledge_open.
    eexists. split; [reflexivity|]. split.
    + rewrite invocations_app, invocations_log_events. apply invocations_acknowledgement.
    + rewrite sent_frames_app, sent_frames_log_events. apply sent_frames_acknowledgement.
  - rewrite (socketMessage_unlisten H _ message id (VStr ps) body Hm).
    rewrite (handle_unlisten_none H p lg ps id Hs), acknowledge_open.
    eexists. split; [reflexivity|]. split.
    + rewrite invocations_app, invocations_log_events. apply invocations_acknowledgement.
    + rewrite sent_frames_app, sent_frames_log_events. apply sent_frames_acknowledgement.
Qed.

(** An unlisten with id 3 for a path that does not even resolve. *)
Lemma repeated_subscription_request_is_only_acknowledged_witness :
  exists tr,
    socketMessage example_host2
      (example_message "unlisten" (VNum 3) "no/such/thing" VUndefined) example_engine2
    = (example_engine2, tr, Ret tt) /\
    invocations tr = [] /\
    sent_frames tr = [TextFrame (response (VNum 3) VUndefined)].
Proof.
  refine (repeated_subscription_request_is_only_acknowledged example_host2
            (MkPriv example_root2 VUndefined 0 ∅ ∅ ∅ ConnectionObject
               VUndefined VUndefined) false
            (request "unlisten" (VNum 3) "no/such/thing" VUndefined)
            "unlisten" (VNum 3) "no/such/thing" VUndefined _ _).
  - repeat split.
  - right. split; reflexivity.
Defined.

(** The first listen for a path, on an object without [addListener]. *)
Lemma failed_listen_eq H p lg message id ps body pd :
  is_message message (VStr "listen") id (VStr ps) body ->
  eventSenders p !! ps = None ->
  inherited ps = None ->
  resolve (MkCogSocket (Some p) lg) (VStr ps) = Ret pd ->
  get_member (obj pd) "addListener" = Ret VUndefined ->
  exists tr text,
    socketMessage H (Text (Ret message)) (MkCogSocket (Some p) lg)
    = (MkCogSocket (Some (set_eventSenders (<[ps := VSender ps]> (eventSenders p)) p)) lg,
       tr, Ret tt) /\
    invocations tr = [] /\
    sent_frames tr =
      (if truthy id
       then [TextFrame (error_response id (VNum (-1)) (VStr text))]
       else []).
Proof.
  intros Hm Hs Hinh Hr Hg.
  rewrite (socketMessage_listen H _ message id (VStr ps) body Hm).
  rewrite (handle_listen_first H p lg ps id pd Hs Hinh Hr). cbv zeta.
  rewrite (call_member_missing H _ _ _ _ Hg).
  unfold TypeError.
  destruct (truthy id) eqn:Eid.
  - erewrite on_exception_Error by (reflexivity || exact Eid).
    eexists. exists "not a function". split; [reflexivity|]. split.
    + rewrite !invocations_app, !invocations_log_events. cbn.
      rewrite invocations_request_events. reflexivity.
    + rewrite !sent_frames_app, !sent_frames_log_events. cbn.
      rewrite sent_frames_request_events. reflexivity.
  - rewrite (on_exception_Error_no_id _ id VUndefined _ Eid).
    eexists. exists "not a function". split; [reflexivity|]. split.
    + rewrite !invocations_app, !invocations_log_events. reflexivity.
    + rewrite !sent_frames_app, !sent_frames_log_events. reflexivity.
Qed.

(** X11 (src/cogsocket.js, case "listen" of socketMessage, lines 362-389):
    the sender is stored before addListener is called.  For a path that has
    no sender yet and is not the name of a member every object inherits
    ([toString], [constructor], ...), a listen request for an object that
    has no addListener member is answered, when it has an id, with an error
    response of code -1 (whatever its text), but leaves the sender of the
    path registered; a second listen request for the same path is then
    acknowledged as a success although nothing was subscribed and no
    function is called. *)
Theorem failed_listen_leaves_its_sender H p lg m1 m2 id1 id2 ps b1 b2 pd :
  is_message m1 (VStr "listen") id1 (VStr ps) b1 ->
  is_message m2 (VStr "listen") id2 (VStr ps) b2 ->
  eventSenders p !! ps = None ->
  inherited ps = None ->
  resolve (MkCogSocket (Some p) lg) (VStr ps) = Ret pd ->
  get_member (obj pd) "addListener" = Ret VUndefined ->
  exists p1 tr1 tr2 text,
    socketMessage H (Text (Ret m1)) (MkCogSocket (Some p) lg)
    = (MkCogSocket (Some p1) lg, tr1, Ret tt) /\
    eventSenders p1 !! ps = Some (VSender ps) /\
    sent_frames tr1 =
      (if truthy id1
       then [TextFrame (error_response id1 (VNum (-1)) (VStr text))]
       else []) /\
    socketMessage H (Text (Ret m2)) (MkCogSocket (Some p1) lg)
    = (MkCogSocket (Some p1) lg, tr2, Ret tt) /\
    sent_frames tr2 = (if truthy id2 then [TextFrame (response id2 VUndefined)] else []) /\
    invocations (tr1 ++ tr2) = [].
Proof.
  intros Hm1 Hm2 Hs Hinh Hr Hg.
  destruct (failed_listen_eq H p lg m1 id1 ps b1 pd Hm1 Hs Hinh Hr Hg)
    as (tr1 & text & Hrun1 & Hi1 & Hs1).
  set (p1 := set_eventSenders (<[ps := VSender ps]> (eventSenders p)) p) in *.
  assert (Hs' : eventSenders p1 !! ps = Some (VSender ps)).
  { unfold p1. destruct p; cbn. apply lookup_insert_eq. }
  exists p1, tr1.
  rewrite (socketMessage_listen H _ m2 id2 (VStr ps) b2 Hm2).
  assert (Hsender : truthy (read_table H (eventSenders p1) ps) = true).
  { rewrite (read_table_own H _ _ _ Hs'). reflexivity. }
  rewrite (handle_listen_again H p1 lg ps id2 Hsender), acknowledge_open.
  eexists. exists text. split; [exact Hrun1|]. split; [exact Hs'|]. split; [exact Hs1|].
  split; [reflexivity|]. split.
  - rewrite sent_frames_app, sent_frames_log_events. apply sent_frames_acknowledgement.
  - rewrite !invocations_app, Hi1, invocations_log_events.
    apply invocations_acknowledgement.
Qed.

(** Two listen requests for a member of an object that is no event source. *)
Lemma failed_listen_leaves_its_sender_witness :
  exists p1 tr1 tr2 text,
    socketMessage example_host2
      (example_message "listen" (VNum 1) "plain/x" VUndefined) example_engine2
    = (MkCogSocket (Some p1) false, tr1, Ret tt) /\
    eventSenders p1 !! "plain/x" = Some (VSender "plain/x") /\
    sent_frames tr1
    = [TextFrame (error_response (VNum 1) (VNum (-1)) (VStr text))] /\
    socketMessage example_host2
      (example_message "listen" (VNum 2) "plain/x" VUndefined)
      (MkCogSocket (Some p1) false)
    = (MkCogSocket (Some p1) false, tr2, Ret tt) /\
    sent_frames tr2 = [TextFrame (response (VNum 2) VUndefined)] /\
    invocations (tr1 ++ tr2) = [].
Proof.
  refine (failed_listen_leaves_its_sender example_host2
            (MkPriv example_root2 VUndefined 0 ∅ ∅ ∅ ConnectionObject
               VUndefined VUndefined) false
            (request "listen" (VNum 1) "plain/x" VUndefined)
            (request "listen" (VNum 2) "plain/x" VUndefined)
            (VNum 1) (VNum 2) "plain/x" VUndefined VUndefined
            (MkParsed (VObj false [("x", VNum 1)]) "x" false ["plain"])
            _ _ _ _ _ _).
  - repeat split.
  - repeat split.
  - reflexivity.
  - reflexivity.
  - vm_compute. reflexivity.
  - reflexivity.
Defined.


(* ===================================================================== *)
(** ** The engine after [close]                                            *)
(* ===================================================================== *)

Lemma quiet_silent tr :
  quiet tr -> sent_frames tr = [] /\ invocations tr = [] /\ notifications tr = [].
Proof.
  induction 1 as [|e tr He _ IH]; [auto|].
  destruct IH as (IH1 & IH2 & IH3).
  destruct e; try discriminate He; cbn; auto.
Qed.

Lemma closed_fails_quiet {A} (m : M A) : closed_fails m -> closed_quiet m.
Proof. intros Hm s Hc. destruct (Hm s Hc) as (H1 & H2 & _). auto. Qed.

Lemma closed_quiet_ret {A} (a : A) : closed_quiet (mret a).
Proof. intros s _. split; [reflexivity | constructor]. Qed.

Lemma closed_quiet_lift {A} (o : outcome A) : closed_quiet (lift o).
Proof. intros s _. split; [reflexivity | constructor]. Qed.

Lemma closed_quiet_log_if l : closed_quiet (log_if l).
Proof.
  intros s _. split; [reflexivity|]. cbn. destruct (log s); repeat constructor.
Qed.

Lemma closed_quiet_is_logging : closed_quiet is_logging.
Proof. intros s _. split; [reflexivity | constructor]. Qed.

Lemma closed_quiet_emit e : is_log_event e = true -> closed_quiet (emit e).
Proof. intros He s _. split; [reflexivity | repeat constructor; exact He]. Qed.

Lemma closed_fails_throw {A} ex : closed_fails (@throw A ex).
Proof. intros s _. split; [reflexivity|]. split; [constructor | eexists; reflexivity]. Qed.

Lemma closed_fails_read_priv : closed_fails read_priv.
Proof.
  intros s Hc. unfold read_priv. rewrite Hc.
  split; [reflexivity|]. split; [constructor | eexists; reflexivity].
Qed.

Lemma closed_fails_modify_priv f : closed_fails (modify_priv f).
Proof.
  intros s Hc. unfold modify_priv. rewrite Hc.
  split; [reflexivity|]. split; [constructor | eexists; reflexivity].
Qed.

Lemma closed_quiet_bind {A B} (m : M A) (k : A -> M B) :
  closed_quiet m -> (forall a, closed_quiet (k a)) -> closed_quiet (m ≫= k).
Proof.
  intros Hm Hk s Hc. rewrite bind_eq.
  destruct (Hm s Hc) as [H1 Q1].
  destruct (m s) as [[s1 e1] [a|ex]]; cbn [fst snd] in *; [|auto]. subst s1.
  destruct (Hk a s Hc) as [H2 Q2].
  destruct (k a s) as [[s2 e2] r2]; cbn [fst snd] in *.
  split; [assumption|]. apply Forall_app; auto.
Qed.

(** A sequence fails when its head does, and when its tail always does. *)
Lemma closed_fails_bind_l {A B} (m : M A) (k : A -> M B) :
  closed_fails m -> closed_fails (m ≫= k).
Proof.
  intros Hm s Hc. rewrite bind_eq.
  destruct (Hm s Hc) as (H1 & Q1 & ex & E1).
  destruct (m s) as [[s1 e1] r]; cbn [fst snd] in *. subst r.
  split; [assumption|]. split; [assumption|]. eexists; reflexivity.
Qed.

Lemma closed_fails_bind_r {A B} (m : M A) (k : A -> M B) :
  closed_quiet m -> (forall a, closed_fails (k a)) -> closed_fails (m ≫= k).
Proof.
  intros Hm Hk s Hc. rewrite bind_eq.
  destruct (Hm s Hc) as [H1 Q1].
  destruct (m s) as [[s1 e1] [a|ex]]; cbn [fst snd] in *; subst s1.
  - destruct (Hk a s Hc) as (H2 & Q2 & ex & E2).
    destruct (k a s) as [[s2 e2] r2]; cbn [fst snd] in *. subst r2.
    split; [assumption|]. split; [apply Forall_app; auto|]. eexists; reflexivity.
  - split; [reflexivity|]. split; [assumption|]. eexists; reflexivity.
Qed.

Lemma closed_quiet_attempt {A} (m : M A) : closed_quiet m -> closed_quiet (attempt m).
Proof.
  intros Hm s Hc. unfold attempt. destruct (Hm s Hc) as [H1 Q1].
  destruct (m s) as [[s1 e1] o]; cbn [fst snd] in *. auto.
Qed.

Lemma closed_fails_sendRequest type path oncomplete body :
  closed_fails (sendRequest type path oncomplete body).
Proof.
  unfold sendRequest. destruct oncomplete as [cb|].
  - apply closed_fails_bind_l, closed_fails_bind_l, closed_fails_read_priv.
  - apply closed_fails_bind_r; [apply closed_quiet_ret|]. intros rid.
    apply closed_fails_bind_l, closed_fails_read_priv.
Qed.

Lemma closed_fails_parsePath path : closed_fails (parsePath path).
Proof.
  unfold parsePath. apply closed_fails_bind_r.
  - unfold path_prefix. destruct (truthy path); [|apply closed_quiet_ret].
    destruct path; try apply closed_fails_quiet, closed_fails_throw.
    destruct (String.eqb _ _); apply closed_quiet_ret.
  - intros [conn rest]. apply closed_fails_bind_l, closed_fails_read_priv.
Qed.

(** [sendResponse] needs the engine only when there is an id to answer. *)
Lemma closed_fails_sendResponse id body :
  truthy id = true -> closed_fails (sendResponse id body).
Proof.
  intros Hid. unfold sendResponse. rewrite Hid. cbv zeta.
  apply closed_fails_bind_l, closed_fails_read_priv.
Qed.

Lemma closed_quiet_sendResponse id body : closed_quiet (sendResponse id body).
Proof.
  destruct (truthy id) eqn:Hid.
  - apply closed_fails_quiet, closed_fails_sendResponse, Hid.
  - unfold sendResponse. rewrite Hid. apply closed_quiet_ret.
Qed.

(** Every case of the [switch] reads [this._priv] before it does anything
    that can be seen, so on a closed engine every case throws. *)
Lemma closed_fails_dispatch H rq : closed_fails (dispatch H rq).
Proof.
  assert (Hu : forall type, closed_fails (handle_unknown type)).
  { intros type. unfold handle_unknown.
    apply closed_fails_bind_r; [apply closed_quiet_lift|].
    intros name. apply closed_fails_throw. }
  unfold dispatch. destruct (in_type rq); try apply Hu.
  repeat match goal with
         | |- closed_fails (if ?b then _ else _) => destruct b
         end; try apply Hu.
  - apply closed_fails_bind_l, closed_fails_parsePath.
  - apply closed_fails_bind_l, closed_fails_parsePath.
  - apply closed_fails_bind_l, closed_fails_parsePath.
  - apply closed_fails_bind_l, closed_fails_read_priv.
  - unfold handle_event. apply closed_fails_bind_r; [apply closed_quiet_lift|].
    intros body. cbv zeta. apply closed_fails_bind_l, closed_fails_read_priv.
  - apply closed_fails_bind_l, closed_fails_read_priv.
  - apply closed_fails_bind_l, closed_fails_read_priv.
Qed.

Lemma closed_quiet_prelude d : closed_quiet (prelude d).
Proof.
  unfold prelude. destruct d.
  - apply closed_fails_quiet, closed_fails_bind_l, closed_fails_read_priv.
  - repeat (apply closed_quiet_bind;
            [first [apply closed_quiet_log_if | apply closed_quiet_lift]|intros ?]).
    apply closed_quiet_ret.
Qed.

Lemma closed_quiet_on_exception id ex : closed_quiet (on_exception id ex).
Proof.
  unfold on_exception.
  apply closed_quiet_bind; [apply closed_quiet_is_logging|]. intros logging.
  apply closed_quiet_bind.
  { destruct logging; [|apply closed_quiet_ret].
    apply closed_quiet_bind; [apply closed_quiet_lift|]. intros _.
    apply closed_quiet_emit. reflexivity. }
  intros _. apply closed_quiet_bind; [apply closed_quiet_lift|]. intros _.
  apply closed_quiet_bind; [apply closed_quiet_emit; reflexivity|]. intros _.
  destruct (truthy id); [apply closed_quiet_sendResponse | apply closed_quiet_ret].
Qed.

Lemma closed_quiet_socketMessage H d : closed_quiet (socketMessage H d).
Proof.
  unfold socketMessage.
  apply closed_quiet_bind; [apply closed_quiet_log_if|]. intros _.
  apply closed_quiet_bind; [apply closed_quiet_attempt, closed_quiet_prelude|].
  intros [[rq|]|ex].
  - apply closed_quiet_bind;
      [apply closed_quiet_attempt, closed_fails_quiet, closed_fails_dispatch|].
    intros [[]|ex].
    + apply closed_quiet_ret.
    + apply closed_quiet_on_exception.
  - apply closed_quiet_ret.
  - apply closed_quiet_on_exception.
Qed.

(** The calls of the public interface that throw on a closed engine. *)
Lemma closed_fails_get path oc : closed_fails (get path oc).
Proof. apply closed_fails_bind_l, closed_fails_sendRequest. Qed.

Lemma closed_fails_put path body oc : closed_fails (put path body oc).
Proof. apply closed_fails_bind_l, closed_fails_sendRequest. Qed.

Lemma closed_fails_post path body oc : closed_fails (post path body oc).
Proof. apply closed_fails_bind_l, closed_fails_sendRequest. Qed.

Lemma closed_fails_addListener H path l oc : closed_fails (addListener H path l oc).
Proof. apply closed_fails_bind_l, closed_fails_read_priv. Qed.

Lemma closed_fails_removeListener H path l oc :
  closed_fails (removeListener H path l oc).
Proof. apply closed_fails_bind_l, closed_fails_read_priv. Qed.

Lemma closed_run_op H o s :
  closed s ->
  closed (fst (fst (run_op H o s))) /\ quiet (snd (fst (run_op H o s))).
Proof.
  intros Hc.
  assert (Hq : forall m : M unit, closed_quiet m ->
                 closed (fst (fst (m s))) /\ quiet (snd (fst (m s)))).
  { intros m Hm. destruct (Hm s Hc) as [-> Q]. auto. }
  destruct o; cbn [run_op].
  - apply Hq, closed_fails_quiet, closed_fails_get.
  - apply Hq, closed_fails_quiet, closed_fails_put.
  - apply Hq, closed_fails_quiet, closed_fails_post.
  - apply Hq, closed_fails_quiet, closed_fails_addListener.
  - apply Hq, closed_fails_quiet, closed_fails_removeListener.
  - unfold close. rewrite Hc. split; [exact Hc | constructor].
  - split; [exact Hc | constructor].
  - apply Hq, closed_quiet_socketMessage.
Qed.

Lemma closed_run_ops H ops : forall s,
  closed s ->
  closed (fst (run_ops H ops s)) /\ quiet (snd (run_ops H ops s)).
Proof.
  induction ops as [|o ops IH]; intros s Hc; cbn [run_ops].
  - split; [exact Hc | constructor].
  - destruct (closed_run_op H o s Hc) as [C1 Q1].
    destruct (run_op H o s) as [[s1 tr1] r1]; cbn [fst snd] in *.
    destruct (IH s1 C1) as [C2 Q2].
    destruct (run_ops H ops s1) as [s2 tr2]; cbn [fst snd] in *.
    split; [exact C2 | apply Forall_app; auto].
Qed.

(** X12 (src/cogsocket.js, close and every function that reads this._priv):
    once an engine has been closed, nothing brings it back and nothing makes
    it act.  Over every history that follows the close, whatever is called
    and whatever frame arrives, the engine stays closed, sends no frame,
    calls no function of the object graph, no continuation and no listener,
    and does not close the transport a second time.  (The histories are
    those of calls and frames.  A sender that was handed to the object graph
    before the close holds the private state in its closure and would still
    write to the transport if the host called it.) *)
Theorem closed_engine_is_inert H root space before after :
  let s := fst (run_ops H (before ++ [OpClose]) (new_CogSocket root space)) in
  let tr := snd (run_ops H after s) in
  closed s /\
  closed (fst (run_ops H after s)) /\
  sent_frames tr = [] /\ invocations tr = [] /\ notifications tr = [] /\
  TransportClosed ∉ tr.
Proof.
  intros s tr.
  assert (Hs : closed s).
  { unfold s. generalize (new_CogSocket root space). clear s tr.
    induction before as [|o ops IH]; intros s0; cbn [app run_ops].
    - unfold run_op, close. destruct (_priv s0) eqn:E; [reflexivity | exact E].
    - destruct (run_op H o s0) as [[s1 tr1] r1].
      specialize (IH s1). destruct (run_ops H (ops ++ [OpClose]) s1). exact IH. }
  destruct (closed_run_ops H after s Hs) as [C Q]. fold tr in Q.
  destruct (quiet_silent tr Q) as (Q1 & Q2 & Q3).
  repeat split; try assumption.
  intros Hin. unfold quiet in Q. rewrite Forall_forall in Q.
  specialize (Q _ Hin). discriminate Q.
Qed.

Lemma closed_fails_on_exception id ex :
  truthy id = true -> closed_fails (on_exception id ex).
Proof.
  intros Hid. unfold on_exception.
  apply closed_fails_bind_r; [apply closed_quiet_is_logging|]. intros logging.
  apply closed_fails_bind_r.
  { destruct logging; [|apply closed_quiet_ret].
    apply closed_quiet_bind; [apply closed_quiet_lift|]. intros _.
    apply closed_quiet_emit. reflexivity. }
  intros _. apply closed_fails_bind_r; [apply closed_quiet_lift|]. intros _.
  apply closed_fails_bind_r; [apply closed_quiet_emit; reflexivity|]. intros _.
  rewrite Hid. apply closed_fails_sendResponse, Hid.
Qed.

(** X13 (src/cogsocket.js, get, put, post, addListener, removeListener and
    sendRequest): only close tolerates a closed engine.  Every other call of
    the public interface on a closed engine throws the TypeError of reading
    a member of the deleted _priv, before anything is logged, sent or
    called, and the continuation it was given is never called. *)
Theorem call_on_closed_engine_throws H o s :
  closed s ->
  is_call o = true ->
  run_op H o s = (s, [], Throw (TypeError "Cannot read properties of undefined")).
Proof.
  intros Hc Ho. destruct s as [[p|] lg]; [discriminate Hc|].
  destruct o as [path oc|path body oc|path body oc|path l oc|path l oc| | |];
    try discriminate Ho; try (destruct oc; reflexivity).
Qed.

(** A post with a continuation after the engine of the example was closed. *)
Lemma call_on_closed_engine_throws_witness :
  run_op example_host (OpPost "a/b/op" VNull (Some 5%nat)) (MkCogSocket None false)
  = (MkCogSocket None false, [],
     Throw (TypeError "Cannot read properties of undefined")).
Proof.
  apply (call_on_closed_engine_throws example_host
           (OpPost "a/b/op" VNull (Some 5%nat)) (MkCogSocket None false));
    reflexivity.
Defined.

(** X14 (src/cogsocket.js, socketMessage and sendResponse): on a closed
    engine the catch block of socketMessage does not contain the failure of
    a request that has an id.  Every case of the switch throws for want of
    _priv; the catch block then calls sendResponse, which reads
    this._priv.space and throws in turn, so the exception leaves the message
    handler.  Nothing is sent and the engine stays closed. *)
Theorem request_on_closed_engine_escapes H s message t id path body :
  closed s ->
  is_message message (VStr t) id path body ->
  String.eqb t "resp" = false ->
  truthy id = true ->
  exists tr ex,
    socketMessage H (Text (Ret message)) s = (s, tr, Throw ex) /\
    sent_frames tr = [] /\ invocations tr = [].
Proof.
  intros Hc Hm Ht Hid.
  rewrite (socketMessage_text H s message t id path body Hm), Ht. cbv zeta.
  destruct (closed_fails_dispatch H (MkInbound message path (VStr t) id) s Hc)
    as (H1 & Q1 & ex & E1).
  destruct (dispatch H _ s) as [[s1 tr1] r1]; cbn [fst snd] in *. subst s1 r1.
  destruct (closed_fails_on_exception id ex Hid s Hc) as (H2 & Q2 & ex2 & E2).
  destruct (on_exception id ex s) as [[s2 tr2] r2]; cbn [fst snd] in *. subst s2 r2.
  exists (log_events s [LogOnMessage; LogGot (Ret message)] ++ tr1 ++ tr2), ex2.
  split; [reflexivity|].
  destruct (quiet_silent _ Q1) as (A1 & B1 & _).
  destruct (quiet_silent _ Q2) as (A2 & B2 & _).
  rewrite !sent_frames_app, !invocations_app, sent_frames_log_events,
    invocations_log_events, A1, A2, B1, B2. auto.
Qed.

(** A get with id 7 after the engine of the example was closed. *)
Lemma request_on_closed_engine_escapes_witness :
  exists tr ex,
    socketMessage example_host (example_message "get" (VNum 7) "state" VUndefined)
      (MkCogSocket None false)
    = (MkCogSocket None false, tr, Throw ex) /\
    sent_frames tr = [] /\ invocations tr = [].
Proof.
  apply (request_on_closed_engine_escapes example_host (MkCogSocket None false)
           (request "get" (VNum 7) "state" VUndefined) "get" (VNum 7) (VStr "state")
           VUndefined).
  - reflexivity.
  - repeat split.
  - reflexivity.
  - reflexivity.
Defined.

(* ===================================================================== *)
(** ** The connection object                                               *)
(* ===================================================================== *)

(** [hello] once the local information is known. *)
Lemma hello_known H info p lg :
  truthy (localInfo p) = true ->
  hello H info (MkCogSocket (Some p) lg)
  = (MkCogSocket (Some (set_remoteInfo info p)) lg, [], Ret (localInfo p)).
Proof.
  intros Hli. unfold hello. unfold_M. cbn. rewrite Hli. reflexivity.
Qed.

(** The first [hello] where [process] is an object with a platform. *)
Lemma hello_node H info p lg proc plat :
  truthy (localInfo p) = false ->
  env_process H = Some proc ->
  truthy proc = true ->
  get_member proc "platform" = Ret plat ->
  let li := VObj false
              [("model", plat);
               ("name", match env_os_hostname H with
                        | Ret name => name
                        | Throw _ => VStr "In-Sight?"
                        end)] in
  hello H info (MkCogSocket (Some p) lg)
  = (MkCogSocket (Some (set_localInfo li (set_remoteInfo info p))) lg, [], Ret li).
Proof.
  intros Hli Hproc Htr Hplat li. unfold hello. unfold_M. cbn.
  rewrite Hli, Hproc, Htr, Hplat. cbn.
  destruct (env_os_hostname H); reflexivity.
Qed.

(** The first [hello] where [process] is not declared. *)
Lemma hello_no_process H info p lg :
  truthy (localInfo p) = false ->
  env_process H = None ->
  hello H info (MkCogSocket (Some p) lg)
  = (MkCogSocket (Some (set_localInfo (VObj false []) (set_remoteInfo info p))) lg, [],
     Throw (ReferenceError "process is not defined")).
Proof.
  intros Hli Hproc. unfold hello. unfold_M. cbn. rewrite Hli, Hproc. reflexivity.
Qed.

(** A post to [@/hello] calls [hello] with the first argument. *)
Lemma handle_post_hello H p lg message id body :
  connection p = ConnectionObject ->
  get_member message "body" = Ret body ->
  handle_post H message (VStr "@/hello") id (MkCogSocket (Some p) lg) =
    match hello H (nth 0 (positional_arguments body) VUndefined)
            (MkCogSocket (Some p) lg) with
    | (s1, tr, Ret v) =>
        let '(s2, tr2, r) := sendResponse id v s1 in (s2, tr ++ tr2, r)
    | (s1, tr, Throw ex) => (s1, tr, Throw ex)
    end.
Proof.
  intros Hconn Hb. unfold handle_post.
  rewrite bind_eq, parsePath_eq.
  change (VStr "@/hello") with (VStr ("@/" +:+ "hello")).
  rewrite (resolve_connection_member (MkCogSocket (Some p) lg) p "hello" "hello"
             eq_refl Hconn eq_refl).
  erewrite bind_ret_eq by reflexivity.
  erewrite bind_ret_eq by (unfold lift; rewrite Hb; reflexivity).
  cbn [app]. rewrite bind_eq.
  assert (Hcall :
    match body with
    | VArr elems | VFrozenArr elems => method_apply H VHello ConnectionObject elems
    | _ => method_call H VHello ConnectionObject body
    end = hello H (nth 0 (positional_arguments body) VUndefined)).
  { destruct body; reflexivity. }
  cbn [obj prop get_member]. 
  change (lookup_prop "hello" [("hello", VHello)]) with VHello in *.
  rewrite Hcall.
  destruct (hello H _ _) as [[s1 tr] [v|ex]]; [|reflexivity].
  destruct (sendResponse id v s1) as [[s2 tr2] r]. reflexivity.
Qed.

(** A post to [@/hello] on an open engine, by what [hello] does. *)
Lemma hello_request_eq H p lg message id body p1 fr props :
  connection p = ConnectionObject ->
  is_message message (VStr "post") id (VStr "@/hello") body ->
  hello H (nth 0 (positional_arguments body) VUndefined) (MkCogSocket (Some p) lg)
  = (MkCogSocket (Some p1) lg, [], Ret (VObj fr props)) ->
  exists tr,
    socketMessage H (Text (Ret message)) (MkCogSocket (Some p) lg)
    = (MkCogSocket (Some p1) lg, tr, Ret tt) /\
    sent_frames tr
    = (if truthy id then [TextFrame (response id (VObj fr props))] else []) /\
    invocations tr = [].
Proof.
  intros Hconn Hm Hh. pose proof Hm as (_ & _ & _ & Hb).
  rewrite (socketMessage_text H _ message "post" id _ body Hm).
  cbn -[handle_post on_exception].
  rewrite (handle_post_hello H p lg message id body Hconn Hb), Hh.
  destruct (truthy id) eqn:Eid.
  - rewrite (sendResponse_open (MkCogSocket (Some p1) lg) p1 id _ eq_refl Eid).
    eexists. split; [reflexivity|]. split.
    + rewrite sent_frames_app, sent_frames_log_events. cbn [app].
      apply sent_frames_request_events.
    + rewrite invocations_app, invocations_log_events. cbn [app].
      apply invocations_request_events.
  - rewrite (sendResponse_no_id _ id _ Eid).
    eexists. split; [reflexivity|]. split.
    + rewrite sent_frames_app, sent_frames_log_events. reflexivity.
    + rewrite invocations_app, invocations_log_events. reflexivity.
Qed.

Lemma hello_request_throws H p lg message id body p1 msg :
  connection p = ConnectionObject ->
  is_message message (VStr "post") id (VStr "@/hello") body ->
  hello H (nth 0 (positional_arguments body) VUndefined) (MkCogSocket (Some p) lg)
  = (MkCogSocket (Some p1) lg, [], Throw (VError VUndefined (VStr msg))) ->
  exists tr,
    socketMessage H (Text (Ret message)) (MkCogSocket (Some p) lg)
    = (MkCogSocket (Some p1) lg, tr, Ret tt) /\
    sent_frames tr
    = (if truthy id then [TextFrame (error_response id (VNum (-1)) (VStr msg))] else []) /\
    invocations tr = [].
Proof.
  intros Hconn Hm Hh. pose proof Hm as (_ & _ & _ & Hb).
  rewrite (socketMessage_text H _ message "post" id _ body Hm).
  cbn -[handle_post on_exception].
  rewrite (handle_post_hello H p lg message id body Hconn Hb), Hh.
  destruct (truthy id) eqn:Eid.
  - rewrite (on_exception_Error (MkCogSocket (Some p1) lg) p1 id VUndefined msg
               eq_refl Eid).
    eexists. split; [reflexivity|]. split.
    + rewrite !sent_frames_app, !sent_frames_log_events. cbn.
      rewrite sent_frames_request_events. reflexivity.
    + rewrite !invocations_app, !invocations_log_events. cbn.
      rewrite invocations_request_events. reflexivity.
  - rewrite (on_exception_Error_no_id _ id VUndefined msg Eid).
    eexists. split; [reflexivity|]. split.
    + rewrite !sent_frames_app, !sent_frames_log_events. reflexivity.
    + rewrite !invocations_app, !invocations_log_events. reflexivity.
Qed.

(** X15 (src/cogsocket.js, ConnectionObject, lines 458-479): the first post
    to @/hello in an environment where process is an object stores the
    argument as the remote information, builds the local information from
    process.platform and os.hostname() (In-Sight? when that throws), stores
    it, and answers with it.  The argument is the body, or the first element
    of an array body. *)
Theorem hello_describes_a_node_host H p lg message id body proc plat :
  connection p = ConnectionObject ->
  is_message message (VStr "post") id (VStr "@/hello") body ->
  truthy (localInfo p) = false ->
  env_process H = Some proc ->
  truthy proc = true ->
  get_member proc "platform" = Ret plat ->
  let info := nth 0 (positional_arguments body) VUndefined in
  let li := VObj false
              [("model", plat);
               ("name", match env_os_hostname H with
                        | Ret name => name
                        | Throw _ => VStr "In-Sight?"
                        end)] in
  exists tr,
    socketMessage H (Text (Ret message)) (MkCogSocket (Some p) lg)
    = (MkCogSocket (Some (set_localInfo li (set_remoteInfo info p))) lg, tr, Ret tt) /\
    sent_frames tr = (if truthy id then [TextFrame (response id li)] else []) /\
    invocations tr = [].
Proof.
  intros Hconn Hm Hli Hproc Htr Hplat info li.
  apply (hello_request_eq H p lg message id body _ false _ Hconn Hm).
  apply (hello_node H info p lg proc plat Hli Hproc Htr Hplat).
Qed.

(** The host of the examples: platform linux, no host name. *)
Lemma hello_describes_a_node_host_witness :
  exists p1 tr,
    socketMessage example_host
      (example_message "post" (VNum 1) "@/hello" (VArr [VStr "remote"; VNum 2]))
      example_engine
    = (MkCogSocket (Some p1) false, tr, Ret tt) /\
    remoteInfo p1 = VStr "remote" /\
    localInfo p1 = VObj false [("model", VStr "linux"); ("name", VStr "In-Sight?")] /\
    sent_frames tr
    = [TextFrame (response (VNum 1)
         (VObj false [("model", VStr "linux"); ("name", VStr "In-Sight?")]))].
Proof.
  destruct (hello_describes_a_node_host example_host
              (MkPriv example_root (VNum 2) 0 ∅ ∅ ∅ ConnectionObject
                 VUndefined VUndefined) false
              (request "post" (VNum 1) "@/hello" (VArr [VStr "remote"; VNum 2]))
              (VNum 1) (VArr [VStr "remote"; VNum 2])
              (VObj false [("platform", VStr "linux")]) (VStr "linux"))
    as (tr & Hrun & Hs & _).
  - reflexivity.
  - repeat split.
  - reflexivity.
  - reflexivity.
  - reflexivity.
  - reflexivity.
  - eexists _, tr. split; [exact Hrun|]. split; [reflexivity|].
    split; [reflexivity|exact Hs].
Defined.

(** X16 (src/cogsocket.js, ConnectionObject, lines 461-477): the test
    [if (process)] reads an identifier, so where process is not declared the
    first post to @/hello throws a ReferenceError before the browser branch
    can be reached; it is answered with an error response when it has an id.
    The local information has already been set to an empty object by then,
    so a second post to @/hello does not try again: it is answered with the
    empty object, and only the remote information changes. *)
Theorem hello_without_process_leaves_empty_info H p lg m1 m2 id1 id2 b1 b2 :
  connection p = ConnectionObject ->
  is_message m1 (VStr "post") id1 (VStr "@/hello") b1 ->
  is_message m2 (VStr "post") id2 (VStr "@/hello") b2 ->
  truthy (localInfo p) = false ->
  env_process H = None ->
  let info1 := nth 0 (positional_arguments b1) VUndefined in
  let info2 := nth 0 (positional_arguments b2) VUndefined in
  let p1 := set_localInfo (VObj false []) (set_remoteInfo info1 p) in
  let p2 := set_remoteInfo info2 p1 in
  exists tr1 tr2,
    socketMessage H (Text (Ret m1)) (MkCogSocket (Some p) lg)
    = (MkCogSocket (Some p1) lg, tr1, Ret tt) /\
    sent_frames tr1
    = (if truthy id1
       then [TextFrame (error_response id1 (VNum (-1)) (VStr "process is not defined"))]
       else []) /\
    socketMessage H (Text (Ret m2)) (MkCogSocket (Some p1) lg)
    = (MkCogSocket (Some p2) lg, tr2, Ret tt) /\
    sent_frames tr2
    = (if truthy id2 then [TextFrame (response id2 (VObj false []))] else []).
Proof.
  intros Hconn Hm1 Hm2 Hli Hproc info1 info2 p1 p2.
  destruct (hello_request_throws H p lg m1 id1 b1 p1 "process is not defined" Hconn Hm1
              (hello_no_process H info1 p lg Hli Hproc)) as (tr1 & Hrun1 & Hs1 & _).
  assert (Hconn1 : connection p1 = ConnectionObject) by exact Hconn.
  destruct (hello_request_eq H p1 lg m2 id2 b2 p2 false [] Hconn1 Hm2
              (hello_known H info2 p1 lg eq_refl)) as (tr2 & Hrun2 & Hs2 & _).
  exists tr1, tr2. auto.
Qed.

(** Two posts to @/hello of a new engine in a browser-like environment. *)
Lemma hello_without_process_leaves_empty_info_witness :
  exists p1 p2 tr1 tr2,
    socketMessage example_host2 (example_message "post" (VNum 1) "@/hello" (VStr "a"))
      example_engine2
    = (MkCogSocket (Some p1) false, tr1, Ret tt) /\
    sent_frames tr1
    = [TextFrame (error_response (VNum 1) (VNum (-1)) (VStr "process is not defined"))] /\
    socketMessage example_host2 (example_message "post" (VNum 2) "@/hello" (VStr "b"))
      (MkCogSocket (Some p1) false)
    = (MkCogSocket (Some p2) false, tr2, Ret tt) /\
    sent_frames tr2 = [TextFrame (response (VNum 2) (VObj false []))] /\
    remoteInfo p2 = VStr "b".
Proof.
  destruct (hello_without_process_leaves_empty_info example_host2
              (MkPriv example_root2 VUndefined 0 ∅ ∅ ∅ ConnectionObject
                 VUndefined VUndefined) false
              (request "post" (VNum 1) "@/hello" (VStr "a"))
              (request "post" (VNum 2) "@/hello" (VStr "b"))
              (VNum 1) (VNum 2) (VStr "a") (VStr "b"))
    as (tr1 & tr2 & Hrun1 & Hs1 & Hrun2 & Hs2).
  - reflexivity.
  - repeat split.
  - repeat split.
  - reflexivity.
  - reflexivity.
  - eexists _, _, tr1, tr2. split; [exact Hrun1|]. split; [exact Hs1|].
    split; [exact Hrun2|]. split; [exact Hs2|]. reflexivity.
Defined.

(** X17 (src/cogsocket.js, ConnectionObject, lines 458-479): once the local
    information is an object, every post to @/hello answers with that same
    object whatever the environment is, and changes nothing of the engine
    but the remote information, which becomes the argument of the post. *)
Theorem hello_is_worked_out_once H p lg message id body fr props :
  connection p = ConnectionObject ->
  is_message message (VStr "post") id (VStr "@/hello") body ->
  localInfo p = VObj fr props ->
  exists tr,
    socketMessage H (Text (Ret message)) (MkCogSocket (Some p) lg)
    = (MkCogSocket
         (Some (set_remoteInfo (nth 0 (positional_arguments body) VUndefined) p)) lg,
       tr, Ret tt) /\
    sent_frames tr = (if truthy id then [TextFrame (response id (VObj fr props))] else []) /\
    invocations tr = [].
Proof.
  intros Hconn Hm Hli.
  apply (hello_request_eq H p lg message id body _ fr props Hconn Hm).
  rewrite <- Hli. apply hello_known. rewrite Hli. reflexivity.
Qed.

(** A hello without argument on an engine that knows its local information. *)
Lemma hello_is_worked_out_once_witness :
  exists tr,
    socketMessage example_host2 (example_message "post" (VNum 9) "@/hello" (VArr []))
      (MkCogSocket
         (Some (MkPriv example_root2 VUndefined 0 ∅ ∅ ∅ ConnectionObject
                  (VStr "peer") (VObj false [("name", VStr "Browser")]))) false)
    = (MkCogSocket
         (Some (MkPriv example_root2 VUndefined 0 ∅ ∅ ∅ ConnectionObject
                  VUndefined (VObj false [("name", VStr "Browser")]))) false,
       tr, Ret tt) /\
    sent_frames tr
    = [TextFrame (response (VNum 9) (VObj false [("name", VStr "Browser")]))].
Proof.
  destruct (hello_is_worked_out_once example_host2
              (MkPriv example_root2 VUndefined 0 ∅ ∅ ∅ ConnectionObject
                 (VStr "peer") (VObj false [("name", VStr "Browser")])) false
              (request "post" (VNum 9) "@/hello" (VArr []))
              (VNum 9) (VArr []) false [("name", VStr "Browser")])
    as (tr & Hrun & Hs & _).
  - reflexivity.
  - repeat split.
  - reflexivity.
  - exists tr. split; [exact Hrun|exact Hs].
Defined.

(* ===================================================================== *)
(** ** Frames that are no message of the protocol                          *)
(* ===================================================================== *)

Lemma dispatch_unknown_kind H message path t id s :
  t ∉ known_kinds ->
  dispatch H (MkInbound message path (VStr t) id) s
  = (s, [], Throw (new_Error ("Request type '" +:+ t +:+ "' is not supported."))).
Proof.
  intros Ht. unfold dispatch. cbn [in_type].
  repeat match goal with
         | |- context [String.eqb t ?k] =>
             destruct (String.eqb_spec t k) as [->|_];
               [exfalso; apply Ht; unfold known_kinds; set_solver|]
         end.
  reflexivity.
Qed.

(** X18 (src/cogsocket.js, default case of the switch in socketMessage): a
    message whose $type is a string other than get, put, post, resp, event,
    listen and unlisten changes nothing and calls nothing; when it has an id
    it is answered with an error response of code -1 whose body names the
    kind, and otherwise with nothing. *)
Theorem unknown_kind_is_rejected H s p message t id path body :
  _priv s = Some p ->
  is_message message (VStr t) id path body ->
  t ∉ known_kinds ->
  exists tr,
    socketMessage H (Text (Ret message)) s = (s, tr, Ret tt) /\
    sent_frames tr =
      (if truthy id
       then [TextFrame
               (error_response id (VNum (-1))
                  (VStr ("Request type '" +:+ t +:+ "' is not supported.")))]
       else []) /\
    invocations tr = [].
Proof.
  intros Hp Hm Ht.
  apply (error_is_answered H s p message t id path body _ Hp Hm).
  - destruct (String.eqb_spec t "resp") as [->|_]; [|reflexivity].
    exfalso. apply Ht. unfold known_kinds. set_solver.
  - apply dispatch_unknown_kind, Ht.
Qed.

(** A delete request, which the protocol of the engine does not have. *)
Lemma unknown_kind_is_rejected_witness :
  exists tr,
    socketMessage example_host (example_message "delete" (VNum 4) "state" VUndefined)
      example_engine
    = (example_engine, tr, Ret tt) /\
    sent_frames tr
    = [TextFrame (error_response (VNum 4) (VNum (-1))
                    (VStr "Request type 'delete' is not supported."))].
Proof.
  destruct (unknown_kind_is_rejected example_host example_engine
              (MkPriv example_root (VNum 2) 0 ∅ ∅ ∅ ConnectionObject
                 VUndefined VUndefined)
              (request "delete" (VNum 4) "state" VUndefined)
              "delete" (VNum 4) (VStr "state") VUndefined)
    as (tr & Hrun & Hs & _).
  - reflexivity.
  - repeat split.
  - unfold known_kinds. intros Hin.
    repeat (apply elem_of_cons in Hin as [Hin|Hin]; [discriminate Hin|]).
    apply elem_of_nil in Hin. exact Hin.
  - exists tr. split; [exact Hrun|exact Hs].
Defined.

(** X19 (src/cogsocket.js, socketMessage, lines 263-286 and 412-420): a text
    frame that JSON.parse rejects with an Error object, and a text frame
    that parses to null, are dropped: requestId is still 0 when the
    exception is caught, so nothing is sent whatever the frame claimed to
    be; nothing is called, the engine, open or closed, is left as it is, and
    the handler returns. *)
Theorem malformed_frame_is_dropped H s d :
  (exists n msg, d = Text (Throw (VError n (VStr msg)))) \/ d = Text (Ret VNull) ->
  exists tr,
    socketMessage H d s = (s, tr, Ret tt) /\
    sent_frames tr = [] /\ invocations tr = [] /\ notifications tr = [].
Proof.
  intros [(n & msg & ->)| ->].
  - unfold socketMessage.
    erewrite bind_ret_eq by reflexivity.
    erewrite bind_ret_eq by reflexivity.
    cbv beta iota.
    rewrite (on_exception_Error_no_id s (VNum 0) n msg eq_refl).
    eexists. split; [reflexivity|].
    unfold log_events. destruct (log s); repeat split; reflexivity.
  - unfold socketMessage.
    erewrite bind_ret_eq by reflexivity.
    erewrite bind_ret_eq by reflexivity.
    cbv beta iota. unfold TypeError.
    rewrite (on_exception_Error_no_id s (VNum 0) VUndefined _ eq_refl).
    eexists. split; [reflexivity|].
    unfold log_events. destruct (log s); repeat split; reflexivity.
Qed.

(** A frame that is no JSON text, on the engine of the example. *)
Lemma malformed_frame_is_dropped_witness :
  exists tr,
    socketMessage example_host
      (Text (Throw (VError VUndefined (VStr "Unexpected token"))))
      example_pending_engine
    = (example_pending_engine, tr, Ret tt) /\
    sent_frames tr = [] /\ invocations tr = [] /\ notifications tr = [].
Proof.
  apply (malformed_frame_is_dropped example_host example_pending_engine
           (Text (Throw (VError VUndefined (VStr "Unexpected token"))))).
  left. exists VUndefined, "Unexpected token". reflexivity.
Defined.


(* ===================================================================== *)
(** ** Paths                                                               *)
(* ===================================================================== *)

Lemma strip_append_slash x : strip_trailing_slash (x +:+ "/") = x.
Proof.
  induction x as [|c x IH]; [reflexivity|].
  change (String c x +:+ "/") with (String c (x +:+ "/")).
  cbn [strip_trailing_slash]. rewrite IH.
  destruct x; reflexivity.
Qed.

Lemma strip_no_slash x : ends_in_slash x = false -> strip_trailing_slash x = x.
Proof.
  induction x as [|c x IH]; [reflexivity|].
  cbn [ends_in_slash strip_trailing_slash]. destruct x as [|c' x].
  - intros ->. reflexivity.
  - intros Hx. rewrite (IH Hx). reflexivity.
Qed.

Lemma truthy_String c r : truthy (VStr (String c r)) = true.
Proof. reflexivity. Qed.

Lemma path_prefix_slash ps s :
  ps <> "@" -> ends_in_slash ps = false ->
  exists conn q q',
    path_prefix (VStr (ps +:+ "/")) s = (s, [], Ret (conn, VStr q)) /\
    path_prefix (VStr ps) s = (s, [], Ret (conn, VStr q')) /\
    strip_trailing_slash q = strip_trailing_slash q'.
Proof.
  intros Hat Hsl. destruct ps as [|c [|c2 rest]].
  - exists false, "/", EmptyString. repeat split.
  - exists false, (String c "/"), (String c EmptyString).
    assert (Hc : String.eqb (String c "/") "@/" = false).
    { destruct (String.eqb_spec (String c "/") "@/") as [E|]; [|reflexivity].
      exfalso. apply Hat. congruence. }
    assert (Hc' : String.eqb (String c EmptyString) "@/" = false).
    { destruct (String.eqb_spec (String c EmptyString) "@/"); [discriminate|reflexivity]. }
    split; [|split].
    + change (String c EmptyString +:+ "/") with (String c "/").
      unfold path_prefix. rewrite truthy_String.
      change (substr_0_2 (String c "/")) with (String c "/"). rewrite Hc. reflexivity.
    + unfold path_prefix. rewrite truthy_String.
      change (substr_0_2 (String c EmptyString)) with (String c EmptyString).
      rewrite Hc'. reflexivity.
    + cbn in Hsl. cbn. rewrite Hsl. reflexivity.
  - change (String c (String c2 rest) +:+ "/") with (String c (String c2 (rest +:+ "/"))).
    unfold path_prefix. rewrite !truthy_String.
    rewrite !substr_0_2_prefix.
    cbn [substr_2].
    destruct (String.eqb (String c (String c2 EmptyString)) "@/") eqn:E.
    + exists true, (rest +:+ "/"), rest. repeat split.
      rewrite strip_append_slash. symmetry. apply strip_no_slash.
      destruct rest; [|exact Hsl].
      apply String.eqb_eq in E. injection E as -> ->. discriminate Hsl.
    + exists false, (String c (String c2 (rest +:+ "/"))), (String c (String c2 rest)).
      repeat split.
      change (String c (String c2 (rest +:+ "/")))
        with (String c (String c2 rest) +:+ "/").
      rewrite strip_append_slash. symmetry. apply strip_no_slash, Hsl.
Qed.

Lemma parsePath_after_prefix path s conn q :
  path_prefix path s = (s, [], Ret (conn, VStr q)) ->
  parsePath path s =
    match _priv s with
    | Some p =>
        let root := if conn then connection p else root p in
        if negb (truthy root) then (s, [], Throw (new_Error "No root object is provided"))
        else
          let parts := split "/" (strip_trailing_slash q) in
          match walk root parts with
          | Ret (o, k) => (s, [], Ret (MkParsed o k conn (removelast parts)))
          | Throw ex => (s, [], Throw ex)
          end
    | None => (s, [], Throw (TypeError "Cannot read properties of undefined"))
    end.
Proof.
  intros Hp. unfold parsePath. rewrite bind_eq, Hp. unfold_M.
  destruct (_priv s) as [p|]; [|reflexivity].
  cbn. destruct (negb (truthy (if conn then connection p else root p))); [reflexivity|].
  cbn. destruct (walk _ _) as [[o k]|ex]; reflexivity.
Qed.

(** X20 (src/cogsocket.js, parsePath, lines 424-449): one slash at the end of
    a path is ignored.  For every path but the lone at-sign that does not end
    in a slash itself, the path with a slash appended resolves to the same
    object and the same member name, or fails in the same way, in every
    engine state. *)
Theorem trailing_slash_is_ignored s ps :
  ps <> "@" ->
  ends_in_slash ps = false ->
  resolve s (VStr (ps +:+ "/")) = resolve s (VStr ps).
Proof.
  intros Hat Hsl.
  destruct (path_prefix_slash ps s Hat Hsl) as (conn & q & q' & H1 & H2 & Hq).
  unfold resolve.
  rewrite (parsePath_after_prefix _ s conn q H1),
          (parsePath_after_prefix _ s conn q' H2), Hq.
  reflexivity.
Qed.

(** A path into the object graph of the example. *)
Lemma trailing_slash_is_ignored_witness :
  resolve example_engine (VStr "a/b/op/")
  = Ret (MkParsed (VObj false [("op", VFun 0); ("bad", VFun 1); ("worse", VFun 2)])
           "op" false ["a"; "b"]).
Proof.
  change (VStr "a/b/op/") with (VStr ("a/b/op" +:+ "/")).
  rewrite (trailing_slash_is_ignored example_engine "a/b/op").
  - reflexivity.
  - discriminate.
  - reflexivity.
Defined.

(* ===================================================================== *)
(** ** Inbound get and put, whatever the path                              *)
(* ===================================================================== *)

Lemma nullish_dec o : {o = VUndefined \/ o = VNull} + {o <> VUndefined /\ o <> VNull}.
Proof. destruct o; first [left; auto; fail | right; split; discriminate]. Qed.

Lemma get_member_ret o k :
  o <> VUndefined -> o <> VNull -> exists v, get_member o k = Ret v.
Proof.
  intros Hu Hn. destruct (get_member o k) as [v|ex] eqn:E; [eauto|].
  destruct (get_member_throw o k ex E) as [[?|?] _]; contradiction.
Qed.

Lemma set_length_outcome l n :
  (exists o', set_length l n = Ret o') \/
  exists msg, set_length l n = Throw (VError VUndefined (VStr msg)).
Proof.
  unfold set_length, RangeError. destruct n as [n|]; [|right; eauto].
  destruct ((0 <=? n) && (n <=? 4294967295))%bool; [left | right]; eauto.
Qed.

Lemma set_proto_frozen_outcome o v :
  (exists o', set_proto_frozen o v = Ret o') \/
  exists msg, set_proto_frozen o v = Throw (VError VUndefined (VStr msg)).
Proof.
  unfold set_proto_frozen, TypeError.
  match goal with |- context [if ?b then _ else _] => destruct b end;
    [right | left]; eauto.
Qed.

(** An assignment returns, or throws an Error object without a [number]. *)
Lemma set_member_outcome o k v :
  (exists o', set_member o k v = Ret o') \/
  exists msg, set_member o k v = Throw (VError VUndefined (VStr msg)).
Proof.
  destruct o; cbn -[String.eqb function_keeps to_str set_length set_proto_frozen];
    try (left; eexists; reflexivity);
    try (right; eexists; reflexivity);
    repeat match goal with
           | |- context [if function_keeps k then _ else _] =>
               destruct (function_keeps k)
           end;
    try (left; eexists; reflexivity).
  - destruct (String.eqb k "length").
    + destruct v; cbn -[to_str set_length]; try apply set_length_outcome;
        match goal with
        | |- context [to_str ?x] =>
            let E := fresh "E" in
            destruct (to_str x) as [t|ex] eqn:E; cbn -[to_str set_length];
              [apply set_length_outcome
              |destruct (to_str_throw _ _ E) as [msg ->]; right; eexists; reflexivity]
        end.
    + destruct (array_index k); left; eauto.
  - destruct frozen.
    + destruct (String.eqb k "__proto__" && negb (has_prop k props))%bool;
        [apply set_proto_frozen_outcome | left; eauto].
    + destruct (String.eqb k "__proto__" && negb (has_prop k props))%bool; left; eauto.
  - destruct (String.eqb k "number"); [left; eauto|].
    destruct (String.eqb k "message"); left; eauto.
  - destruct (String.eqb k "__proto__"); [apply set_proto_frozen_outcome | left; eauto].
Qed.

(** [case "put"] where the assignment throws. *)
Lemma handle_put_throws s message path id body pd ex :
  resolve s path = Ret pd ->
  get_member message "body" = Ret body ->
  set_member (obj pd) (prop pd) body = Throw ex ->
  handle_put message path id s = (s, [], Throw ex).
Proof.
  intros Hr Hb Hs. unfold handle_put.
  rewrite bind_eq, parsePath_eq, Hr. unfold_M. cbn.
  rewrite Hb. cbn. rewrite Hs. reflexivity.
Qed.

Lemma unresolved_dec s path :
  unresolved s path \/
  exists pd, resolve s path = Ret pd /\ obj pd <> VUndefined /\ obj pd <> VNull.
Proof.
  unfold unresolved. destruct (resolve s path) as [pd|ex]; [|left; exact I].
  destruct (nullish_dec (obj pd)) as [Hn|[Hu Hn]]; [left; exact Hn|].
  right. exists pd. auto.
Qed.

Lemma addressed_to_reply id body :
  addressed_to id
    (TextFrame match body with
               | VError n m => error_response id (if truthy n then n else VNum (-1)) m
               | _ => response id body
               end).
Proof. destruct body; split; reflexivity. Qed.

(** X21 (src/cogsocket.js, case "get" of socketMessage, parsePath and
    sendResponse): an inbound get on an open engine, whatever its path is
    and whether or not it resolves, never changes the engine and never calls
    a function, a continuation or a listener; the handler returns; and the
    get is answered with exactly one response addressed to its id when it
    has one, and with nothing when it has none.  (The object graph is one of
    data properties; an accessor property would run code of the host.) *)
Theorem inbound_get_only_reads H s p message id path body :
  _priv s = Some p ->
  is_message message (VStr "get") id path body ->
  exists tr,
    socketMessage H (Text (Ret message)) s = (s, tr, Ret tt) /\
    invocations tr = [] /\ notifications tr = [] /\
    if truthy id
    then exists f, sent_frames tr = [f] /\ addressed_to id f
    else sent_frames tr = [].
Proof.
  intros Hp Hm. pose proof Hm as (_ & _ & _ & Hb).
  destruct (unresolved_dec s path) as [Hun|(pd & Hr & Hu & Hn)].
  - destruct (request_on_unresolved_path H s message "get" id path body
                ltac:(cbn; auto) Hb Hun) as [msg Hd].
    rewrite (socketMessage_text H s message "get" id path body Hm).
    cbv zeta. change (String.eqb "get" "resp") with false. cbv iota. rewrite Hd.
    destruct (truthy id) eqn:Eid.
    + rewrite (on_exception_Error s p id VUndefined msg Hp Eid).
      eexists. split; [reflexivity|].
      rewrite !invocations_app, !notifications_app, !sent_frames_app,
        !invocations_log_events, !notifications_log_events, !sent_frames_log_events.
      cbn [app]. change (ConsoleLogStack ?e :: ?l) with ([ConsoleLogStack e] ++ l).
      rewrite invocations_app, notifications_app, sent_frames_app,
        invocations_request_events, notifications_request_events,
        sent_frames_request_events.
      repeat split. eexists. split; [reflexivity|]. split; reflexivity.
    + rewrite (on_exception_Error_no_id s id VUndefined msg Eid).
      eexists. split; [reflexivity|].
      rewrite !invocations_app, !notifications_app, !sent_frames_app,
        !invocations_log_events, !notifications_log_events, !sent_frames_log_events.
      repeat split.
  - destruct (get_member_ret (obj pd) (prop pd) Hu Hn) as [v Hv].
    rewrite (socketMessage_text H s message "get" id path body Hm).
    cbv zeta. change (String.eqb "get" "resp") with false. cbv iota.
    change (dispatch H (MkInbound message path (VStr "get") id) s)
      with (handle_get path id s).
    rewrite (handle_get_resolved s path id pd v Hr Hv).
    destruct (truthy id) eqn:Eid.
    + rewrite (sendResponse_open s p id v Hp Eid).
      eexists. split; [reflexivity|].
      rewrite !invocations_app, !notifications_app, !sent_frames_app,
        !invocations_log_events, !notifications_log_events, !sent_frames_log_events,
        invocations_request_events, notifications_request_events,
        sent_frames_request_events.
      repeat split. eexists. split; [reflexivity|]. apply addressed_to_reply.
    + rewrite (sendResponse_no_id s id v Eid).
      eexists. split; [reflexivity|].
      rewrite !invocations_app, !notifications_app, !sent_frames_app,
        !invocations_log_events, !notifications_log_events, !sent_frames_log_events.
      repeat split.
Qed.

(** A get of a path that leaves the object graph of the example. *)
Lemma inbound_get_only_reads_witness :
  exists tr,
    socketMessage example_host (example_message "get" (VNum 3) "a/x/y/z" VUndefined)
      example_engine
    = (example_engine, tr, Ret tt) /\
    invocations tr = [] /\ notifications tr = [] /\
    exists f, sent_frames tr = [f] /\ addressed_to (VNum 3) f.
Proof.
  apply (inbound_get_only_reads example_host example_engine
           (MkPriv example_root (VNum 2) 0 ∅ ∅ ∅ ConnectionObject VUndefined VUndefined)
           (request "get" (VNum 3) "a/x/y/z" VUndefined)
           (VNum 3) (VStr "a/x/y/z") VUndefined).
  - reflexivity.
  - repeat split.
Defined.

(** X22 (src/cogsocket.js, case "put" of socketMessage, parsePath and
    sendResponse): an inbound put on an open engine, whatever its path and
    body are, calls no function, continuation or listener and returns; all
    it can change of the engine is the object graph under the root and the
    connection object, every table, the counter and the remote and local
    information staying as they are; and it is answered with exactly one
    response addressed to its id when it has one, and with nothing when it
    has none.  (The object graph is one of data properties, as for get.) *)
Theorem inbound_put_only_writes_the_graph H p lg message id path body :
  is_message message (VStr "put") id path body ->
  exists tr root' connection',
    socketMessage H (Text (Ret message)) (MkCogSocket (Some p) lg)
    = (MkCogSocket (Some (set_connection connection' (set_root root' p))) lg,
       tr, Ret tt) /\
    invocations tr = [] /\ notifications tr = [] /\
    if truthy id
    then exists f, sent_frames tr = [f] /\ addressed_to id f
    else sent_frames tr = [].
Proof.
  intros Hm. pose proof Hm as (_ & _ & _ & Hb).
  set (s := MkCogSocket (Some p) lg).
  assert (Hsame : set_connection (connection p) (set_root (root p) p) = p)
    by (destruct p; reflexivity).
  assert (Hthrown : exists msg,
            dispatch H (MkInbound message path (VStr "put") id) s
            = (s, [], Throw (VError VUndefined (VStr msg))) \/
          exists pd o',
            resolve s path = Ret pd /\ set_member (obj pd) (prop pd) body = Ret o').
  { destruct (unresolved_dec s path) as [Hun|(pd & Hr & Hu & Hn)].
    - destruct (request_on_unresolved_path H s message "put" id path body
                  ltac:(cbn; auto) Hb Hun) as [msg Hd].
      exists msg. left. exact Hd.
    - destruct (set_member_outcome (obj pd) (prop pd) body) as [[o' Ho]|[msg Ho]].
      + exists EmptyString. right. exists pd, o'. auto.
      + exists msg. left.
        change (dispatch H (MkInbound message path (VStr "put") id) s)
          with (handle_put message path id s).
        apply (handle_put_throws s message path id body pd _ Hr Hb Ho). }
  destruct Hthrown as [msg [Hd|(pd & o' & Hr & Ho)]].
  - rewrite (socketMessage_text H s message "put" id path body Hm).
    cbv zeta. change (String.eqb "put" "resp") with false. cbv iota. rewrite Hd.
    destruct (truthy id) eqn:Eid.
    + rewrite (on_exception_Error s p id VUndefined msg eq_refl Eid).
      eexists _, (root p), (connection p). rewrite Hsame.
      split; [reflexivity|].
      rewrite !invocations_app, !notifications_app, !sent_frames_app,
        !invocations_log_events, !notifications_log_events, !sent_frames_log_events.
      cbn [app]. change (ConsoleLogStack ?e :: ?l) with ([ConsoleLogStack e] ++ l).
      rewrite invocations_app, notifications_app, sent_frames_app,
        invocations_request_events, notifications_request_events,
        sent_frames_request_events.
      repeat split. eexists. split; [reflexivity|]. split; reflexivity.
    + rewrite (on_exception_Error_no_id s id VUndefined msg Eid).
      eexists _, (root p), (connection p). rewrite Hsame.
      split; [reflexivity|].
      rewrite !invocations_app, !notifications_app, !sent_frames_app,
        !invocations_log_events, !notifications_log_events, !sent_frames_log_events.
      repeat split.
  - rewrite (socketMessage_text H s message "put" id path body Hm).
    cbv zeta. change (String.eqb "put" "resp") with false. cbv iota.
    change (dispatch H (MkInbound message path (VStr "put") id) s)
      with (handle_put message path id s).
    unfold s at 1.
    rewrite (handle_put_resolved p lg message path id body pd o' Hr Hb Ho).
    set (p' := if in_connection pd then _ else _).
    assert (Hp' : exists r' c', p' = set_connection c' (set_root r' p)).
    { unfold p'. destruct (in_connection pd).
      - exists (root p), (update_at (connection p) (trail pd) o'). destruct p; reflexivity.
      - exists (update_at (root p) (trail pd) o'), (connection p). destruct p; reflexivity. }
    destruct Hp' as (r' & c' & Hp'). rewrite Hp'. clear Hp' p'.
    destruct (truthy id) eqn:Eid.
    + rewrite (sendResponse_open (MkCogSocket _ lg) _ id VUndefined eq_refl Eid).
      eexists _, r', c'. split; [reflexivity|].
      rewrite !invocations_app, !notifications_app, !sent_frames_app,
        !invocations_log_events, !notifications_log_events, !sent_frames_log_events,
        invocations_request_events, notifications_request_events,
        sent_frames_request_events.
      repeat split. eexists. split; [reflexivity|]. split; reflexivity.
    + rewrite (sendResponse_no_id _ id VUndefined Eid).
      eexists _, r', c'. split; [reflexivity|].
      rewrite !invocations_app, !notifications_app, !sent_frames_app,
        !invocations_log_events, !notifications_log_events, !sent_frames_log_events.
      repeat split.
Qed.

(** A put that replaces a member of the object graph of the example. *)
Lemma inbound_put_only_writes_the_graph_witness :
  exists tr root' connection',
    socketMessage example_host (example_message "put" (VNum 3) "mode" (VBool true))
      example_engine
    = (MkCogSocket
         (Some (set_connection connection'
                  (set_root root'
                     (MkPriv example_root (VNum 2) 0 ∅ ∅ ∅ ConnectionObject
                        VUndefined VUndefined)))) false,
       tr, Ret tt) /\
    invocations tr = [] /\ notifications tr = [] /\
    exists f, sent_frames tr = [f] /\ addressed_to (VNum 3) f.
Proof.
  apply (inbound_put_only_writes_the_graph example_host
           (MkPriv example_root (VNum 2) 0 ∅ ∅ ∅ ConnectionObject VUndefined VUndefined)
           false (request "put" (VNum 3) "mode" (VBool true))
           (VNum 3) (VStr "mode") (VBool true)).
  repeat split.
Defined.


(* ===================================================================== *)
(** ** The continuation of addListener and removeListener                  *)
(* ===================================================================== *)

Lemma notify_called H cb p lg :
  exists r,
    notify H (Some cb) (MkCogSocket (Some p) lg)
    = (MkCogSocket (Some p) lg, [Notified cb []], r).
Proof.
  unfold notify. unfold_M. cbn. destruct (host_callback H cb []); eexists; reflexivity.
Qed.

Lemma sendRequest_filed p lg type path cb :
  exists s' tr r,
    (sendRequest type path (Some cb) VUndefined ≫= λ _, mret tt) (MkCogSocket (Some p) lg)
    = (s', tr, r) /\
    filed cb type path s' tr.
Proof.
  rewrite bind_eq, sendRequest_with_oncomplete.
  eexists _, _, _. split; [reflexivity|].
  rewrite app_nil_r.
  eexists _, _. split; [reflexivity|]. split; [apply sent_frames_request_events|].
  split; [|apply notifications_request_events].
  cbn. apply lookup_insert_eq.
Qed.

Lemma addListener_continuation H path l cb p lg :
  inherited path = None ->
  let res := addListener H path l (Some cb) (MkCogSocket (Some p) lg) in
  filed cb "listen" path (fst (fst res)) (snd (fst res)) \/
  called_at_once cb p (fst (fst res)) (snd (fst res)).
Proof.
  intros Hinh res. unfold res, addListener.
  erewrite bind_ret_eq by reflexivity.
  destruct (listeners p !! path) as [ls|] eqn:El;
    [rewrite (table_get_own _ _ _ El) | rewrite (table_get_nothing _ _ El Hinh)].
  - right. erewrite bind_ret_eq by reflexivity. cbv beta. cbn [log].
    destruct (notify_called H cb (set_listeners (<[path := ls ++ [l]]> (listeners p)) p) lg)
      as [r Hn].
    rewrite Hn. cbn [fst snd app]. eexists. repeat split.
  - left. erewrite bind_ret_eq by reflexivity. cbv beta. cbn [log].
    destruct (sendRequest_filed (set_listeners (<[path := [l]]> (listeners p)) p) lg
                "listen" path cb) as (s' & tr & r & Heq & Hf).
    rewrite Heq. cbn [fst snd app]. exact Hf.
Qed.

Lemma removeListener_continuation H path l cb p lg :
  let res := removeListener H path l (Some cb) (MkCogSocket (Some p) lg) in
  filed cb "unlisten" path (fst (fst res)) (snd (fst res)) \/
  called_at_once cb p (fst (fst res)) (snd (fst res)).
Proof.
  intros res. unfold res, removeListener.
  erewrite bind_ret_eq by reflexivity.
  destruct (table_get (listeners p) path) as [ls|len|].
  - cbv zeta. erewrite bind_ret_eq by reflexivity. cbv beta. cbn [log].
    match goal with
    | |- context [if ?b then _ else _] => destruct b
    end.
    + left. erewrite bind_ret_eq by reflexivity. cbv beta. cbn [log].
      match goal with
      | |- context [(sendRequest "unlisten" path (Some cb) VUndefined ≫= _)
                      (MkCogSocket (Some ?q) lg)] =>
          destruct (sendRequest_filed q lg "unlisten" path cb)
            as (s' & tr & r & Heq & Hf)
      end.
      rewrite Heq. cbn [fst snd app]. exact Hf.
    + right.
      match goal with
      | |- context [notify H (Some cb) (MkCogSocket (Some ?q) lg)] =>
          destruct (notify_called H cb q lg) as [r Hn]
      end.
      rewrite Hn. cbn [fst snd app]. eexists. repeat split.
  - match goal with
    | |- context [if ?b then _ else _] => destruct b
    end.
    + left.
      destruct (sendRequest_filed p lg "unlisten" path cb) as (s' & tr & r & Heq & Hf).
      rewrite Heq. cbn [fst snd app]. exact Hf.
    + right. destruct (notify_called H cb p lg) as [r Hn].
      rewrite Hn. cbn [fst snd app]. eexists. repeat split.
  - right. destruct (notify_called H cb p lg) as [r Hn].
    rewrite Hn. cbn [fst snd app]. eexists. repeat split.
Qed.

(** X23 (src/cogsocket.js, addListener and removeListener): the continuation
    passed to removeListener, or to addListener for a path that is not the
    name of a member every object inherits ([toString], [constructor], ...;
    there addListener throws), on an open engine is never lost and never
    called twice.  Either the call sends its one listen or
    unlisten request, with a correlation id under which the continuation is
    then pending, and does not call it; or the call sends nothing, files
    nothing, and calls the continuation once, at once, without arguments. *)
Theorem listener_continuation_is_filed_or_called H o p lg path cb :
  (inherited path = None /\ exists l, o = OpAddListener path l (Some cb)) \/
  (exists l, o = OpRemoveListener path l (Some cb)) ->
  let res := run_op H o (MkCogSocket (Some p) lg) in
  let type := match o with OpAddListener _ _ _ => "listen" | _ => "unlisten" end in
  filed cb type path (fst (fst res)) (snd (fst res)) \/
  called_at_once cb p (fst (fst res)) (snd (fst res)).
Proof.
  intros [[Hinh [l ->]]|[l ->]]; cbn [run_op].
  - apply addListener_continuation, Hinh.
  - apply removeListener_continuation.
Qed.

(** The second listener of a path of the example: nothing is sent and the
    continuation 5 is called. *)
Lemma listener_continuation_is_filed_or_called_witness :
  let s := fst (fst (addListener example_host "a/changed" 7 None example_engine)) in
  let res := addListener example_host "a/changed" 8 (Some 5%nat) s in
  sent_frames (snd (fst res)) = [] /\ notifications (snd (fst res)) = [(5%nat, [])].
Proof.
  intros s res.
  destruct (_priv s) as [p|] eqn:Ep; [|vm_compute in Ep; discriminate].
  destruct (listener_continuation_is_filed_or_called example_host
              (OpAddListener "a/changed" 8 (Some 5%nat)) p false "a/changed" 5%nat)
    as [(id & p' & _ & Hs & _)|(p' & _ & _ & Hs & Hn)].
  - left. split; [reflexivity|]. exists 8%nat. reflexivity.
  - exfalso. vm_compute in Ep. injection Ep as <-. vm_compute in Hs. discriminate Hs.
  - vm_compute in Ep. injection Ep as <-. split; [exact Hs|exact Hn].
Defined.


(* ===================================================================== *)
(** ** The inspection script                                               *)
(* ===================================================================== *)

Lemma lookup_store_prop_ne k k' v props :
  k' <> k -> lookup_prop k (store_prop k' v props) = lookup_prop k props.
Proof.
  intros Hne. induction props as [|[k0 v0] props IH]; cbn.
  - destruct (String.eqb_spec k' k); [contradiction|reflexivity].
  - destruct (String.eqb_spec k0 k') as [->|Hk0]; cbn.
    + destruct (String.eqb_spec k' k); [contradiction|reflexivity].
    + destruct (String.eqb k0 k); [reflexivity|exact IH].
Qed.

(** The cells are indexed from first to last. *)
Lemma index_cells_pairs elems pairs :
  Forall2 cell_at elems pairs ->
  Forall (fun ld => fst ld <> "__proto__") pairs ->
  forall props,
    index_cells props elems
    = Some (Ret (fold_left (fun acc ld => store_prop (fst ld) (snd ld) acc) pairs props)).
Proof.
  induction 1 as [|c ld elems pairs (loc & Hl & Hs & Hd) _ IH]; intros Hp props.
  - reflexivity.
  - apply Forall_cons in Hp as [Hne Hp].
    cbn [index_cells fold_left]. unfold index_cell. rewrite Hl, Hs, Hd.
    destruct (String.eqb_spec (fst ld) "__proto__"); [contradiction|].
    apply IH, Hp.
Qed.

(** Indexing keeps, for every location, the data of its last cell. *)
Lemma lookup_indexed k pairs : forall props,
  lookup_prop k (fold_left (fun acc ld => store_prop (fst ld) (snd ld) acc) pairs props)
  = match last (filter (fun ld => fst ld = k) pairs) with
    | Some ld => snd ld
    | None => lookup_prop k props
    end.
Proof.
  induction pairs as [|ld pairs IH] using rev_ind; intros props; [reflexivity|].
  rewrite fold_left_app, filter_app. cbn [fold_left].
  destruct (decide (fst ld = k)) as [<-|Hne].
  - rewrite filter_cons_True by reflexivity. rewrite filter_nil.
    rewrite last_snoc. apply lookup_store_prop.
  - rewrite filter_cons_False by exact Hne. rewrite filter_nil, app_nil_r.
    rewrite lookup_store_prop_ne by exact Hne. apply IH.
Qed.

Lemma cells_indexed k elems pairs indexed :
  Forall2 cell_at elems pairs ->
  Forall (fun ld => fst ld <> "__proto__") pairs ->
  index_cells [] elems = Some (Ret indexed) ->
  lookup_prop k indexed = cell_data k pairs.
Proof.
  intros Hc Hp Hi. rewrite (index_cells_pairs elems pairs Hc Hp []) in Hi.
  injection Hi as <-. rewrite lookup_indexed. reflexivity.
Qed.

(** [writeResults] on a result whose cells can be read. *)
Lemma writeResults_on_cells q hmiResult elems pairs view part_id :
  get_member hmiResult "cells" = Ret (VArr elems) ->
  Forall2 cell_at elems pairs ->
  Forall (fun ld => fst ld <> "__proto__") pairs ->
  get_member hmiResult "acqImageView" = Ret view ->
  get_member view "id" = Ret part_id ->
  writeResults q hmiResult =
    Some
      (if (is_empty_string (cell_data "D6" pairs)
           || is_empty_string (cell_data "G6" pairs))%bool
       then [ConsoleLog [VStr "Empty results. Not posting to database"]]
       else
         [ConsoleLog
            [VObj false
               (zip ["part_id"; "camera_view"; "gripper_x"; "gripper_y"; "gripper_r";
                     "part_x"; "part_y"; "part_r"] (pose_row part_id pairs))];
          PoolQuery insertQuery (pose_row part_id pairs);
          match q insertQuery (pose_row part_id pairs) with
          | Ret result => ConsoleLog [VStr "Data inserted successfully:"; result]
          | Throw error => ConsoleError [VStr "Error inserting data:"; error]
          end]).
Proof.
  intros Hcells Hc Hp Hview Hid.
  unfold writeResults, writeResults_try. rewrite Hcells. cbn [cells_forEach].
  rewrite (index_cells_pairs elems pairs Hc Hp []).
  rewrite Hview. cbn [outcome_bind]. rewrite Hid. cbv zeta.
  rewrite !lookup_indexed. cbn [lookup_prop]. fold (cell_data "C6" pairs).
  fold (cell_data "D6" pairs). fold (cell_data "E6" pairs). fold (cell_data "F6" pairs).
  fold (cell_data "G6" pairs). fold (cell_data "H6" pairs). fold (cell_data "I6" pairs).
  destruct (is_empty_string (cell_data "D6" pairs) || is_empty_string (cell_data "G6" pairs));
    [reflexivity|].
  unfold pose_row.
  destruct (q insertQuery _); reflexivity.
Qed.

Lemma queries_app effs1 effs2 : queries (effs1 ++ effs2) = queries effs1 ++ queries effs2.
Proof. unfold queries. apply omap_app. Qed.

(** X24 (src/avs_cognex.js, writeResults, lines 207-260): for a result whose
    cells can be read and whose gripper and part positions (cells D6 and G6)
    are not the empty string, exactly one query is handed to the pool: the
    INSERT statement, with the id of the acquired image and the data of the
    cells C6, D6, E6, F6, G6, H6 and I6 in the order of the columns.  Where
    a location occurs in several cells the data of the last one is taken,
    and where it occurs in none the parameter is undefined; a missing
    position is not an empty one and does not stop the insertion. *)
Theorem pose_is_inserted_once q hmiResult elems pairs view part_id :
  get_member hmiResult "cells" = Ret (VArr elems) ->
  Forall2 cell_at elems pairs ->
  Forall (fun ld => fst ld <> "__proto__") pairs ->
  get_member hmiResult "acqImageView" = Ret view ->
  get_member view "id" = Ret part_id ->
  is_empty_string (cell_data "D6" pairs) = false ->
  is_empty_string (cell_data "G6" pairs) = false ->
  exists effs,
    writeResults q hmiResult = Some effs /\
    queries effs = [(insertQuery, pose_row part_id pairs)].
Proof.
  intros Hcells Hc Hp Hview Hid HD HG.
  rewrite (writeResults_on_cells q hmiResult elems pairs view part_id
             Hcells Hc Hp Hview Hid), HD, HG.
  eexists. split; [reflexivity|].
  cbn [orb]. destruct (q insertQuery _); reflexivity.
Qed.

(** The result of the example: the second cell at D6 replaces the empty
    first one, and the cells E6, F6, H6 and I6 are missing. *)
Lemma pose_is_inserted_once_witness :
  exists effs,
    writeResults (fun _ _ => Ret VNull) example_result = Some effs /\
    queries effs
    = [(insertQuery,
        [VNum 42; VNum 1; VNum 3; VUndefined; VUndefined; VNum 7; VUndefined;
         VUndefined])].
Proof.
  apply (pose_is_inserted_once (fun _ _ => Ret VNull) example_result
           [VObj false [("location", VStr "C6"); ("data", VNum 1)];
            VObj false [("location", VStr "D6"); ("data", VStr EmptyString)];
            VObj false [("location", VStr "G6"); ("data", VNum 7)];
            VObj false [("location", VStr "D6"); ("data", VNum 3)];
            VObj false [("location", VStr "A0"); ("data", VStr "Pass")]]
           [("C6", VNum 1); ("D6", VStr EmptyString); ("G6", VNum 7); ("D6", VNum 3);
            ("A0", VStr "Pass")]
           (VObj false [("id", VNum 42)]) (VNum 42)).
  - reflexivity.
  - repeat constructor; eexists; repeat split.
  - repeat constructor; discriminate.
  - reflexivity.
  - reflexivity.
  - reflexivity.
  - reflexivity.
Defined.

(** X25 (src/avs_cognex.js, writeResults, lines 232-235): a result whose
    cells can be read and whose gripper position or part position (the data
    of the last cell at D6, or at G6) is the empty string is not written to
    the database: no query is made, and the one thing the function does is
    to say so on the console. *)
Theorem empty_result_is_not_inserted q hmiResult elems pairs view part_id :
  get_member hmiResult "cells" = Ret (VArr elems) ->
  Forall2 cell_at elems pairs ->
  Forall (fun ld => fst ld <> "__proto__") pairs ->
  get_member hmiResult "acqImageView" = Ret view ->
  get_member view "id" = Ret part_id ->
  cell_data "D6" pairs = VStr EmptyString \/ cell_data "G6" pairs = VStr EmptyString ->
  writeResults q hmiResult
  = Some [ConsoleLog [VStr "Empty results. Not posting to database"]].
Proof.
  intros Hcells Hc Hp Hview Hid Hempty.
  rewrite (writeResults_on_cells q hmiResult elems pairs view part_id
             Hcells Hc Hp Hview Hid).
  destruct Hempty as [-> | ->]; cbn [is_empty_string String.eqb orb];
    [|rewrite orb_true_r]; reflexivity.
Qed.

(** A result without part position. *)
Lemma empty_result_is_not_inserted_witness :
  writeResults (fun _ _ => Ret VNull)
    (VObj false
       [("acqImageView", VObj false [("id", VNum 43)]);
        ("cells", VArr [VObj false [("location", VStr "D6"); ("data", VNum 3)];
                        VObj false [("location", VStr "G6"); ("data", VStr EmptyString)]])])
  = Some [ConsoleLog [VStr "Empty results. Not posting to database"]].
Proof.
  apply (empty_result_is_not_inserted (fun _ _ => Ret VNull) _
           [VObj false [("location", VStr "D6"); ("data", VNum 3)];
            VObj false [("location", VStr "G6"); ("data", VStr EmptyString)]]
           [("D6", VNum 3); ("G6", VStr EmptyString)]
           (VObj false [("id", VNum 43)]) (VNum 43)).
  - reflexivity.
  - repeat constructor; eexists; repeat split.
  - repeat constructor; discriminate.
  - reflexivity.
  - reflexivity.
  - right. reflexivity.
Defined.

(** X26 (src/avs_cognex.js, writeResults, lines 207-260): whatever
    writeResults is given and whatever the pool answers, it hands at most
    one query to the pool, and a query it hands over is the INSERT statement
    with eight parameters of which neither the third (gripper_x) nor the
    sixth (part_x) is the empty string.  In particular a result that cannot
    be read (no cells, a cell that is null, no acquired image) is never
    written, the error going to the console. *)
Theorem no_row_without_positions q hmiResult effs :
  writeResults q hmiResult = Some effs ->
  (length (queries effs) <= 1)%nat /\
  forall text values,
    (text, values) ∈ queries effs ->
    text = insertQuery /\ length values = 8%nat /\
    is_empty_string (nth 2 values VUndefined) = false /\
    is_empty_string (nth 5 values VUndefined) = false.
Proof.
  unfold writeResults, writeResults_try.
  destruct (get_member hmiResult "cells") as [cells|ex]; cycle 1.
  { intros [= <-]. split; [cbn; lia|]. intros t v Hin. cbn in Hin. set_solver. }
  destruct (cells_forEach cells) as [[indexed|ex]|]; [| |discriminate]; cycle 1.
  { intros [= <-]. split; [cbn; lia|]. intros t v Hin. cbn in Hin. set_solver. }
  destruct (outcome_bind _ _) as [part_id|ex]; cycle 1.
  { intros [= <-]. split; [cbn; lia|]. intros t v Hin. cbn in Hin. set_solver. }
  cbv zeta.
  destruct (is_empty_string (lookup_prop "D6" indexed)) eqn:HD; cbn [orb].
  { intros [= <-]. split; [cbn; lia|]. intros t v Hin. cbn in Hin. set_solver. }
  destruct (is_empty_string (lookup_prop "G6" indexed)) eqn:HG.
  { intros [= <-]. split; [cbn; lia|]. intros t v Hin. cbn in Hin. set_solver. }
  destruct (q insertQuery _) as [result|error]; intros [= <-].
  - split; [cbn; lia|]. intros t v Hin. cbn in Hin.
    apply list_elem_of_singleton in Hin. injection Hin as -> ->. auto.
  - split; [cbn; lia|]. intros t v Hin. cbn in Hin.
    apply list_elem_of_singleton in Hin. injection Hin as -> ->. auto.
Qed.

(** The result of the example, when the pool rejects the query. *)
Lemma no_row_without_positions_witness :
  match writeResults (fun _ _ => Throw (new_Error "connection refused"))
          example_result with
  | Some effs => (length (queries effs) <= 1)%nat
  | None => False
  end.
Proof.
  destruct (writeResults (fun _ _ => Throw (new_Error "connection refused"))
              example_result) as [effs|] eqn:E.
  - exact (proj1 (no_row_without_positions _ _ effs E)).
  - vm_compute in E. discriminate E.
Defined.

(** X27 (src/unnamed/part_000, writeResults, lines 198-249): the older copy
    of the script never writes a result to the database.  Its try block
    reads the identifier result, to take the id of the image, in the block
    that declares const result further down; the read throws a
    ReferenceError whenever the cells could be indexed, and every other way
    through the block has thrown before.  Whatever it is given, and whatever
    the pool would answer, it makes no query and writes one error to the
    console. *)
Theorem older_copy_never_inserts q result1 :
  (forall effs,
     part_000.writeResults q result1 = Some effs ->
     exists error, effs = [ConsoleError [VStr "Error inserting data:"; error]]) /\
  (forall elems,
     get_member result1 "cells" = Ret (VArr elems) ->
     Forall (fun c => exists l, get_member c "location" = Ret (VStr l) /\
                                l <> "__proto__") elems ->
     part_000.writeResults q result1
     = Some [ConsoleError
               [VStr "Error inserting data:";
                ReferenceError "Cannot access 'result' before initialization"]]).
Proof.
  split.
  - intros effs. unfold part_000.writeResults, part_000.writeResults_try.
    destruct (get_member result1 "cells") as [cells|ex]; [|intros [= <-]; eauto].
    destruct (part_000.cells_forEach cells) as [[indexed|ex]|];
      [|intros [= <-]; eauto|discriminate].
    cbn [outcome_bind part_000.result_before_initialization].
    intros [= <-]. eauto.
  - intros elems Hcells Hall.
    unfold part_000.writeResults, part_000.writeResults_try. rewrite Hcells.
    cbn [part_000.cells_forEach]. clear Hcells.
    assert (Hi : forall props, exists indexed,
               part_000.index_cells props elems = Some (Ret indexed)).
    { induction Hall as [|c elems (l & Hl & Hne) _ IH]; intros props.
      - eexists; reflexivity.
      - cbn [part_000.index_cells]. unfold part_000.index_cell. rewrite Hl.
        cbn [to_str]. destruct (String.eqb_spec l "__proto__"); [contradiction|].
        apply IH. }
    destruct (Hi []) as [indexed ->]. reflexivity.
Qed.

(** The cells themselves, as the older copy is called. *)
Lemma older_copy_never_inserts_witness :
  part_000.writeResults (fun _ _ => Ret VNull)
    (VObj false
       [("cells", VArr [VObj false [("location", VStr "D6"); ("data", VNum 3)]])])
  = Some [ConsoleError
            [VStr "Error inserting data:";
             ReferenceError "Cannot access 'result' before initialization"]].
Proof.
  apply (proj2 (older_copy_never_inserts (fun _ _ => Ret VNull) _)
           [VObj false [("location", VStr "D6"); ("data", VNum 3)]]).
  - reflexivity.
  - repeat constructor. exists "D6". split; [reflexivity|discriminate].
Defined.
